(** * Simbi reach-out automation: a shallow embedding and its properties

    The development follows the two Python sources of the repository,
    [simbi_automation_consolidated.py] and [simbi_automation_windows.py]:
    the token-set similarity matcher, the optional embedding matcher, the
    matching of services, the greedy grouping of requests and its report,
    the CSV ledger of sent messages, and the Selenium-driven extraction,
    pagination and sending code.

    Modelling conventions.
    - A Python [str] is a [string]. The [str] methods that depend on the
      Unicode tables of the interpreter are parameters ([Text.methods]).
    - A request dictionary is a [gmap string string]; the one place where
      the code stores [None] in a dictionary (an [href] attribute that is
      missing) uses [gmap string (option string)].
    - A service dictionary, which also holds the float score the matcher
      stores in it, is a [gmap string value].
    - A Python [set] is a [gset].
    - The floating-point quotient of two small integers is represented by
      the rational it rounds, in canonical form ([Qc]).
    - The browser, the file system and the clock are oracles; code that
      talks to them runs in a state-and-exception monad. *)

From Stdlib Require Import Ascii String QArith Qcanon Permutation Sorted Lia.
From stdpp Require Import base decidable option numbers list sorting sets gmap strings.

#[local] Set Warnings "-clear-no-such-hyp".

Local Open Scope string_scope.
Local Open Scope list_scope.
Local Open Scope nat_scope.

(** ** The [str] methods the code calls *)

Module Text.

(** [str.lower()], [str.split()] and [str.strip()], both without arguments,
    as the interpreter provides them over its Unicode tables (which
    characters are white space, which have a lower case). The development
    takes the three methods as given: what it proves holds whatever they
    answer. *)
Record methods := {
  lower : string → string;
  split : string → list string;
  strip : string → string }.

(** [set(text.lower().split())] *)
Definition words (T : methods) (text : string) : gset string :=
  list_to_set (split T (lower T text)).

End Text.

(** *** The three methods on texts of ASCII characters

    What the methods answer on a text whose characters are all ASCII. The
    examples use such texts only and are run with these. *)

Module AsciiText.

(** White space in the ASCII range: TAB..CR, FS..US and the space. *)
Definition is_space (c : ascii) : bool :=
  let n := nat_of_ascii c in
  ((9 <=? n) && (n <=? 13)) || ((28 <=? n) && (n <=? 32)).

(** The lower case of an ASCII character. *)
Definition lower_char (c : ascii) : ascii :=
  let n := nat_of_ascii c in
  if (65 <=? n) && (n <=? 90) then ascii_of_nat (n + 32) else c.

Fixpoint lower (s : string) : string :=
  match s with
  | EmptyString => EmptyString
  | String c s' => String (lower_char c) (lower s')
  end.

(** Maximal runs of characters that are not white space, in order; no
    empty words. [cur] is the word being read. *)
Fixpoint split_from (cur : string) (s : string) : list string :=
  match s with
  | EmptyString => if decide (cur = "") then [] else [cur]
  | String c s' =>
      if is_space c
      then (if decide (cur = "") then split_from "" s'
            else cur :: split_from "" s')
      else split_from (cur +:+ String c "") s'
  end.

Definition split (s : string) : list string := split_from "" s.

Fixpoint lstrip (s : string) : string :=
  match s with
  | EmptyString => EmptyString
  | String c s' => if is_space c then lstrip s' else s
  end.

Fixpoint rstrip (s : string) : string :=
  match s with
  | EmptyString => EmptyString
  | String c s' =>
      let r := rstrip s' in
      if decide (r = "") then (if is_space c then "" else String c "")
      else String c r
  end.

Definition strip (s : string) : string := rstrip (lstrip s).

Definition methods : Text.methods :=
  {| Text.lower := lower; Text.split := split; Text.strip := strip |}.

End AsciiText.

(** ** [SimpleSimilarityMatcher] (simbi_automation_windows.py) *)

Module SimpleSimilarityMatcher.

Record t := { threshold : Qc }.

(** The quotient [intersection / union] of two lengths, as the rational the
    float rounds. Rounding is monotone and leaves 0 and 1 alone, so a score
    equals 0 or 1, or lies between them, exactly when its float does; equal
    quotients have equal floats. *)
Definition ratio (intersection union : nat) : Qc :=
  Q2Qc (Z.of_nat intersection # Pos.of_nat union).

Definition calculate_similarity (T : Text.methods) (text1 text2 : string) : Qc :=
  if bool_decide (text1 = "") || bool_decide (text2 = "") then 0%Qc
  else
    let words1 := Text.words T text1 in
    let words2 := Text.words T text2 in
    let intersection := size (words1 ∩ words2) in
    let union := size (words1 ∪ words2) in
    if bool_decide (union = 0) then 0%Qc
    else ratio intersection union.

End SimpleSimilarityMatcher.

(** ** Python values shared by both sources *)

(** A request dictionary: string keys, string values. *)
Abbreviation dict := (gmap string string).

(** [d.get(key, default)] *)
Definition get (key default : string) (d : dict) : string :=
  match d !! key with
  | Some v => v
  | None => default
  end.

(** [enumerate(xs, start)] *)
Fixpoint enumerate {A} (start : nat) (xs : list A) : list (nat * A) :=
  match xs with
  | [] => []
  | x :: xs' => (start, x) :: enumerate (S start) xs'
  end.

(** ** [SimbiSimilarityMatcher] (simbi_automation_consolidated.py) *)

Module SimbiSimilarityMatcher.

(** A loaded sentence encoder, seen through the only use the code makes of
    it: the cosine of the encodings of two texts, converted by [float];
    [None] when [encode] or the arithmetic raises. (A NaN compares false
    with every threshold, like a score below it.) *)
Definition Model := string → string → option Qc.

Record t := { threshold : Qc; model : option Model }.

(** [__init__]: [loaded] is what [SentenceTransformer(...)] gives, [None]
    when the constructor raises. *)
Definition init (ML_AVAILABLE : bool) (threshold : Qc) (loaded : option Model) : t :=
  {| threshold := threshold;
     model := if ML_AVAILABLE then loaded else None |}.

Definition calculate_similarity (ML_AVAILABLE : bool) (self : t)
    (text1 text2 : string) : Qc :=
  match model self with
  | None => 0%Qc
  | Some m =>
      if negb ML_AVAILABLE then 0%Qc
      else match m text1 text2 with
           | Some similarity => similarity
           | None => 0%Qc
           end
  end.

End SimbiSimilarityMatcher.

(** ** Grouping of similar requests

    The double loop of [group_similar_requests] is the same text in both
    sources; it is written once, over the matcher's scoring function and
    threshold. *)

Section GroupLoop.

Context (calculate_similarity : string → string → Qc) (threshold : Qc).

Definition text_of (request : dict) : string :=
  get "user_request_text" "" request +:+ " " +:+ get "request_title" "" request.

(** [for j, other_request in enumerate(requests[i+1:], i+1)] *)
Fixpoint inner_loop (request_text : string) (others : list (nat * dict))
    (group : list dict) (processed : gset nat) : list dict * gset nat :=
  match others with
  | [] => (group, processed)
  | (j, other_request) :: rest =>
      if decide (j ∈ processed) then inner_loop request_text rest group processed
      else
        let other_text := text_of other_request in
        let similarity := calculate_similarity request_text other_text in
        if bool_decide (threshold ≤ similarity)%Qc
        then inner_loop request_text rest (group ++ [other_request]) ({[j]} ∪ processed)
        else inner_loop request_text rest group processed
  end.

(** [for i, request in enumerate(requests)] *)
Fixpoint outer_loop (requests : list dict) (items : list (nat * dict))
    (groups : list (list dict)) (processed : gset nat) : list (list dict) :=
  match items with
  | [] => groups
  | (i, request) :: rest =>
      if decide (i ∈ processed) then outer_loop requests rest groups processed
      else
        let '(group, processed') :=
          inner_loop (text_of request)
            (enumerate (i + 1) (drop (i + 1) requests))
            [request] ({[i]} ∪ processed) in
        outer_loop requests rest (groups ++ [group]) processed'
  end.

Definition group_loop (requests : list dict) : list (list dict) :=
  outer_loop requests (enumerate 0 requests) [] ∅.

(** The same two loops, recording the position [j] where the code
    records the request found at that position. *)
Fixpoint inner_positions (request_text : string) (others : list (nat * dict))
    (group : list nat) (processed : gset nat) : list nat * gset nat :=
  match others with
  | [] => (group, processed)
  | (j, other_request) :: rest =>
      if decide (j ∈ processed) then inner_positions request_text rest group processed
      else
        if bool_decide (threshold ≤ calculate_similarity request_text (text_of other_request))%Qc
        then inner_positions request_text rest (group ++ [j]) ({[j]} ∪ processed)
        else inner_positions request_text rest group processed
  end.

Fixpoint outer_positions (requests : list dict) (items : list (nat * dict))
    (groups : list (list nat)) (processed : gset nat) : list (list nat) :=
  match items with
  | [] => groups
  | (i, request) :: rest =>
      if decide (i ∈ processed) then outer_positions requests rest groups processed
      else
        let '(group, processed') :=
          inner_positions (text_of request)
            (enumerate (i + 1) (drop (i + 1) requests))
            [i] ({[i]} ∪ processed) in
        outer_positions requests rest (groups ++ [group]) processed'
  end.

Definition group_positions (requests : list dict) : list (list nat) :=
  outer_positions requests (enumerate 0 requests) [] ∅.

End GroupLoop.

Module Windows.

(** [SimbiAutomation.group_similar_requests] of the Windows script *)
Definition group_similar_requests (T : Text.methods)
    (similarity_matcher : SimpleSimilarityMatcher.t)
    (requests : list dict) : list (list dict) :=
  group_loop (SimpleSimilarityMatcher.calculate_similarity T)
    (SimpleSimilarityMatcher.threshold similarity_matcher) requests.

Definition positions (T : Text.methods)
    (similarity_matcher : SimpleSimilarityMatcher.t)
    (requests : list dict) : list (list nat) :=
  group_positions (SimpleSimilarityMatcher.calculate_similarity T)
    (SimpleSimilarityMatcher.threshold similarity_matcher) requests.

End Windows.

Module Consolidated.

(** [SimbiAutomation.group_similar_requests] of the consolidated script *)
Definition group_similar_requests (ML_AVAILABLE : bool)
    (similarity_matcher : SimbiSimilarityMatcher.t)
    (requests : list dict) : list (list dict) :=
  match SimbiSimilarityMatcher.model similarity_matcher with
  | None => map (λ req, [req]) requests
  | Some _ =>
      group_loop (SimbiSimilarityMatcher.calculate_similarity ML_AVAILABLE similarity_matcher)
        (SimbiSimilarityMatcher.threshold similarity_matcher) requests
  end.

Definition positions (ML_AVAILABLE : bool)
    (similarity_matcher : SimbiSimilarityMatcher.t)
    (requests : list dict) : list (list nat) :=
  match SimbiSimilarityMatcher.model similarity_matcher with
  | None => map (λ i, [i]) (seq 0 (length requests))
  | Some _ =>
      group_positions (SimbiSimilarityMatcher.calculate_similarity ML_AVAILABLE similarity_matcher)
        (SimbiSimilarityMatcher.threshold similarity_matcher) requests
  end.

End Consolidated.

(** ** Exceptions, the browser, the ledger file and the state of a run *)

(** The code tells [NoSuchElementException] from every other exception. *)
Inductive exn := NoSuchElementException | OtherException.

Inductive result (A : Type) := Ok (a : A) | Raise (e : exn).
Arguments Ok {A} a.
Arguments Raise {A} e.

(** A Selenium [WebElement] handle. *)
Definition elem := nat.

Inductive By := XPATH | CSS_SELECTOR.

(** Every call the code makes on the driver, the wait object or an element. *)
Inductive call :=
| DriverGet (url : string)
| DriverFindElement (how : By) (selector : string)
| WaitAllPresent (selector : string)
| FindElement (element : elem) (selector : string)
| TextOf (element : elem)
| GetAttribute (element : elem) (name : string)
| IsEnabled (element : elem)
| Click (element : elem)
| SendKeys (element : elem) (text : string).

(** The browser answers a call after the calls made so far. *)
Record Browser := {
  on_get : list call → string → result unit;
  on_driver_find_element : list call → By → string → result elem;
  on_wait_all_present : list call → string → result (list elem);
  on_find_element : list call → elem → string → result elem;
  on_text : list call → elem → result string;
  on_get_attribute : list call → elem → string → result (option string);
  on_is_enabled : list call → elem → result bool;
  on_click : list call → elem → result unit;
  on_send_keys : list call → elem → string → result unit }.

(** What an append to the ledger file meets: nothing in its way; an
    exception in [open], in [writeheader], in [writerow] or at [close]; or,
    without any exception, a file whose last line has no line terminator.
    The writer ends every row it writes with the terminator, but a file
    written by hand need not end with one, and then the bytes of the
    appended row continue that last line: [Unterminated rows] gives the rows
    a reader reads from the file after such an append. *)
Inductive fault :=
| NoFault | OpenFault | HeaderFault | RowFault | CloseFault
| Unterminated (rows : list (list string)).

Global Instance fault_eq_dec : EqDecision fault.
Proof. solve_decision. Defined.

(** The file system and the clock at the n-th ledger append. *)
Record FileSystem := {
  fault_at : nat → fault;
  now_isoformat : nat → string }.

(** The options of [SimbiConfig] read by the modelled code.
    [message_template user_name request_title] is
    [config['message_template'].format(user_name=.., request_title=..)]. *)
Module Config.
Record t := {
  service_url : string;
  max_pages : Z;
  message_template : string → string → result string }.
End Config.

(** Lines written by [self.logger] (at level INFO and above) and [print]. *)
Inductive line :=
| ScrapingPage (page : nat)
| NoMorePagesAvailable
| ScrapedRequests (count page : nat)
| ErrorScrapingRequests
| ErrorExtractingRequestsFromPage
| ErrorNavigatingToNextPage
| MessageAlreadySent (link : string)
| NoMessageButtonFound
| NoMessageTextAreaFound
| MessageSentSuccessfully (user_name : string)
| NoSendButtonFound
| ErrorSendingMessage
| ErrorRecordingSentMessage
| ErrorLoadingSentMessages.

(** The CSV file seen through the [csv] module: absent, or its rows of
    cells. The file is read and written with [newline=''] and the default
    dialect, so the cells written are the cells read back. An appended row
    is a row of its own, unless the last line of the file has no line
    terminator (the fault [Unterminated]). *)
Abbreviation csv := (option (list (list string))).

Record state := {
  calls : list call;               (* browser calls made so far *)
  output : list line;              (* log and print lines so far *)
  sent_messages : gset (option string);   (* SimbiDataManager.sent_messages *)
  csv_file : csv;                  (* content of SimbiDataManager.csv_file *)
  appends : nat }.                 (* ledger appends attempted so far *)

Definition add_call (c : call) (s : state) : state :=
  {| calls := calls s ++ [c]; output := output s;
     sent_messages := sent_messages s; csv_file := csv_file s; appends := appends s |}.

Definition add_line (l : line) (s : state) : state :=
  {| calls := calls s; output := output s ++ [l];
     sent_messages := sent_messages s; csv_file := csv_file s; appends := appends s |}.

Definition set_csv_file (f : csv) (s : state) : state :=
  {| calls := calls s; output := output s;
     sent_messages := sent_messages s; csv_file := f; appends := appends s |}.

Definition add_sent (link : option string) (s : state) : state :=
  {| calls := calls s; output := output s;
     sent_messages := {[link]} ∪ sent_messages s; csv_file := csv_file s;
     appends := appends s |}.

Definition next_append (s : state) : state :=
  {| calls := calls s; output := output s;
     sent_messages := sent_messages s; csv_file := csv_file s;
     appends := S (appends s) |}.

(** *** The monad of code that may raise *)

Definition M (A : Type) : Type := state → result A * state.

Definition ret {A} (a : A) : M A := λ s, (Ok a, s).

Definition bind {A B} (c : M A) (k : A → M B) : M B := λ s,
  match c s with
  | (Ok a, s') => k a s'
  | (Raise e, s') => (Raise e, s')
  end.

Definition raise {A} (e : exn) : M A := λ s, (Raise e, s).

Notation "'let*' x ':=' c 'in' k" := (bind c (λ x, k))
  (at level 10, x name, c at level 100, k at level 200).
Notation "c ';;;' k" := (bind c (λ _, k))
  (at level 100, k at level 200, right associativity).

(** [for selector in selectors: try: x = attempt(selector); break
     except NoSuchElementException: continue] *)
Fixpoint first_match {A} (attempt : string → M A) (selectors : list string)
    : M (option A) :=
  match selectors with
  | [] => ret None
  | selector :: rest => λ s,
      match attempt selector s with
      | (Ok a, s') => (Ok (Some a), s')
      | (Raise NoSuchElementException, s') => first_match attempt rest s'
      | (Raise e, s') => (Raise e, s')
      end
  end.

Definition logger (l : line) : M unit := λ s, (Ok tt, add_line l s).

(** ** [SimbiDataManager]: the CSV ledger of sent messages *)

Module SimbiDataManager.

Definition fieldnames : list string :=
  ["timestamp"; "user_name"; "request_title"; "link"; "user_request_text"; "message_sent"].

(** *** What the [csv] module does with rows *)

(** One row of [csv.DictReader]: [dict(zip(fieldnames, row))], a later
    duplicate of a field name overwriting an earlier one, then [None]
    (the [restval]) for the field names the row is too short for. Cells
    beyond the field names go under the key [None], which is no string
    and so is not a key of this map. *)
Definition row_dict (fieldnames row : list string) : gmap string (option string) :=
  let zipped :=
    foldl (λ d kv, <[kv.1 := Some kv.2]> d) ∅ (zip fieldnames row) in
  foldl (λ d key, <[key := None]> d) zipped (drop (length row) fieldnames).

(** [csv.DictReader(f)]: the first row gives the field names; empty rows
    after it are skipped. *)
Definition DictReader (rows : list (list string)) : list (gmap string (option string)) :=
  match rows with
  | [] => []
  | fieldnames :: rest =>
      map (row_dict fieldnames) (filter (λ row, row ≠ []) rest)
  end.

(** [DictWriter.writerow(data)] raises [ValueError] when [data] has a key
    that is no field name. *)
Definition wrong_fields (data : dict) : bool :=
  negb (bool_decide (dom data ⊆ list_to_set fieldnames)).

(** The cells [DictWriter.writerow(data)] writes: a missing key gives the
    empty cell. *)
Definition row_of (data : dict) : list string :=
  map (λ key, get key "" data) fieldnames.

(** *** The methods *)

(** [load_sent_messages], started from [self.sent_messages = sent].
    [read_fault = Some k]: reading raises after [k] rows were handed out
    ([Some 0] covers a failing [open]); the exception is caught and
    printed. *)
Definition load_sent_messages (read_fault : option nat) (file : csv)
    (sent : gset (option string)) : gset (option string) * list line :=
  match file with
  | None => (sent, [])
  | Some rows =>
      let add_rows (rows : list (gmap string (option string))) :=
        foldl (λ sent row,
                 match row !! "link" with
                 | Some link => {[link]} ∪ sent
                 | None => sent
                 end) sent rows in
      match read_fault with
      | None => (add_rows (DictReader rows), [])
      | Some k => (add_rows (take k (DictReader rows)), [ErrorLoadingSentMessages])
      end
  end.

(** [__init__] *)
Definition init (read_fault : option nat) (file : csv) : gset (option string) * list line :=
  load_sent_messages read_fault file ∅.

Definition is_message_sent (link : string) : M bool := λ s,
  (Ok (bool_decide (Some link ∈ sent_messages s)), s).

Section Append.

Context (F : FileSystem).

(** The rows read from the file once the bytes of [row] were appended to
    a file read as [rows]: one more row, unless the last line of the file
    had no terminator. An empty file has no last line. *)
Definition appended (fl : fault) (rows : list (list string)) (row : list string)
    : list (list string) :=
  match fl, rows with
  | Unterminated glued, _ :: _ => glued
  | _, _ => rows ++ [row]
  end.

(** [record_sent_message]. The dictionary is mutated in place: the
    result is the dictionary the caller holds afterwards. Every
    exception is caught and printed.
    What is left on disk when a write fails is an assumption about the
    file system: whatever was written completely before the failing
    call, and nothing of the buffer when [close] fails. *)
Definition record_sent_message (data : dict) : M dict := λ s,
  let file_exists := bool_decide (is_Some (csv_file s)) in
  let fl := fault_at F (appends s) in
  let now := now_isoformat F (appends s) in
  let s := next_append s in
  match fl with
  | OpenFault => (Ok data, add_line ErrorRecordingSentMessage s)
  | _ =>
      let before := default [] (csv_file s) in
      if negb file_exists && bool_decide (fl = HeaderFault)
      then (Ok data, add_line ErrorRecordingSentMessage (set_csv_file (Some before) s))
      else
        let with_header :=
          if file_exists then before else before ++ [fieldnames] in
        let data := <["timestamp" := now]> data in
        if wrong_fields data || bool_decide (fl = RowFault)
        then (Ok data,
              add_line ErrorRecordingSentMessage (set_csv_file (Some with_header) s))
        else
          let written :=
            if file_exists then appended fl before (row_of data)
            else with_header ++ [row_of data] in
          let s := match data !! "link" with
                   | Some link => add_sent (Some link) s
                   | None => s
                   end in
          if bool_decide (fl = CloseFault)
          then (Ok data, add_line ErrorRecordingSentMessage (set_csv_file (Some before) s))
          else (Ok data, set_csv_file (Some written) s)
  end.

End Append.

End SimbiDataManager.

(** ** [SimbiAutomation]: extraction, pagination and sending *)

Module SimbiAutomation.

Section Run.

Context (T : Text.methods) (B : Browser) (F : FileSystem) (config : Config.t).

(** *** Browser calls *)

Definition driver_get (url : string) : M unit := λ s,
  (on_get B (calls s) url, add_call (DriverGet url) s).

Definition driver_find_element (how : By) (selector : string) : M elem := λ s,
  (on_driver_find_element B (calls s) how selector,
   add_call (DriverFindElement how selector) s).

Definition wait_all_present (selector : string) : M (list elem) := λ s,
  (on_wait_all_present B (calls s) selector, add_call (WaitAllPresent selector) s).

Definition find_element (element : elem) (selector : string) : M elem := λ s,
  (on_find_element B (calls s) element selector, add_call (FindElement element selector) s).

Definition text (element : elem) : M string := λ s,
  (on_text B (calls s) element, add_call (TextOf element) s).

Definition get_attribute (element : elem) (name : string) : M (option string) := λ s,
  (on_get_attribute B (calls s) element name, add_call (GetAttribute element name) s).

Definition is_enabled (element : elem) : M bool := λ s,
  (on_is_enabled B (calls s) element, add_call (IsEnabled element) s).

Definition click (element : elem) : M unit := λ s,
  (on_click B (calls s) element, add_call (Click element) s).

Definition send_keys (element : elem) (keys : string) : M unit := λ s,
  (on_send_keys B (calls s) element keys, add_call (SendKeys element keys) s).

(** *** [extract_requests_from_page] *)

Definition title_selectors : list string :=
  [".title"; ".request-title"; "h3"; "h4"; ".card-title"].
Definition user_selectors : list string :=
  [".user-name"; ".author"; ".username"; ".by"].
Definition desc_selectors : list string :=
  [".description"; ".content"; ".text"; "p"].
Definition link_selectors : list string := ["a"; ".link"].

(** The body of one selector loop for a text field:
    [element.find_element(By.CSS_SELECTOR, selector).text.strip()] *)
Definition text_of_first (element : elem) (selectors : list string)
    : M (option string) :=
  first_match
    (λ selector, let* found := find_element element selector in
                 let* t := text found in
                 ret (Text.strip T t))
    selectors.

(** The link loop: [....get_attribute('href')], which may be [None]. *)
Definition href_of_first (element : elem) (selectors : list string)
    : M (option (option string)) :=
  first_match
    (λ selector, let* found := find_element element selector in
                 get_attribute found "href")
    selectors.

(** [request_data[key] = value] when the loop found a value. *)
Definition assign (key : string) (value : option (option string))
    (request_data : gmap string (option string)) : gmap string (option string) :=
  match value with
  | Some v => <[key := v]> request_data
  | None => request_data
  end.

(** The four selector loops on one element, up to the test. *)
Definition build (element : elem) : M (gmap string (option string)) :=
  let request_data : gmap string (option string) := ∅ in
  let* title := text_of_first element title_selectors in
  let request_data := assign "request_title" (Some <$> title) request_data in
  let* user := text_of_first element user_selectors in
  let request_data := assign "user_name" (Some <$> user) request_data in
  let* desc := text_of_first element desc_selectors in
  let request_data := assign "user_request_text" (Some <$> desc) request_data in
  let* link := href_of_first element link_selectors in
  let request_data := assign "link" link request_data in
  ret request_data.

(** Truth value of [request_data.get(key)]. *)
Definition truthy (value : option (option string)) : bool :=
  match value with
  | Some (Some v) => negb (bool_decide (v = ""))
  | _ => false
  end.

Definition essential (request_data : gmap string (option string)) : bool :=
  truthy (request_data !! "request_title") && truthy (request_data !! "link").

(** A dictionary that passed the test holds strings only; this is the
    same dictionary at the type of requests. *)
Definition as_request (request_data : gmap string (option string)) : dict :=
  omap id request_data.

(** The body of [for element in request_elements]. [logger.debug] writes
    nothing at the configured level. *)
Definition extract_element (requests : list dict) (element : elem)
    : state → list dict * state := λ s,
  match build element s with
  | (Ok request_data, s') =>
      if essential request_data
      then (requests ++ [as_request request_data], s')
      else (requests, s')
  | (Raise _, s') => (requests, s')
  end.

Fixpoint extract_elements (requests : list dict) (request_elements : list elem)
    : state → list dict * state := λ s,
  match request_elements with
  | [] => (requests, s)
  | element :: rest =>
      let '(requests, s') := extract_element requests element s in
      extract_elements requests rest s'
  end.

Definition extract_requests_from_page : state → list dict * state := λ s,
  match wait_all_present ".request-item, .card, .listing" s with
  | (Ok request_elements, s') => extract_elements [] request_elements s'
  | (Raise _, s') => ([], add_line ErrorExtractingRequestsFromPage s')
  end.

(** *** [go_to_next_page] *)

Definition next_selectors : list string :=
  ["//a[contains(text(), 'Next')]"; "//a[contains(@class, 'next')]";
   "//button[contains(text(), 'Next')]"; "//a[@rel='next']"].

(** The body of the [try] inside the loop; [true] stands for
    [return True], [false] for falling out of the [if]. *)
Definition try_next (selector : string) : M bool :=
  let* next_button := driver_find_element XPATH selector in
  let* enabled := is_enabled next_button in
  if enabled then (click next_button ;;; ret true) else ret false.

Fixpoint next_page_loop (selectors : list string) : M bool :=
  match selectors with
  | [] => ret false
  | selector :: rest => λ s,
      match try_next selector s with
      | (Ok true, s') => (Ok true, s')
      | (Ok false, s') => next_page_loop rest s'
      | (Raise NoSuchElementException, s') => next_page_loop rest s'
      | (Raise e, s') => (Raise e, s')
      end
  end.

Definition go_to_next_page : state → bool * state := λ s,
  match next_page_loop next_selectors s with
  | (Ok b, s') => (b, s')
  | (Raise _, s') => (false, add_line ErrorNavigatingToNextPage s')
  end.

(** *** [scrape_requests] *)

(** The body of [for page in range(...)] up to its test: the requests
    of the page and the answer of [go_to_next_page]. The pacing
    [time.sleep] is not modelled. *)
Definition scrape_page (page : nat) : state → (list dict * bool) * state := λ s,
  let s := add_line (ScrapingPage page) s in
  let '(page_requests, s) := extract_requests_from_page s in
  let '(more, s) := go_to_next_page s in
  ((page_requests, more), s).

(** [for page in range(...)]; the second component is the last value
    bound to [page], if any. *)
Fixpoint scrape_pages (pages : list nat) (page : option nat)
    (requests_data : list dict) : state → (list dict * option nat) * state := λ s,
  match pages with
  | [] => ((requests_data, page), s)
  | page :: rest =>
      let '((page_requests, more), s) := scrape_page page s in
      let requests_data := requests_data ++ page_requests in
      if more then scrape_pages rest (Some page) requests_data s
      else ((requests_data, Some page), add_line NoMorePagesAvailable s)
  end.

(** [range(1, max_pages + 1)] *)
Definition page_range (max_pages : Z) : list nat := seq 1 (Z.to_nat max_pages).

Definition scrape_requests (max_pages : option Z) : state → list dict * state := λ s,
  let max_pages := match max_pages with
                   | Some n => n
                   | None => Config.max_pages config
                   end in
  match driver_get (Config.service_url config) s with
  | (Raise _, s') => ([], add_line ErrorScrapingRequests s')
  | (Ok _, s') =>
      let '((requests_data, page), s'') :=
        scrape_pages (page_range max_pages) None [] s' in
      match page with
      | Some page =>
          (requests_data, add_line (ScrapedRequests (length requests_data) page) s'')
      | None =>
          (* [page] is unbound: the f-string raises, the handler logs *)
          (requests_data, add_line ErrorScrapingRequests s'')
      end
  end.

(** *** [send_message] *)

Definition message_selectors : list string :=
  ["//button[contains(text(), 'Message')]"; "//a[contains(text(), 'Contact')]";
   "//button[contains(@class, 'message')]"; "//a[contains(@class, 'contact')]"].
Definition text_area_selectors : list string :=
  ["textarea[name='message']"; "textarea[placeholder*='message']";
   ".message-text"; "textarea"].
Definition send_selectors : list string :=
  ["//button[contains(text(), 'Send')]"; "//input[@type='submit']";
   "//button[@type='submit']"].

(** The body of the [try]. The result carries the dictionary the caller
    holds afterwards; the two assignments to it come after the last
    statement that can raise. *)
Definition send_message_body (request_data : dict) : M (bool * dict) :=
  let* sent := SimbiDataManager.is_message_sent (get "link" "" request_data) in
  if sent then
    logger (MessageAlreadySent (get "link" "" request_data)) ;;;
    ret (false, request_data)
  else
    match request_data !! "link" with
    | Some link => driver_get link
    | None => ret tt
    end ;;;
    let* message_button := first_match (driver_find_element XPATH) message_selectors in
    match message_button with
    | None => logger NoMessageButtonFound ;;; ret (false, request_data)
    | Some message_button =>
        click message_button ;;;
        let* text_area :=
          first_match (driver_find_element CSS_SELECTOR) text_area_selectors in
        match text_area with
        | None => logger NoMessageTextAreaFound ;;; ret (false, request_data)
        | Some text_area =>
            let* message_text :=
              (λ s, (Config.message_template config
                       (get "user_name" "there" request_data)
                       (get "request_title" "your request" request_data), s)) in
            send_keys text_area message_text ;;;
            let* send_button := first_match (driver_find_element XPATH) send_selectors in
            match send_button with
            | Some send_button =>
                click send_button ;;;
                let request_data := <["message_sent" := message_text]> request_data in
                let* request_data :=
                  SimbiDataManager.record_sent_message F request_data in
                logger (MessageSentSuccessfully (get "user_name" "user" request_data)) ;;;
                ret (true, request_data)
            | None => logger NoSendButtonFound ;;; ret (false, request_data)
            end
        end
    end.

Definition send_message (request_data : dict) : state → (bool * dict) * state := λ s,
  match send_message_body request_data s with
  | (Ok r, s') => (r, s')
  | (Raise _, s') => ((false, request_data), add_line ErrorSendingMessage s')
  end.

(** The loop of [run_messaging_mode] over the scraped requests: the
    count of sent messages and the requests as they are afterwards. *)
Fixpoint send_each (requests_data : list dict) (sent_count : nat)
    : state → (nat * list dict) * state := λ s,
  match requests_data with
  | [] => ((sent_count, []), s)
  | request_data :: rest =>
      let '((sent, request_data), s') := send_message request_data s in
      let '((sent_count, rest), s'') :=
        send_each rest (if sent then sent_count + 1 else sent_count) s' in
      ((sent_count, request_data :: rest), s'')
  end.

End Run.

End SimbiAutomation.

(** ** Vocabulary of the statements about groups

    Groups are described by the positions, in the input list, of the
    requests they hold. *)

(** Position [i] occurs in the [k]-th group. *)
Definition in_group (groups : list (list nat)) (k i : nat) : Prop :=
  ∃ g, groups !! k = Some g ∧ i ∈ g.

(** Every position below [n] occurs in one group and in no other. *)
Definition exactly_one_group (n : nat) (groups : list (list nat)) : Prop :=
  ∀ i, i < n → ∃ k, in_group groups k i ∧ ∀ k', in_group groups k' i → k' = k.

(** The groups hold each position below [n] once, and nothing else. *)
Definition partitions (n : nat) (groups : list (list nat)) : Prop :=
  concat groups ≡ₚ seq 0 n.

(** Positions increase inside every group, and the groups are listed by
    increasing first position. *)
Definition keeps_input_order (groups : list (list nat)) : Prop :=
  Forall (StronglySorted lt) groups ∧ StronglySorted lt (map (hd 0) groups).

(** The first position of every group is the least one of the group. *)
Definition opens_with_least (groups : list (list nat)) : Prop :=
  Forall (λ g, Forall (λ i, hd 0 g ≤ i) g) groups.

(** [groups] holds, group by group and in the same order, the requests found
    at [positions]. *)
Definition requests_at (requests : list dict) (groups : list (list dict))
    (positions : list (list nat)) : Prop :=
  Forall2 (Forall2 (λ r i, requests !! i = Some r)) groups positions.

(** [groups] is a partition of [requests], witnessed by [positions]. *)
Definition partition_of (requests : list dict) (groups : list (list dict))
    (positions : list (list nat)) : Prop :=
  requests_at requests groups positions
  ∧ partitions (length requests) positions
  ∧ exactly_one_group (length requests) positions
  ∧ Forall (λ g, g ≠ []) groups
  ∧ length groups ≤ length requests.

(** [groups] keeps the order of [requests], witnessed by [positions]. *)
Definition in_input_order (requests : list dict) (groups : list (list dict))
    (positions : list (list nat)) : Prop :=
  requests_at requests groups positions
  ∧ keeps_input_order positions
  ∧ opens_with_least positions.

(** ** Vocabulary of the statements about a run *)

(** The part of the state that belongs to the ledger. *)
Definition ledger_of (s : state) : gset (option string) * csv * nat :=
  (sent_messages s, csv_file s, appends s).

(** A computation that leaves the ledger alone. *)
Definition keeps_ledger {A} (c : M A) : Prop :=
  ∀ s, ledger_of (c s).2 = ledger_of s.

(** A computation that writes no line. *)
Definition keeps_output {A} (c : M A) : Prop :=
  ∀ s, output (c s).2 = output s.

(** The rows of the ledger file once it is open for appending and has its
    header: the file as it was, or the header alone for a new file. *)
Definition with_header (file : csv) : list (list string) :=
  match file with
  | Some rows => rows
  | None => [SimbiDataManager.fieldnames]
  end.

(** The set of sent links after [data] was recorded. *)
Definition with_link (data : dict) (sent : gset (option string)) : gset (option string) :=
  match data !! "link" with
  | Some link => {[Some link]} ∪ sent
  | None => sent
  end.

(** [record_sent_message] went through without an exception: nothing was
    printed. *)
Definition append_succeeds (F : FileSystem) (data : dict) (s : state) : Prop :=
  output (SimbiDataManager.record_sent_message F data s).2 = output s.

(** [record_sent_message] caught an exception: the error was printed. *)
Definition append_fails (F : FileSystem) (data : dict) (s : state) : Prop :=
  output (SimbiDataManager.record_sent_message F data s).2
  = output s ++ [ErrorRecordingSentMessage].

(** The ledger file is in the format the code writes: absent, or starting
    with the header row. *)
Definition ledger_format (file : csv) : Prop :=
  file = None ∨ ∃ rows, file = Some (SimbiDataManager.fieldnames :: rows).

(** What a run of the body of [send_message] on [request_data] can do to
    the ledger and to the dictionary: nothing, unless it answers [True], and
    then it recorded [request_data] with its [message_sent] set and wrote the
    success line. *)
Definition sends_or_not (F : FileSystem) (request_data : dict)
    (c : M (bool * dict)) : Prop :=
  ∀ s,
    match c s with
    | (Raise _, s') => ledger_of s' = ledger_of s
    | (Ok (false, request_data'), s') =>
        request_data' = request_data ∧ ledger_of s' = ledger_of s
    | (Ok (true, request_data'), s') =>
        ∃ message_text s1 s2,
          ledger_of s1 = ledger_of s
          ∧ SimbiDataManager.record_sent_message F
              (<["message_sent" := message_text]> request_data) s1
            = (Ok request_data', s2)
          ∧ s' = add_line (MessageSentSuccessfully (get "user_name" "user" request_data')) s2
    end.


(** The invariant of the outer loop before position [i] is visited. *)
Definition group_inv (n i : nat) (groups : list (list nat)) (processed : gset nat) : Prop :=
  (∀ k, k ∈ processed ↔ k ∈ concat groups)
  ∧ NoDup (concat groups)
  ∧ (∀ k, k ∈ processed → k < n)
  ∧ (∀ k, k < i → k ∈ processed)
  ∧ Forall (λ g, g ≠ []) groups
  ∧ Forall (StronglySorted lt) groups
  ∧ StronglySorted lt (map (hd 0) groups)
  ∧ Forall (λ g, hd 0 g < i) groups.

(** The dictionary after the four loops, from what they found. *)
Definition built (title user desc : option string) (link : option (option string))
    : gmap string (option string) :=
  SimbiAutomation.assign "link" link
    (SimbiAutomation.assign "user_request_text" (Some <$> desc)
       (SimbiAutomation.assign "user_name" (Some <$> user)
          (SimbiAutomation.assign "request_title" (Some <$> title) ∅))).

(** ** Sample data for the examples *)

Module Sample.

(** A page on which every element is found and every action works. *)
Definition browser : Browser :=
  {| on_get := λ _ _, Ok tt;
     on_driver_find_element := λ _ _ _, Ok 7;
     on_wait_all_present := λ _ _, Ok [1];
     on_find_element := λ _ _ _, Ok 2;
     on_text := λ _ _, Ok " Logo design ";
     on_get_attribute := λ _ _ _, Ok (Some "https://site/x/1");
     on_is_enabled := λ _ _, Ok true;
     on_click := λ _ _, Ok tt;
     on_send_keys := λ _ _ _, Ok tt |}.


(** A last page: listings as before, and no look-up from the driver finds
    anything, so no next-page locator resolves. *)
Definition last_page : Browser :=
  {| on_get := λ _ _, Ok tt;
     on_driver_find_element := λ _ _ _, Raise NoSuchElementException;
     on_wait_all_present := λ _ _, Ok [1];
     on_find_element := λ _ _ _, Ok 2;
     on_text := λ _ _, Ok " Logo design ";
     on_get_attribute := λ _ _ _, Ok (Some "https://site/x/1");
     on_is_enabled := λ _ _, Ok true;
     on_click := λ _ _, Ok tt;
     on_send_keys := λ _ _ _, Ok tt |}.

(** A file system on which every append meets the fault [fl]. *)
Definition files (fl : fault) : FileSystem :=
  {| fault_at := λ _, fl; now_isoformat := λ _, "2024-05-01T10:00:00" |}.

(** A file system on which [writeheader] raises in the first append and
    nothing is in the way of the later ones. *)
Definition failing_header : FileSystem :=
  {| fault_at := λ n, match n with 0 => HeaderFault | _ => NoFault end;
     now_isoformat := λ _, "2024-05-01T10:00:00" |}.

Definition config : Config.t :=
  {| Config.service_url := "https://simbi.com/requests";
     Config.max_pages := 150;
     Config.message_template := λ user_name request_title,
       Ok ("Hi " +:+ user_name +:+ ", I saw your request for " +:+ request_title) |}.

Definition request : dict :=
  <["link" := "https://site/x/1"]>
    (<["request_title" := "Logo design"]> (<["user_name" := "Ann"]> ∅)).

(** The state at the start of a run with the given ledger. *)
Definition start (sent : gset (option string)) (file : csv) : state :=
  {| calls := []; output := []; sent_messages := sent; csv_file := file; appends := 0 |}.

Definition titled (title desc : string) : dict :=
  <["request_title" := title]> (<["user_request_text" := desc]> ∅).

Definition unloaded : SimbiSimilarityMatcher.t :=
  SimbiSimilarityMatcher.init false (Q2Qc (7 # 10)) None.

End Sample.

(** The state at the start of a later run, whose [SimbiDataManager] was
    constructed on [file] and read it without an error. *)
Definition reloaded (file : csv) : state :=
  {| calls := [];
     output := (SimbiDataManager.init None file).2;
     sent_messages := (SimbiDataManager.init None file).1;
     csv_file := file;
     appends := 0 |}.

(** ** Vocabulary of the statements about extraction and crawling *)

(** The request built from the resolved fields: the two required ones and
    the optional ones that were found. *)
Definition request_of (title : string) (user desc : option string) (link : string) : dict :=
  let with_optional (key : string) (value : option string) (d : dict) : dict :=
    match value with
    | Some v => <[key := v]> d
    | None => d
    end in
  <["link" := link]>
    (with_optional "user_request_text" desc
       (with_optional "user_name" user (<["request_title" := title]> ∅))).


(** After the calls [base], no next-page locator resolves: each of the
    four look-ups of [go_to_next_page], made one after the other, raises
    [NoSuchElementException]. *)
Definition no_next_locator (B : Browser) (base : list call) : Prop :=
  ∀ k selector,
    SimbiAutomation.next_selectors !! k = Some selector →
    on_driver_find_element B
      (base ++ (DriverFindElement XPATH <$> take k SimbiAutomation.next_selectors))
      XPATH selector
    = Raise NoSuchElementException.

(** The state in which [go_to_next_page] is called in the turn of the crawl
    loop that starts in [s] for [page]. *)
Definition before_next_page (T : Text.methods) (B : Browser) (page : nat) (s : state)
    : state :=
  (SimbiAutomation.extract_requests_from_page T B (add_line (ScrapingPage page) s)).2.

(** [cycles T B page s n more s']: from state [s], [n] turns of the crawl
    loop run one after the other, for the pages [page], [page + 1], ...; in
    every turn but the last a next-page locator resolved and
    [go_to_next_page] answered [True]; in the last one it answered [more],
    which is [False] when no next-page locator resolved; [s'] is the state
    after the last turn. *)
Inductive cycles (T : Text.methods) (B : Browser)
    : nat → state → nat → bool → state → Prop :=
| cycles_last page s page_requests more s' :
    SimbiAutomation.scrape_page T B page s = ((page_requests, more), s') →
    (no_next_locator B (calls (before_next_page T B page s)) → more = false) →
    cycles T B page s 1 more s'
| cycles_next page s page_requests s1 n more s' :
    SimbiAutomation.scrape_page T B page s = ((page_requests, true), s1) →
    ¬ no_next_locator B (calls (before_next_page T B page s)) →
    cycles T B (S page) s1 n more s' →
    cycles T B page s (S n) more s'.

(** The page numbers of the "Scraping page" lines of a log. *)
Definition scraping_lines (out : list line) : list nat :=
  omap (λ l, match l with ScrapingPage page => Some page | _ => None end) out.

(** ** Vocabulary of the further statements about groups *)

(** The text compared for the request at position [i]. *)
Definition text_at (requests : list dict) (i : nat) : string :=
  text_of (default ∅ (requests !! i)).

(** The requests at positions [h] and [k] meet the threshold. *)
Definition similar_at (calculate_similarity : string → string → Qc) (threshold : Qc)
    (requests : list dict) (h k : nat) : Prop :=
  (threshold ≤ calculate_similarity (text_at requests h) (text_at requests k))%Qc.

(** Every request of a group after the first one meets the threshold
    against the first one, and no request of a later group meets it against
    the first one of an earlier group. *)
Definition first_fit (calculate_similarity : string → string → Qc) (threshold : Qc)
    (requests : list dict) (positions : list (list nat)) : Prop :=
  Forall (λ g, ∀ k, k ∈ g → k ≠ hd 0 g →
               similar_at calculate_similarity threshold requests (hd 0 g) k) positions
  ∧ ∀ a b ga gb, a < b → positions !! a = Some ga → positions !! b = Some gb →
      ∀ k, k ∈ gb → ¬ similar_at calculate_similarity threshold requests (hd 0 ga) k.

(** The invariant of the outer loop that gives [first_fit]: also the
    positions not yet in a group do not meet the threshold against the
    first request of any group so far. *)
Definition fit_inv (calculate_similarity : string → string → Qc) (threshold : Qc)
    (requests : list dict) (groups : list (list nat)) (processed : gset nat) : Prop :=
  first_fit calculate_similarity threshold requests groups
  ∧ Forall (λ g, ∀ k, hd 0 g < k < length requests → k ∉ processed →
                 ¬ similar_at calculate_similarity threshold requests (hd 0 g) k) groups.

(** ** More sample data *)

Module Fixture.

(** A matcher whose loaded model scores like the token-set matcher. *)
Definition loaded : SimbiSimilarityMatcher.t :=
  SimbiSimilarityMatcher.init true (Q2Qc (1 # 2))
    (Some (λ text1 text2,
             Some (SimpleSimilarityMatcher.calculate_similarity AsciiText.methods
                     text1 text2))).

Definition token_set (threshold : Qc) : SimpleSimilarityMatcher.t :=
  {| SimpleSimilarityMatcher.threshold := threshold |}.

Definition four_requests : list dict :=
  [Sample.titled "logo design" "need"; Sample.titled "plumber" "wanted";
   Sample.titled "Logo design" "NEED"; Sample.titled "plumber" "wanted now"].

End Fixture.

(** ** Vocabulary of the further statements about the ledger *)

(** The links a later run loads from [file] when it reads it without an
    error. *)
Definition file_links (file : csv) : gset (option string) :=
  (SimbiDataManager.init None file).1.

(** The set of sent links in memory is the set a reload of the file would
    give, and the file is in the format the code writes. *)
Definition mirrors_file (s : state) : Prop :=
  ledger_format (csv_file s) ∧ sent_messages s = file_links (csv_file s).

(** The links added by [load_sent_messages] over the rows the reader hands
    out. *)
Definition add_links (sent : gset (option string))
    (rows : list (gmap string (option string))) : gset (option string) :=
  foldl (λ (sent : gset (option string)) row,
           match row !! "link" with
           | Some link => {[link]} ∪ sent
           | None => sent
           end) sent rows.

(** Nothing is in the way of any append of the run: no exception of the
    file system, and no last line without its terminator. *)
Definition no_fault (F : FileSystem) : Prop := ∀ n, fault_at F n = NoFault.

(** ** Vocabulary of the further statements about the browser *)

(** A call that reads the page without acting on it. *)
Definition read_only (c : call) : Prop :=
  match c with
  | DriverGet _ | Click _ | SendKeys _ _ => False
  | _ => True
  end.

(** A call that neither navigates nor types. *)
Definition stays_and_types_nothing (c : call) : Prop :=
  match c with
  | DriverGet _ | SendKeys _ _ => False
  | _ => True
  end.

(** The calls a computation makes all satisfy [P]. *)
Definition calls_only {A} (P : call → Prop) (c : state → A * state) : Prop :=
  ∀ s, ∃ more, calls (c s).2 = calls s ++ more ∧ Forall P more.

(** A request as the extraction hands it out: a non-empty title, a non-empty
    link, and no key besides the four the extraction sets. *)
Definition extracted (request : dict) : Prop :=
  (∃ title, request !! "request_title" = Some title ∧ title ≠ "")
  ∧ (∃ link, request !! "link" = Some link ∧ link ≠ "")
  ∧ dom request ⊆ {["request_title"; "user_name"; "user_request_text"; "link"]}.

(** After the calls [base], every click among the further calls [more] comes
    right after the browser answered that the clicked element is enabled. *)
Definition clicks_enabled_only (B : Browser) (base more : list call) : Prop :=
  ∀ pre element post,
    more = pre ++ Click element :: post →
    ∃ pre', pre = pre' ++ [IsEnabled element]
            ∧ on_is_enabled B (base ++ pre') element = Ok true.

(** The links of the requests of a run that carry a [message_sent]: the
    requests [send_message] answered [True] for, when the requests came from
    the extraction. *)
Definition sent_links (requests_data : list dict) : list string :=
  map (get "link" "")
    (filter (λ request_data : dict, is_Some (request_data !! "message_sent"))
       requests_data).

(** ** [find_matching_services] (both sources)

    The method is the same text in [SimpleSimilarityMatcher] and in
    [SimbiSimilarityMatcher], but for its guard; the loop is written once,
    over the matcher's scoring function and threshold. *)

(** A value of a service dictionary: the strings of a listing, and the
    float the matcher stores under [similarity_score]. *)
Inductive value := Str (s : string) | Float (q : Qc).

Abbreviation service_dict := (gmap string value).

(** [service.get('description', '') + ' ' + service.get('title', '')];
    [+] raises [TypeError] between a string and a float. *)
Definition service_text (service : service_dict) : result string :=
  match default (Str "") (service !! "description") with
  | Str description =>
      match default (Str "") (service !! "title") with
      | Str title => Ok (description +:+ " " +:+ title)
      | Float _ => Raise OtherException
      end
  | Float _ => Raise OtherException
  end.

(** [x.get('similarity_score', 0)], the sort key. The loop stores a float
    under the key of every match, so the key of a match is that float. *)
Definition similarity_score (x : service_dict) : Qc :=
  match x !! "similarity_score" with
  | Some (Float q) => q
  | _ => 0%Qc
  end.

(** [matches.sort(key=..., reverse=True)]: greatest key first; the sort is
    stable, and [reverse] keeps the input order of equal keys. *)
Fixpoint insert_match (x : service_dict) (sorted : list service_dict) : list service_dict :=
  match sorted with
  | [] => [x]
  | y :: rest =>
      if bool_decide (similarity_score y ≤ similarity_score x)%Qc
      then x :: y :: rest
      else y :: insert_match x rest
  end.

Definition sort_matches (matches : list service_dict) : list service_dict :=
  foldr insert_match [] matches.

Section MatchLoop.

Context (calculate_similarity : string → string → Qc) (threshold : Qc).

(** [for service in services] *)
Fixpoint match_loop (request_text : string) (services : list service_dict)
    (matches : list service_dict) : result (list service_dict) :=
  match services with
  | [] => Ok matches
  | service :: rest =>
      match service_text service with
      | Raise e => Raise e
      | Ok service_text =>
          let similarity := calculate_similarity request_text service_text in
          if bool_decide (threshold ≤ similarity)%Qc
          then match_loop request_text rest
                 (matches ++ [<["similarity_score" := Float similarity]> service])
          else match_loop request_text rest matches
      end
  end.

Definition match_and_sort (request_text : string) (services : list service_dict)
    : result (list service_dict) :=
  match match_loop request_text services [] with
  | Ok matches => Ok (sort_matches matches)
  | Raise e => Raise e
  end.

End MatchLoop.

Module WindowsMatcher.

(** [SimpleSimilarityMatcher.find_matching_services] *)
Definition find_matching_services (T : Text.methods) (self : SimpleSimilarityMatcher.t)
    (request_text : string) (services : list service_dict) : result (list service_dict) :=
  match services with
  | [] => Ok []
  | _ =>
      match_and_sort (SimpleSimilarityMatcher.calculate_similarity T)
        (SimpleSimilarityMatcher.threshold self) request_text services
  end.

End WindowsMatcher.

Module ConsolidatedMatcher.

(** [SimbiSimilarityMatcher.find_matching_services] *)
Definition find_matching_services (ML_AVAILABLE : bool) (self : SimbiSimilarityMatcher.t)
    (request_text : string) (services : list service_dict) : result (list service_dict) :=
  match SimbiSimilarityMatcher.model self, services with
  | None, _ | _, [] => Ok []
  | Some _, _ =>
      match_and_sort (SimbiSimilarityMatcher.calculate_similarity ML_AVAILABLE self)
        (SimbiSimilarityMatcher.threshold self) request_text services
  end.

End ConsolidatedMatcher.

(** ** Vocabulary of the statements about matching *)

(** The value is a float. *)
Definition is_float (v : option value) : bool :=
  match v with
  | Some (Float _) => true
  | _ => false
  end.

(** The description and the title of the service are strings, where it has
    them. *)
Definition has_text (service : service_dict) : Prop :=
  is_float (service !! "description") = false ∧ is_float (service !! "title") = false.

Global Instance has_text_dec service : Decision (has_text service).
Proof. unfold has_text. apply _. Defined.

(** The service with its score stored, when [calculate_similarity] gives
    the request and the text of the service a score that reaches
    [threshold]. *)
Definition scored (calculate_similarity : string → string → Qc) (threshold : Qc)
    (request_text : string) (service : service_dict) : option service_dict :=
  match service_text service with
  | Ok text =>
      if bool_decide (threshold ≤ calculate_similarity request_text text)%Qc
      then Some (<["similarity_score" := Float (calculate_similarity request_text text)]>
                   service)
      else None
  | Raise _ => None
  end.

(** Greatest score first. *)
Definition by_score (matches : list service_dict) : Prop :=
  StronglySorted (λ x y, (similarity_score y ≤ similarity_score x)%Qc) matches.

(** [matches] holds what [candidates] holds, and matches of the same score
    stand in the order they have in [candidates]. *)
Definition stable_on (candidates matches : list service_dict) : Prop :=
  matches ≡ₚ candidates
  ∧ ∀ q, filter (λ x, similarity_score x = q) matches
         = filter (λ x, similarity_score x = q) candidates.

(** Services for the examples. *)
Module Services.

Definition logo : service_dict :=
  {["title" := Str "Logo design"; "description" := Str "I draw a logo"]}.
Definition garden : service_dict :=
  {["title" := Str "Garden help"; "description" := Str "weeding and planting"]}.
Definition rated : service_dict :=
  {["title" := Str "Logo design"; "description" := Float (Q2Qc 5)]}.

End Services.

(** ** [save_analysis_results] (both sources) *)

Module Analysis.

(** An entry of [results['groups']]. *)
Record group_data := {
  group_id : nat;
  size : nat;
  requests : list dict }.

(** The dictionary handed to [json.dump]. *)
Record results := {
  timestamp : string;
  total_requests : nat;
  groups_count : nat;
  groups : list group_data }.

(** Where the write of [analysis_results.json] can raise. *)
Inductive write_fault := NoWriteFault | OpenRaises | DumpRaises.

(** [analysis_results.json] after the call: as it was before, opened for
    writing and cut short, or holding the dump of the results. *)
Inductive json_file := AsBefore | CutShort | Dumped (r : results).

(** The line the call logs. *)
Inductive report_line :=
| AnalysisResultsSaved (groups : nat)
| ErrorSavingAnalysisResults.

(** [for i, group in enumerate(groups)] *)
Fixpoint group_entries (groups : list (nat * list dict)) : list group_data :=
  match groups with
  | [] => []
  | (i, group) :: rest =>
      {| group_id := i + 1; size := length group; requests := group |}
      :: group_entries rest
  end.

(** [now] is [datetime.now().isoformat()]. *)
Definition save_analysis_results (now : string) (fault : write_fault)
    (groups : list (list dict)) : json_file * report_line :=
  let results :=
    {| timestamp := now;
       total_requests := sum_list (length <$> groups);
       groups_count := length groups;
       groups := group_entries (enumerate 0 groups) |} in
  match fault with
  | NoWriteFault => (Dumped results, AnalysisResultsSaved (length groups))
  | OpenRaises => (AsBefore, ErrorSavingAnalysisResults)
  | DumpRaises => (CutShort, ErrorSavingAnalysisResults)
  end.

End Analysis.

(** The report counts the requests: its total is their number, its groups
    are numbered from one in their order, every group has as many requests
    as its size says and at least one, there are at most as many groups as
    requests, and the requests of all groups together are the requests,
    each as often as it was given. *)
Definition reports (requests : list dict) (r : Analysis.results) : Prop :=
  Analysis.total_requests r = length requests
  ∧ Analysis.groups_count r = length (Analysis.groups r)
  ∧ Analysis.groups_count r ≤ length requests
  ∧ Analysis.group_id <$> Analysis.groups r = seq 1 (Analysis.groups_count r)
  ∧ Forall (λ g, Analysis.size g = length (Analysis.requests g) ∧ 0 < Analysis.size g)
      (Analysis.groups r)
  ∧ sum_list (Analysis.size <$> Analysis.groups r) = length requests
  ∧ concat (Analysis.requests <$> Analysis.groups r) ≡ₚ requests.

(** What [save_analysis_results] leaves behind for the groups of
    [requests]: the dump of a report that counts them and the line with the
    number of groups, or the error line and no dump. *)
Definition saved_or_reported (requests : list dict) (fault : Analysis.write_fault)
    (saved : Analysis.json_file * Analysis.report_line) : Prop :=
  match saved with
  | (Analysis.Dumped r, l) =>
      fault = Analysis.NoWriteFault
      ∧ l = Analysis.AnalysisResultsSaved (Analysis.groups_count r)
      ∧ reports requests r
  | (_, l) => fault ≠ Analysis.NoWriteFault ∧ l = Analysis.ErrorSavingAnalysisResults
  end.

(** [requests_data = self.scrape_requests()] and the loop over the scraped
    requests in [run_messaging_mode], as they run after the login. (The
    lines the method logs itself, before and after them, are not modelled.) *)
Definition scrape_and_send (T : Text.methods) (B : Browser) (F : FileSystem)
    (config : Config.t) : state → (nat * list dict) * state := λ s,
  let '(requests_data, s') := SimbiAutomation.scrape_requests T B config None s in
  SimbiAutomation.send_each B F config requests_data 0 s'.

(** * Properties *)

(** ** The token-set matcher *)

Lemma Zpos_of_nat n : n ≠ 0 → Z.pos (Pos.of_nat n) = Z.of_nat n.
Proof.
  destruct n as [|n]; [done|]. intros _.
  rewrite <- Pos.of_nat_succ, Zpos_P_of_succ_nat. lia.
Qed.

Lemma ratio_same n : n ≠ 0 → SimpleSimilarityMatcher.ratio n n = 1%Qc.
Proof.
  intros Hn. unfold SimpleSimilarityMatcher.ratio.
  apply Qc_is_canon. simpl. rewrite Qred_correct.
  unfold Qeq. simpl. rewrite Zpos_of_nat by done. lia.
Qed.

Lemma ratio_bounds i u :
  i ≤ u → u ≠ 0 →
  (0 ≤ SimpleSimilarityMatcher.ratio i u)%Qc ∧ (SimpleSimilarityMatcher.ratio i u ≤ 1)%Qc.
Proof.
  intros Hle Hu. unfold SimpleSimilarityMatcher.ratio, Qcle. simpl.
  rewrite !Qred_correct. unfold Qle. simpl.
  rewrite Zpos_of_nat by done. lia.
Qed.

Section TokenSet.

Context (T : Text.methods).

Lemma words_empty_iff text :
  Text.words T text = ∅ ↔ Text.split T (Text.lower T text) = [].
Proof.
  unfold Text.words. split; [|by intros ->].
  destruct (Text.split T (Text.lower T text)) as [|w ws]; [done|].
  simpl. intros Hempty. exfalso. apply (not_elem_of_empty (C:=gset string) w).
  rewrite <- Hempty. apply elem_of_union_l, elem_of_singleton. done.
Qed.

Lemma words_nonempty text :
  Text.split T (Text.lower T text) ≠ [] → Text.words T text ≠ ∅.
Proof. intros Hne Hw. by apply Hne, words_empty_iff. Qed.

Lemma similarity_comm text1 text2 :
  SimpleSimilarityMatcher.calculate_similarity T text1 text2
  = SimpleSimilarityMatcher.calculate_similarity T text2 text1.
Proof.
  unfold SimpleSimilarityMatcher.calculate_similarity.
  rewrite (orb_comm (bool_decide (text1 = ""))).
  cbv zeta.
  pose proof (intersection_comm_L (Text.words T text1) (Text.words T text2)) as Hi.
  pose proof (union_comm_L (Text.words T text1) (Text.words T text2)) as Hu.
  by rewrite Hi, Hu.
Qed.

Lemma similarity_self text :
  text ≠ "" → Text.words T text ≠ ∅ →
  SimpleSimilarityMatcher.calculate_similarity T text text = 1%Qc.
Proof.
  intros Hne Hw. unfold SimpleSimilarityMatcher.calculate_similarity.
  rewrite (bool_decide_eq_false_2 _ Hne). simpl.
  cbv zeta.
  pose proof (intersection_idemp_L (Text.words T text)) as Hi.
  pose proof (union_idemp_L (Text.words T text)) as Hu.
  rewrite Hi, Hu.
  assert (size (Text.words T text) ≠ 0) as Hsz
    by (by intros ?%size_empty_inv%leibniz_equiv).
  rewrite (bool_decide_eq_false_2 _ Hsz). by apply ratio_same.
Qed.

Lemma similarity_self_wordless text :
  Text.words T text = ∅ →
  SimpleSimilarityMatcher.calculate_similarity T text text = 0%Qc.
Proof.
  intros Hw. unfold SimpleSimilarityMatcher.calculate_similarity.
  destruct (bool_decide (text = "")); simpl; [done|].
  cbv zeta. pose proof (union_idemp_L (∅ : gset string)) as Hu.
  by rewrite Hw, Hu, size_empty.
Qed.

Lemma similarity_empty_l text :
  SimpleSimilarityMatcher.calculate_similarity T "" text = 0%Qc.
Proof. reflexivity. Qed.

Lemma similarity_empty_r text :
  SimpleSimilarityMatcher.calculate_similarity T text "" = 0%Qc.
Proof. by rewrite similarity_comm. Qed.

Lemma similarity_bounds text1 text2 :
  (0 ≤ SimpleSimilarityMatcher.calculate_similarity T text1 text2)%Qc ∧
  (SimpleSimilarityMatcher.calculate_similarity T text1 text2 ≤ 1)%Qc.
Proof.
  unfold SimpleSimilarityMatcher.calculate_similarity.
  destruct (bool_decide (text1 = "") || bool_decide (text2 = "")); [done|].
  case_bool_decide as Hu; [done|].
  apply ratio_bounds; [|done].
  apply subseteq_size. intros w [Hw _]%elem_of_intersection.
  by apply elem_of_union_l.
Qed.

End TokenSet.

(** ** The grouping loops *)

Lemma enumerate_at {A} (requests xs : list A) j :
  (∀ k x, xs !! k = Some x → requests !! (j + k) = Some x) →
  Forall (λ p, requests !! p.1 = Some p.2) (enumerate j xs).
Proof.
  revert j. induction xs as [|x xs IH]; intros j Hxs; simpl; constructor.
  - simpl. rewrite <- (Nat.add_0_r j). by apply Hxs.
  - apply IH. intros k y Hk. replace (S j + k) with (j + S k) by lia. by apply Hxs.
Qed.

Lemma enumerate_drop_at {A} (requests : list A) j :
  Forall (λ p, requests !! p.1 = Some p.2) (enumerate j (drop j requests)).
Proof. apply enumerate_at. intros k x. by rewrite lookup_drop. Qed.

Lemma drop_cons_inv {A} (l : list A) i x xs :
  drop i l = x :: xs → drop (S i) l = xs ∧ l !! i = Some x.
Proof.
  revert i. induction l as [|y l IH]; intros [|i] Hd; simpl in *; try done.
  - inversion Hd; subst. by rewrite drop_0.
  - by apply IH.
Qed.

Lemma length_le_concat {A} (groups : list (list A)) :
  Forall (λ g, g ≠ []) groups → length groups ≤ length (concat groups).
Proof.
  induction 1 as [|g groups Hg _ IH]; simpl; [done|].
  rewrite length_app. destruct g; [done|]. simpl. lia.
Qed.

Section GroupLoopFacts.

Context (calculate_similarity : string → string → Qc) (threshold : Qc).

(** What one run of the inner loop adds to the group. *)
Lemma inner_positions_spec request_text (xs : list dict) j group processed :
  ∃ added,
    inner_positions calculate_similarity threshold request_text
      (enumerate j xs) group processed
    = (group ++ added, list_to_set added ∪ processed)
    ∧ StronglySorted lt added
    ∧ Forall (λ a, j ≤ a < j + length xs ∧ a ∉ processed) added.
Proof.
  revert j group processed.
  induction xs as [|x xs IH]; intros j group processed; simpl.
  - exists []. rewrite app_nil_r. split_and!; [f_equal; set_solver|constructor|constructor].
  - destruct (decide (j ∈ processed)) as [Hin|Hnotin].
    + destruct (IH (S j) group processed) as (added & -> & Hs & Hb).
      exists added. split_and!; [done|done|].
      eapply Forall_impl; [exact Hb|]. simpl. intros a ?. split; [lia|tauto].
    + case_bool_decide.
      * destruct (IH (S j) (group ++ [j]) ({[j]} ∪ processed))
          as (added & -> & Hs & Hb).
        exists (j :: added). split_and!.
        -- rewrite <- app_assoc. simpl. f_equal. set_solver.
        -- constructor; [done|].
           eapply Forall_impl; [exact Hb|]. simpl. intros a ?. lia.
        -- constructor; [split; [lia|done]|].
           eapply Forall_impl; [exact Hb|]. simpl. intros a [? Ha].
           split; [lia|]. set_solver.
      * destruct (IH (S j) group processed) as (added & -> & Hs & Hb).
        exists added. split_and!; [done|done|].
        eapply Forall_impl; [exact Hb|]. simpl. intros a ?. split; [lia|tauto].
Qed.

(** The loops on requests and the loops on positions pick the same
    entries. *)
Lemma inner_loop_positions (requests : list dict) request_text others
    group group_p processed :
  Forall (λ p, requests !! p.1 = Some p.2) others →
  Forall2 (λ r i, requests !! i = Some r) group group_p →
  ∃ group' group_p' processed',
    inner_loop calculate_similarity threshold request_text others group processed
    = (group', processed')
    ∧ inner_positions calculate_similarity threshold request_text others group_p processed
      = (group_p', processed')
    ∧ Forall2 (λ r i, requests !! i = Some r) group' group_p'.
Proof.
  intros Hothers. revert group group_p processed.
  induction Hothers as [|[j other] others Hj _ IH]; intros group group_p processed Hg; simpl.
  - by exists group, group_p, processed.
  - destruct (decide (j ∈ processed)); [by apply IH|].
    case_bool_decide; [|by apply IH].
    apply IH. apply Forall2_app; [done|]. by constructor.
Qed.

Lemma outer_loop_positions (requests : list dict) items groups groups_p processed :
  Forall (λ p, requests !! p.1 = Some p.2) items →
  Forall2 (Forall2 (λ r i, requests !! i = Some r)) groups groups_p →
  Forall2 (Forall2 (λ r i, requests !! i = Some r))
    (outer_loop calculate_similarity threshold requests items groups processed)
    (outer_positions calculate_similarity threshold requests items groups_p processed).
Proof.
  intros Hitems. revert groups groups_p processed.
  induction Hitems as [|[i request] items Hi _ IH]; intros groups groups_p processed Hg; simpl.
  - done.
  - destruct (decide (i ∈ processed)); [by apply IH|].
    destruct (inner_loop_positions requests (text_of request)
                (enumerate (i + 1) (drop (i + 1) requests))
                [request] [i] ({[i]} ∪ processed))
      as (group' & group_p' & processed' & -> & -> & Hrel).
    + apply enumerate_drop_at.
    + by constructor.
    + apply IH, Forall2_app; [done|]. by constructor.
Qed.

Lemma group_loop_positions (requests : list dict) :
  Forall2 (Forall2 (λ r i, requests !! i = Some r))
    (group_loop calculate_similarity threshold requests)
    (group_positions calculate_similarity threshold requests).
Proof.
  apply outer_loop_positions; [|constructor].
  pose proof (enumerate_drop_at requests 0) as Hat. by rewrite drop_0 in Hat.
Qed.

End GroupLoopFacts.

Section GroupInvariant.

Context (calculate_similarity : string → string → Qc) (threshold : Qc).

Lemma group_inv_skip n i groups processed :
  i ∈ processed → group_inv n i groups processed → group_inv n (S i) groups processed.
Proof.
  intros Hi (Hmem & Hnd & Hlt & Hbelow & Hne & Hs & Hh & Hhi).
  split_and!; try done.
  - intros k Hk. destruct (decide (k = i)) as [->|]; [done|]. apply Hbelow. lia.
  - eapply Forall_impl; [exact Hhi|]. simpl. lia.
Qed.

Lemma group_inv_open n i groups processed added :
  i < n → i ∉ processed →
  StronglySorted lt added →
  Forall (λ a, S i ≤ a < n ∧ a ∉ {[i]} ∪ processed) added →
  group_inv n i groups processed →
  group_inv n (S i) (groups ++ [[i] ++ added])
    (list_to_set added ∪ ({[i]} ∪ processed)).
Proof.
  intros Hin Hi Hsorted Hadded (Hmem & Hnd & Hlt & Hbelow & Hne & Hs & Hh & Hhi).
  rewrite Forall_forall in Hadded.
  split_and!.
  - intros k. rewrite concat_app, elem_of_app. simpl. rewrite app_nil_r.
    rewrite <- Hmem. set_solver.
  - rewrite concat_app. simpl. rewrite app_nil_r.
    apply NoDup_app. split_and!; [done| |].
    + intros k Hk%Hmem Hk'. apply elem_of_cons in Hk' as [->|Hk']; [done|].
      apply Hadded in Hk'. set_solver.
    + apply NoDup_cons. split.
      * intros Hk%Hadded. lia.
      * clear -Hsorted. induction Hsorted as [|a l _ IH Ha]; constructor; [|done].
        intros Hal. rewrite Forall_forall in Ha. apply Ha in Hal. lia.
  - intros k. rewrite !elem_of_union, elem_of_list_to_set, elem_of_singleton.
    intros [Hk%Hadded|[->|Hk]]; [lia|done|by apply Hlt].
  - intros k Hk. destruct (decide (k = i)) as [->|]; [set_solver|].
    apply elem_of_union_r, elem_of_union_r, Hbelow. lia.
  - apply Forall_app. split; [done|]. by constructor.
  - apply Forall_app. split; [done|]. constructor; [|done].
    simpl. constructor; [done|]. apply Forall_forall. intros a Ha%Hadded. lia.
  - rewrite map_app. simpl. apply StronglySorted_app_2; [|done|repeat constructor].
    intros h1 h2 Hh1 ->%list_elem_of_singleton.
    apply list_elem_of_fmap in Hh1 as (g & -> & Hg).
    rewrite Forall_forall in Hhi. by apply Hhi.
  - apply Forall_app. split.
    + eapply Forall_impl; [exact Hhi|]. simpl. lia.
    + constructor; [|done]. simpl. lia.
Qed.

Lemma outer_positions_inv (requests : list dict) xs i groups processed :
  drop i requests = xs →
  group_inv (length requests) i groups processed →
  ∃ processed',
    group_inv (length requests) (length requests `max` i)
      (outer_positions calculate_similarity threshold requests (enumerate i xs)
         groups processed)
      processed'.
Proof.
  revert i groups processed.
  induction xs as [|x xs IH]; intros i groups processed Hdrop Hinv; simpl.
  - apply drop_nil_inv in Hdrop. exists processed.
    by replace (length requests `max` i) with i by lia.
  - apply drop_cons_inv in Hdrop as [Hdrop Hi%lookup_lt_Some].
    destruct (decide (i ∈ processed)) as [Hin|Hnotin].
    + destruct (IH (S i) groups processed Hdrop (group_inv_skip _ _ _ _ Hin Hinv))
        as [processed' Hfinal].
      exists processed'. by replace (length requests `max` i)
        with (length requests `max` S i) by lia.
    + rewrite Nat.add_1_r, Hdrop.
      destruct (inner_positions_spec calculate_similarity threshold (text_of x)
                  xs (S i) [i] ({[i]} ∪ processed))
        as (added & -> & Hsorted & Hadded).
      assert (S i + length xs = length requests) as Hlen.
      { rewrite <- Hdrop, length_drop. lia. }
      destruct (IH (S i) (groups ++ [[i] ++ added])
                  (list_to_set added ∪ ({[i]} ∪ processed)) Hdrop)
        as [processed' Hfinal].
      { apply group_inv_open; try done.
        eapply Forall_impl; [exact Hadded|]. simpl. intros a ?. split; [lia|tauto]. }
      exists processed'. by replace (length requests `max` i)
        with (length requests `max` S i) by lia.
Qed.

Lemma group_positions_inv (requests : list dict) :
  ∃ processed,
    group_inv (length requests) (length requests)
      (group_positions calculate_similarity threshold requests) processed.
Proof.
  destruct (outer_positions_inv requests requests 0 [] ∅) as [processed Hinv].
  - apply drop_0.
  - split_and!; simpl; try done; try constructor.
    + by intros ?%not_elem_of_empty.
    + by intros ?%not_elem_of_nil.
    + intros k. lia.
  - exists processed. by rewrite Nat.max_0_r in Hinv.
Qed.

End GroupInvariant.

(** What the invariant gives once every position has been visited. *)
Lemma group_inv_partitions n groups processed :
  group_inv n n groups processed → partitions n groups.
Proof.
  intros (Hmem & Hnd & Hlt & Hbelow & _).
  apply NoDup_Permutation; [done|apply NoDup_seq|].
  intros k. rewrite elem_of_seq, <- Hmem. split.
  - intros Hk%Hlt. lia.
  - intros [_ Hk]. apply Hbelow. lia.
Qed.

Lemma elem_of_concat {A} (groups : list (list A)) (i : A) :
  i ∈ concat groups ↔ ∃ g, g ∈ groups ∧ i ∈ g.
Proof.
  induction groups as [|g0 groups IH]; simpl.
  - split; [by intros ?%not_elem_of_nil|by intros (g & ?%not_elem_of_nil & _)].
  - rewrite elem_of_app, IH. split.
    + intros [Hi|(g & Hg & Hi)]; [exists g0|exists g]; split; try done.
      * by left.
      * by right.
    + intros (g & [->|Hg]%elem_of_cons & Hi); [by left|right; by exists g].
Qed.

Lemma NoDup_concat_one_group (groups : list (list nat)) k k' i :
  NoDup (concat groups) → in_group groups k i → in_group groups k' i → k' = k.
Proof.
  revert k k'. induction groups as [|g0 groups IH]; intros k k' Hnd (g & Hg & Hi) (g' & Hg' & Hi').
  - done.
  - simpl in Hnd. apply NoDup_app in Hnd as (_ & Hdisj & Hnd).
    assert (∀ j h, groups !! j = Some h → i ∈ h → i ∈ concat groups) as Hcat.
    { intros j h Hj Hh. apply elem_of_concat. exists h. split; [|done].
      by eapply list_elem_of_lookup_2. }
    destruct k as [|k], k' as [|k']; simpl in *; simplify_eq.
    + done.
    + exfalso. eapply Hdisj; [exact Hi|]. by eapply Hcat.
    + exfalso. eapply Hdisj; [exact Hi'|]. by eapply Hcat.
    + f_equal. apply IH; [done|by exists g|by exists g'].
Qed.

Lemma partitions_exactly_one n groups : partitions n groups → exactly_one_group n groups.
Proof.
  intros Hperm i Hi.
  assert (i ∈ concat groups) as Hin.
  { unfold partitions in Hperm. rewrite Hperm, elem_of_seq. lia. }
  apply elem_of_concat in Hin as (g & Hg & Hig).
  apply list_elem_of_lookup in Hg as [k Hk].
  exists k. split; [by exists g|].
  intros k' Hk'. eapply NoDup_concat_one_group; [|by exists g|done].
  unfold partitions in Hperm. rewrite Hperm. apply NoDup_seq.
Qed.

Lemma sorted_opens_with_least groups :
  Forall (StronglySorted lt) groups → opens_with_least groups.
Proof.
  intros Hs. eapply Forall_impl; [exact Hs|]. simpl.
  intros g Hg. destruct Hg as [|a l _ Ha]; simpl; constructor; [done|].
  eapply Forall_impl; [exact Ha|]. simpl. lia.
Qed.

Lemma requests_at_nonempty requests groups positions :
  requests_at requests groups positions →
  Forall (λ g : list nat, g ≠ []) positions → Forall (λ g : list dict, g ≠ []) groups.
Proof.
  induction 1 as [|g p groups positions Hgp _ IH]; intros Hne; [constructor|].
  apply Forall_cons in Hne as [Hp Hne]. constructor; [|by apply IH].
  intros ->. by inversion Hgp.
Qed.

Lemma partitions_length n (positions : list (list nat)) :
  partitions n positions → Forall (λ g, g ≠ []) positions → length positions ≤ n.
Proof.
  intros Hperm Hne. apply length_le_concat in Hne.
  unfold partitions in Hperm. rewrite Hperm, length_seq in Hne. done.
Qed.

(** Both properties of the double loop, for any scoring function and
    threshold. *)
Lemma group_loop_partition calculate_similarity threshold requests :
  partition_of requests
    (group_loop calculate_similarity threshold requests)
    (group_positions calculate_similarity threshold requests).
Proof.
  pose proof (group_loop_positions calculate_similarity threshold requests) as Hat.
  destruct (group_positions_inv calculate_similarity threshold requests)
    as [processed Hinv].
  pose proof (group_inv_partitions _ _ _ Hinv) as Hpart.
  destruct Hinv as (_ & _ & _ & _ & Hne & _).
  split_and!; [done|done|by apply partitions_exactly_one| |].
  - by eapply requests_at_nonempty.
  - rewrite (Forall2_length _ _ _ Hat). by apply partitions_length.
Qed.

Lemma group_loop_order calculate_similarity threshold requests :
  in_input_order requests
    (group_loop calculate_similarity threshold requests)
    (group_positions calculate_similarity threshold requests).
Proof.
  pose proof (group_loop_positions calculate_similarity threshold requests) as Hat.
  destruct (group_positions_inv calculate_similarity threshold requests)
    as (processed & _ & _ & _ & _ & _ & Hs & Hh & _).
  split_and!; [done|by split|by apply sorted_opens_with_least].
Qed.

(** The groups of one request each, returned when no model is loaded. *)
Lemma singletons_at (requests xs : list dict) j :
  (∀ k x, xs !! k = Some x → requests !! (j + k) = Some x) →
  requests_at requests (map (λ req, [req]) xs) (map (λ i, [i]) (seq j (length xs))).
Proof.
  revert j. induction xs as [|x xs IH]; intros j Hxs; simpl; constructor.
  - constructor; [|constructor]. rewrite <- (Nat.add_0_r j). by apply Hxs.
  - apply IH. intros k y Hk. replace (S j + k) with (j + S k) by lia. by apply Hxs.
Qed.

Lemma concat_singletons {A} (l : list A) : concat (map (λ i, [i]) l) = l.
Proof. induction l as [|a l IH]; simpl; [done|]. by rewrite IH. Qed.

Lemma hd_singletons (l : list nat) : map (hd 0) (map (λ i, [i]) l) = l.
Proof. induction l as [|a l IH]; simpl; [done|]. by rewrite IH. Qed.

Lemma seq_strongly_sorted j n : StronglySorted lt (seq j n).
Proof.
  revert j. induction n as [|n IH]; intros j; simpl; constructor; [done|].
  apply Forall_forall. intros k Hk%elem_of_seq. lia.
Qed.

Lemma singletons_partition (requests : list dict) :
  partition_of requests (map (λ req, [req]) requests)
    (map (λ i, [i]) (seq 0 (length requests))).
Proof.
  assert (partitions (length requests) (map (λ i, [i]) (seq 0 (length requests)))) as Hpart.
  { unfold partitions. by rewrite concat_singletons. }
  split_and!; [by apply singletons_at|done|by apply partitions_exactly_one| |].
  - apply Forall_forall. intros g (r & -> & _)%list_elem_of_fmap. done.
  - by rewrite length_map.
Qed.

Lemma singletons_order (requests : list dict) :
  in_input_order requests (map (λ req, [req]) requests)
    (map (λ i, [i]) (seq 0 (length requests))).
Proof.
  assert (Forall (StronglySorted lt) (map (λ i, [i]) (seq 0 (length requests)))) as Hs.
  { apply Forall_forall. intros g (i & -> & _)%list_elem_of_fmap. repeat constructor. }
  split_and!; [by apply singletons_at| |by apply sorted_opens_with_least].
  split; [done|].
  rewrite hd_singletons. apply seq_strongly_sorted.
Qed.

(** C6. The output of [group_similar_requests], in the Windows script and in
    the consolidated script, is a partition of its input: the groups hold
    the requests found at lists of input positions in which every position
    occurs once, so every input request is in exactly one group; no group
    is empty; and there are at most as many groups as input requests. *)
Theorem group_similar_requests_partition (T : Text.methods) :
  (∀ similarity_matcher requests,
     partition_of requests
       (Windows.group_similar_requests T similarity_matcher requests)
       (Windows.positions T similarity_matcher requests))
  ∧ (∀ ML_AVAILABLE similarity_matcher requests,
       partition_of requests
         (Consolidated.group_similar_requests ML_AVAILABLE similarity_matcher requests)
         (Consolidated.positions ML_AVAILABLE similarity_matcher requests)).
Proof.
  split.
  - intros matcher requests. apply group_loop_partition.
  - intros ML matcher requests.
    unfold Consolidated.group_similar_requests, Consolidated.positions.
    destruct (SimbiSimilarityMatcher.model matcher).
    + apply group_loop_partition.
    + apply singletons_partition.
Qed.

(** C9. [group_similar_requests] keeps the input order, in both scripts:
    inside every group the input positions increase, so the requests of a
    group stand in their input order and the first one has the least
    position of the group; and the groups are listed by increasing position
    of their first request. *)
Theorem group_similar_requests_order (T : Text.methods) :
  (∀ similarity_matcher requests,
     in_input_order requests
       (Windows.group_similar_requests T similarity_matcher requests)
       (Windows.positions T similarity_matcher requests))
  ∧ (∀ ML_AVAILABLE similarity_matcher requests,
       in_input_order requests
         (Consolidated.group_similar_requests ML_AVAILABLE similarity_matcher requests)
         (Consolidated.positions ML_AVAILABLE similarity_matcher requests)).
Proof.
  split.
  - intros matcher requests. apply group_loop_order.
  - intros ML matcher requests.
    unfold Consolidated.group_similar_requests, Consolidated.positions.
    destruct (SimbiSimilarityMatcher.model matcher).
    + apply group_loop_order.
    + apply singletons_order.
Qed.

(** ** The monad *)

Lemma bind_inv {A B} (c : M A) (k : A → M B) s r s' :
  bind c k s = (r, s') →
  (∃ a s1, c s = (Ok a, s1) ∧ k a s1 = (r, s'))
  ∨ (∃ e, c s = (Raise e, s') ∧ r = Raise e).
Proof.
  unfold bind. destruct (c s) as [[a|e] s1]; intros Heq.
  - left. by exists a, s1.
  - right. exists e. by simplify_eq.
Qed.

Section Frames.

Context {A B : Type}.

Lemma keeps_ledger_ret (a : A) : keeps_ledger (ret a).
Proof. done. Qed.

Lemma keeps_ledger_bind (c : M A) (k : A → M B) :
  keeps_ledger c → (∀ a, keeps_ledger (k a)) → keeps_ledger (bind c k).
Proof.
  intros Hc Hk s. unfold bind. specialize (Hc s).
  destruct (c s) as [[a|e] s1]; simpl in *; [|done].
  by rewrite Hk.
Qed.

Lemma keeps_ledger_first_match (attempt : string → M A) selectors :
  (∀ selector, keeps_ledger (attempt selector)) →
  keeps_ledger (first_match attempt selectors).
Proof.
  intros Hattempt. induction selectors as [|selector rest IH]; intros s; simpl; [done|].
  specialize (Hattempt selector s).
  destruct (attempt selector s) as [[a|[]] s1]; simpl in *; try done.
  by rewrite IH.
Qed.

Lemma keeps_output_ret (a : A) : keeps_output (ret a).
Proof. done. Qed.

Lemma keeps_output_bind (c : M A) (k : A → M B) :
  keeps_output c → (∀ a, keeps_output (k a)) → keeps_output (bind c k).
Proof.
  intros Hc Hk s. unfold bind. specialize (Hc s).
  destruct (c s) as [[a|e] s1]; simpl in *; [|done].
  by rewrite Hk.
Qed.

Lemma keeps_output_first_match (attempt : string → M A) selectors :
  (∀ selector, keeps_output (attempt selector)) →
  keeps_output (first_match attempt selectors).
Proof.
  intros Hattempt. induction selectors as [|selector rest IH]; intros s; simpl; [done|].
  specialize (Hattempt selector s).
  destruct (attempt selector s) as [[a|[]] s1]; simpl in *; try done.
  by rewrite IH.
Qed.

End Frames.

Lemma keeps_ledger_logger l : keeps_ledger (logger l).
Proof. done. Qed.

Section BrowserFrames.

Context (B : Browser).

Lemma driver_get_frame url :
  keeps_ledger (SimbiAutomation.driver_get B url)
  ∧ keeps_output (SimbiAutomation.driver_get B url).
Proof. done. Qed.

Lemma driver_find_element_frame how selector :
  keeps_ledger (SimbiAutomation.driver_find_element B how selector)
  ∧ keeps_output (SimbiAutomation.driver_find_element B how selector).
Proof. done. Qed.

Lemma find_element_frame element selector :
  keeps_ledger (SimbiAutomation.find_element B element selector)
  ∧ keeps_output (SimbiAutomation.find_element B element selector).
Proof. done. Qed.

Lemma text_frame element :
  keeps_ledger (SimbiAutomation.text B element)
  ∧ keeps_output (SimbiAutomation.text B element).
Proof. done. Qed.

Lemma get_attribute_frame element name :
  keeps_ledger (SimbiAutomation.get_attribute B element name)
  ∧ keeps_output (SimbiAutomation.get_attribute B element name).
Proof. done. Qed.

Lemma is_enabled_frame element :
  keeps_ledger (SimbiAutomation.is_enabled B element)
  ∧ keeps_output (SimbiAutomation.is_enabled B element).
Proof. done. Qed.

Lemma click_frame element :
  keeps_ledger (SimbiAutomation.click B element)
  ∧ keeps_output (SimbiAutomation.click B element).
Proof. done. Qed.

Lemma send_keys_frame element keys :
  keeps_ledger (SimbiAutomation.send_keys B element keys)
  ∧ keeps_output (SimbiAutomation.send_keys B element keys).
Proof. done. Qed.

End BrowserFrames.

(** ** The ledger *)

Lemma app_singleton_neq {A} (l : list A) x : l ≠ l ++ [x].
Proof.
  intros Heq. apply (f_equal length) in Heq. rewrite length_app in Heq. simpl in Heq. lia.
Qed.

(** Every way [record_sent_message] can go. *)
Lemma record_sent_message_cases F data s :
  let now := now_isoformat F (appends s) in
  ∃ data' s',
    SimbiDataManager.record_sent_message F data s = (Ok data', s')
    ∧ calls s' = calls s
    ∧ appends s' = S (appends s)
    ∧ ((output s' = output s
        ∧ data' = <["timestamp" := now]> data
        ∧ SimbiDataManager.wrong_fields data' = false
        ∧ (csv_file s' = Some (with_header (csv_file s) ++ [SimbiDataManager.row_of data'])
           ∨ ∃ glued, fault_at F (appends s) = Unterminated glued
                      ∧ csv_file s' = Some glued)
        ∧ sent_messages s' = with_link data (sent_messages s))
       ∨ (output s' = output s ++ [ErrorRecordingSentMessage]
          ∧ (data' = data ∨ data' = <["timestamp" := now]> data)
          ∧ (sent_messages s' = sent_messages s
             ∨ (fault_at F (appends s) = CloseFault
                ∧ sent_messages s' = with_link data (sent_messages s))))).
Proof.
  intros now. unfold SimbiDataManager.record_sent_message, with_link.
  rewrite (lookup_insert_ne data "timestamp" "link") by done.
  fold now.
  destruct (fault_at F (appends s)) as [| | | | |glued] eqn:Hfault,
    (csv_file s) as [[|row rows]|] eqn:Hfile;
    simpl;
    try (destruct (SimbiDataManager.wrong_fields (<["timestamp":=now]> data)) eqn:Hwrong;
         simpl);
    try (destruct (data !! "link") eqn:Hlink; simpl);
    eexists _, _; (split; [reflexivity|]); simpl; rewrite ?Hfile; simpl;
    (split; [reflexivity|]); (split; [reflexivity|]);
    first [ left; split_and!; [done|done|done| |done];
            first [ by left | right; by eexists ]
          | right; split_and!; [done|by eauto|by eauto] ].
Qed.

Lemma with_link_mono data sent : sent ⊆ with_link data sent.
Proof. unfold with_link. destruct (data !! "link"); set_solver. Qed.

(** ** [send_message] *)

Section SendMessageFacts.

Context (B : Browser) (F : FileSystem) (config : Config.t).

Lemma sends_or_not_bind {A} request_data (c : M A) (k : A → M (bool * dict)) :
  keeps_ledger c → (∀ a, sends_or_not F request_data (k a)) →
  sends_or_not F request_data (bind c k).
Proof.
  intros Hc Hk s. unfold bind. specialize (Hc s).
  destruct (c s) as [[a|e] s1]; simpl in *; [|done].
  specialize (Hk a s1). destruct (k a s1) as [[[[] request_data']|e] s'].
  - destruct Hk as (message_text & s2 & s3 & Hs2 & Hrec & ->).
    exists message_text, s2, s3. split_and!; [congruence|done|done].
  - destruct Hk as [-> Hs']. split; [done|congruence].
  - congruence.
Qed.

Lemma sends_or_not_give_up request_data l :
  sends_or_not F request_data (logger l ;;; ret (false, request_data)).
Proof. intros s. by split. Qed.

Lemma sends_or_not_record request_data message_text send_button :
  sends_or_not F request_data
    (SimbiAutomation.click B send_button ;;;
     let* recorded :=
       SimbiDataManager.record_sent_message F
         (<["message_sent" := message_text]> request_data) in
     logger (MessageSentSuccessfully (get "user_name" "user" recorded)) ;;;
     ret (true, recorded)).
Proof.
  intros s. unfold bind at 1. unfold SimbiAutomation.click at 1.
  destruct (on_click B (calls s) send_button); [|done].
  unfold bind at 1.
  destruct (record_sent_message_cases F (<["message_sent" := message_text]> request_data)
              (add_call (Click send_button) s))
    as (recorded & s2 & Hrec & _).
  rewrite Hrec. simpl. by exists message_text, (add_call (Click send_button) s), s2.
Qed.

Lemma send_message_body_sends_or_not request_data :
  sends_or_not F request_data (SimbiAutomation.send_message_body B F config request_data).
Proof.
  unfold SimbiAutomation.send_message_body.
  apply sends_or_not_bind; [done|]. intros [].
  { apply sends_or_not_give_up. }
  apply sends_or_not_bind.
  { destruct (request_data !! "link"); [apply driver_get_frame|done]. }
  intros _. apply sends_or_not_bind.
  { apply keeps_ledger_first_match. intros ?. apply driver_find_element_frame. }
  intros [message_button|]; [|apply sends_or_not_give_up].
  apply sends_or_not_bind; [apply click_frame|]. intros _.
  apply sends_or_not_bind.
  { apply keeps_ledger_first_match. intros ?. apply driver_find_element_frame. }
  intros [text_area|]; [|apply sends_or_not_give_up].
  apply sends_or_not_bind; [done|]. intros message_text.
  apply sends_or_not_bind; [apply send_keys_frame|]. intros _.
  apply sends_or_not_bind.
  { apply keeps_ledger_first_match. intros ?. apply driver_find_element_frame. }
  intros [send_button|]; [|apply sends_or_not_give_up].
  apply sends_or_not_record.
Qed.

(** Every way [send_message] can go. *)
Lemma send_message_cases request_data s :
  ∃ sent request_data' s',
    SimbiAutomation.send_message B F config request_data s = ((sent, request_data'), s')
    ∧ ((sent = false ∧ request_data' = request_data ∧ ledger_of s' = ledger_of s)
       ∨ (sent = true
          ∧ ∃ message_text s1 s2,
              ledger_of s1 = ledger_of s
              ∧ SimbiDataManager.record_sent_message F
                  (<["message_sent" := message_text]> request_data) s1
                = (Ok request_data', s2)
              ∧ s' = add_line
                       (MessageSentSuccessfully (get "user_name" "user" request_data')) s2)).
Proof.
  unfold SimbiAutomation.send_message.
  pose proof (send_message_body_sends_or_not request_data s) as Hbody.
  destruct (SimbiAutomation.send_message_body B F config request_data s)
    as [[[[] request_data']|e] s'].
  - eexists _, _, _. split; [done|]. right. by split.
  - destruct Hbody as [-> Hs']. eexists _, _, _. split; [done|]. by left.
  - eexists _, _, _. split; [done|]. left. by split_and!.
Qed.

End SendMessageFacts.

Section Delivery.

Context (B : Browser) (F : FileSystem) (config : Config.t).



End Delivery.

Section RunFacts.

Context (B : Browser) (F : FileSystem) (config : Config.t).

(** A run over requests whose links are all in the ledger sends nothing. *)
Lemma send_each_skips_sent_links requests_data sent_count s :
  Forall (λ request_data, Some (get "link" "" request_data) ∈ sent_messages s)
    requests_data →
  ∃ s',
    SimbiAutomation.send_each B F config requests_data sent_count s
    = ((sent_count, requests_data), s')
    ∧ calls s' = calls s
    ∧ ledger_of s' = ledger_of s.
Proof.
  revert sent_count s. induction requests_data as [|request_data rest IH];
    intros sent_count s Hsent; simpl.
  - by exists s.
  - apply Forall_cons in Hsent as [Hfirst Hrest].
    unfold SimbiAutomation.send_message, SimbiAutomation.send_message_body.
    unfold bind at 1. unfold SimbiDataManager.is_message_sent at 1.
    rewrite (bool_decide_eq_true_2 _ Hfirst). simpl.
    destruct (IH sent_count
                (add_line (MessageAlreadySent (get "link" "" request_data)) s) Hrest)
      as (s' & -> & Hcalls & Hledger).
    by exists s'.
Qed.

End RunFacts.

(** ** Reloading the ledger *)

Lemma row_dict_link data :
  SimbiDataManager.row_dict SimbiDataManager.fieldnames (SimbiDataManager.row_of data) !! "link"
  = Some (Some (get "link" "" data)).
Proof.
  unfold SimbiDataManager.row_dict, SimbiDataManager.row_of, SimbiDataManager.fieldnames.
  simpl. rewrite !lookup_insert_ne by done. by rewrite lookup_insert_eq.
Qed.

(** ** Extraction *)

Section ExtractionFacts.

Context (T : Text.methods) (B : Browser).

Lemma essential_built title user desc link :
  SimbiAutomation.essential (built title user desc link)
  = SimbiAutomation.truthy (Some <$> title) && SimbiAutomation.truthy link.
Proof.
  unfold SimbiAutomation.essential, built.
  destruct title, user, desc, link; simpl;
    rewrite ?lookup_insert_ne, ?lookup_insert_eq, ?lookup_empty by done; done.
Qed.

Lemma as_request_built title user desc link :
  SimbiAutomation.as_request (built (Some title) user desc (Some (Some link)))
  = request_of title user desc link.
Proof.
  unfold SimbiAutomation.as_request, built, request_of.
  destruct user, desc; simpl; rewrite !omap_insert; simpl; by rewrite omap_empty.
Qed.

Lemma build_cases element s :
  SimbiAutomation.build T B element s
  = match SimbiAutomation.text_of_first T B element SimbiAutomation.title_selectors s with
    | (Raise e, s1) => (Raise e, s1)
    | (Ok title, s1) =>
        match SimbiAutomation.text_of_first T B element SimbiAutomation.user_selectors s1 with
        | (Raise e, s2) => (Raise e, s2)
        | (Ok user, s2) =>
            match SimbiAutomation.text_of_first T B element
                    SimbiAutomation.desc_selectors s2 with
            | (Raise e, s3) => (Raise e, s3)
            | (Ok desc, s3) =>
                match SimbiAutomation.href_of_first B element
                        SimbiAutomation.link_selectors s3 with
                | (Raise e, s4) => (Raise e, s4)
                | (Ok link, s4) => (Ok (built title user desc link), s4)
                end
            end
        end
    end.
Proof.
  unfold SimbiAutomation.build, bind, ret, built.
  repeat case_match; simplify_eq; done.
Qed.

End ExtractionFacts.

(** ** Crawling *)

Lemma scraping_lines_app out1 out2 :
  scraping_lines (out1 ++ out2) = scraping_lines out1 ++ scraping_lines out2.
Proof. unfold scraping_lines. apply omap_app. Qed.

Section CrawlFacts.

Context (T : Text.methods) (B : Browser).

Lemma text_of_first_keeps_output element selectors :
  keeps_output (SimbiAutomation.text_of_first T B element selectors).
Proof.
  apply keeps_output_first_match. intros selector.
  apply keeps_output_bind; [apply find_element_frame|]. intros found.
  apply keeps_output_bind; [apply text_frame|]. intros t. apply keeps_output_ret.
Qed.

Lemma href_of_first_keeps_output element selectors :
  keeps_output (SimbiAutomation.href_of_first B element selectors).
Proof.
  apply keeps_output_first_match. intros selector.
  apply keeps_output_bind; [apply find_element_frame|]. intros found.
  apply get_attribute_frame.
Qed.

Lemma build_keeps_output element : keeps_output (SimbiAutomation.build T B element).
Proof.
  unfold SimbiAutomation.build.
  apply keeps_output_bind; [apply text_of_first_keeps_output|]. intros title.
  apply keeps_output_bind; [apply text_of_first_keeps_output|]. intros user.
  apply keeps_output_bind; [apply text_of_first_keeps_output|]. intros desc.
  apply keeps_output_bind; [apply href_of_first_keeps_output|]. intros link.
  apply keeps_output_ret.
Qed.

Lemma extract_element_output requests element s :
  output (SimbiAutomation.extract_element T B requests element s).2 = output s.
Proof.
  unfold SimbiAutomation.extract_element.
  pose proof (build_keeps_output element s) as Hbuild.
  destruct (SimbiAutomation.build T B element s) as [[request_data|e] s']; simpl in *.
  - by destruct (SimbiAutomation.essential request_data).
  - done.
Qed.

Lemma extract_elements_output requests request_elements s :
  output (SimbiAutomation.extract_elements T B requests request_elements s).2 = output s.
Proof.
  revert requests s. induction request_elements as [|element rest IH];
    intros requests s; simpl; [done|].
  pose proof (extract_element_output requests element s) as Hone.
  destruct (SimbiAutomation.extract_element T B requests element s) as [requests' s'].
  simpl in *. by rewrite IH.
Qed.

Lemma extract_requests_from_page_lines s :
  scraping_lines (output (SimbiAutomation.extract_requests_from_page T B s).2)
  = scraping_lines (output s).
Proof.
  unfold SimbiAutomation.extract_requests_from_page, SimbiAutomation.wait_all_present.
  destruct (on_wait_all_present B (calls s) _) as [request_elements|e]; simpl.
  - by rewrite extract_elements_output.
  - by rewrite scraping_lines_app, app_nil_r.
Qed.

Lemma try_next_keeps_output selector :
  keeps_output (SimbiAutomation.try_next B selector).
Proof.
  unfold SimbiAutomation.try_next.
  apply keeps_output_bind; [apply driver_find_element_frame|]. intros next_button.
  apply keeps_output_bind; [apply is_enabled_frame|]. intros [].
  - apply keeps_output_bind; [apply click_frame|]. intros _. apply keeps_output_ret.
  - apply keeps_output_ret.
Qed.

Lemma next_page_loop_keeps_output selectors :
  keeps_output (SimbiAutomation.next_page_loop B selectors).
Proof.
  induction selectors as [|selector rest IH]; intros s; simpl; [done|].
  pose proof (try_next_keeps_output selector s) as Htry.
  destruct (SimbiAutomation.try_next B selector s) as [[[]|[]] s']; simpl in *;
    try done; by rewrite IH.
Qed.

Lemma go_to_next_page_lines s :
  scraping_lines (output (SimbiAutomation.go_to_next_page B s).2)
  = scraping_lines (output s).
Proof.
  unfold SimbiAutomation.go_to_next_page.
  pose proof (next_page_loop_keeps_output SimbiAutomation.next_selectors s) as Hloop.
  destruct (SimbiAutomation.next_page_loop B SimbiAutomation.next_selectors s)
    as [[b|e] s']; simpl in *.
  - by rewrite Hloop.
  - by rewrite scraping_lines_app, Hloop, app_nil_r.
Qed.

(** One turn of the loop writes one "Scraping page" line. *)
Lemma scrape_page_lines page s :
  scraping_lines (output (SimbiAutomation.scrape_page T B page s).2)
  = scraping_lines (output s) ++ [page].
Proof.
  unfold SimbiAutomation.scrape_page.
  pose proof (extract_requests_from_page_lines (add_line (ScrapingPage page) s)) as Hex.
  destruct (SimbiAutomation.extract_requests_from_page T B _) as [page_requests s1].
  pose proof (go_to_next_page_lines s1) as Hnext.
  destruct (SimbiAutomation.go_to_next_page B s1) as [more s2].
  simpl in *. rewrite Hnext, Hex. apply scraping_lines_app.
Qed.

(** When no locator resolves, [go_to_next_page] answers [False]. *)
Lemma next_page_loop_no_locator base k rest s :
  no_next_locator B base →
  drop k SimbiAutomation.next_selectors = rest →
  calls s = base ++ (DriverFindElement XPATH <$> take k SimbiAutomation.next_selectors) →
  (SimbiAutomation.next_page_loop B rest s).1 = Ok false.
Proof.
  intros Hno. revert k s. induction rest as [|selector rest IH]; intros k s Hdrop Hcalls;
    simpl; [done|].
  assert (SimbiAutomation.next_selectors !! k = Some selector) as Hk.
  { rewrite <- (Nat.add_0_r k), <- lookup_drop, Hdrop. done. }
  unfold SimbiAutomation.try_next, bind, SimbiAutomation.driver_find_element.
  rewrite Hcalls, (Hno k selector Hk).
  apply (IH (S k)).
  - replace (S k) with (k + 1) by lia. by rewrite <- drop_drop, Hdrop.
  - rewrite (take_S_r _ _ _ Hk), fmap_app, app_assoc, <- Hcalls. done.
Qed.

Lemma go_to_next_page_no_locator s :
  no_next_locator B (calls s) → (SimbiAutomation.go_to_next_page B s).1 = false.
Proof.
  intros Hno. unfold SimbiAutomation.go_to_next_page.
  pose proof (next_page_loop_no_locator (calls s) 0 SimbiAutomation.next_selectors s Hno)
    as Hloop.
  destruct (SimbiAutomation.next_page_loop B SimbiAutomation.next_selectors s)
    as [[b|e] s']; simpl in *.
  - assert (Ok b = Ok false) as Hb by (apply Hloop; [done|by rewrite app_nil_r]).
    by injection Hb.
  - done.
Qed.

Lemma scrape_page_next page s page_requests more s' :
  SimbiAutomation.scrape_page T B page s = ((page_requests, more), s') →
  (SimbiAutomation.go_to_next_page B (before_next_page T B page s)).1 = more.
Proof.
  unfold SimbiAutomation.scrape_page, before_next_page.
  destruct (SimbiAutomation.extract_requests_from_page T B _) as [requests s1]. simpl.
  destruct (SimbiAutomation.go_to_next_page B s1) as [more' s2]. simpl.
  by intros [= _ -> _].
Qed.

(** A turn after which the loop goes on had a locator that resolved; a turn
    in which none resolves is the last. *)
Lemma scrape_page_locator page s page_requests more s' :
  SimbiAutomation.scrape_page T B page s = ((page_requests, more), s') →
  no_next_locator B (calls (before_next_page T B page s)) → more = false.
Proof.
  intros Hpage Hno. apply scrape_page_next in Hpage. rewrite <- Hpage.
  by apply go_to_next_page_no_locator.
Qed.

Lemma cycles_lines page s n more s' :
  cycles T B page s n more s' →
  scraping_lines (output s') = scraping_lines (output s) ++ seq page n.
Proof.
  induction 1 as [page s page_requests more s' Hpage _
                 |page s page_requests s1 n more s' Hpage _ _ IH].
  - pose proof (scrape_page_lines page s) as Hl. by rewrite Hpage in Hl.
  - pose proof (scrape_page_lines page s) as Hl. rewrite Hpage in Hl. simpl in Hl.
    rewrite IH, Hl, <- app_assoc. done.
Qed.

(** The loop over [n + 1] pages: it runs at most [n + 1] turns, each
    after an answer [True] of [go_to_next_page], and fewer only after an
    answer [False]. *)
Lemma scrape_pages_cycles n page last requests_data s :
  ∃ k more s_end requests_data',
    cycles T B page s k more s_end
    ∧ k ≤ S n
    ∧ (more = true → k = S n)
    ∧ SimbiAutomation.scrape_pages T B (seq page (S n)) last requests_data s
      = ((requests_data', Some (page + k - 1)),
         if more then s_end else add_line NoMorePagesAvailable s_end).
Proof.
  revert page last requests_data s. induction n as [|n IH];
    intros page last requests_data s; simpl.
  - destruct (SimbiAutomation.scrape_page T B page s) as [[page_requests more] s1] eqn:Hpage.
    exists 1, more, s1, (requests_data ++ page_requests).
    split_and!; [|lia|done|].
    + econstructor; [exact Hpage|]. by apply (scrape_page_locator _ _ _ _ _ Hpage).
    + replace (page + 1 - 1) with page by lia. by destruct more.
  - destruct (SimbiAutomation.scrape_page T B page s) as [[page_requests more] s1] eqn:Hpage.
    destruct more.
    + destruct (IH (S page) (Some page) (requests_data ++ page_requests) s1)
        as (k & more & s_end & requests_data' & Hcycles & Hk & Hmore & Hrun).
      exists (S k), more, s_end, requests_data'.
      split_and!; [|lia|intros ?; f_equal; by apply Hmore|].
      * econstructor; [exact Hpage| |exact Hcycles].
        by intros Hno%(scrape_page_locator _ _ _ _ _ Hpage).
      * simpl in Hrun. rewrite Hrun.
        assert (1 ≤ k) by (inversion Hcycles; lia).
        by replace (page + S k - 1) with (S page + k - 1) by lia.
    + exists 1, false, s1, (requests_data ++ page_requests).
      split_and!; [|lia|done|].
      * econstructor; [exact Hpage|done].
      * by replace (page + 1 - 1) with page by lia.
Qed.

End CrawlFacts.

(** * The claims *)

(** ** C3: the token-set score *)

(** C3, as stated, fails: the text of one space is not empty, it has no
    word, and its score against itself is 0, not 1. *)
Lemma similarity_of_blank_text_is_not_one :
  " " ≠ ""
  ∧ SimpleSimilarityMatcher.calculate_similarity AsciiText.methods " " " " = 0%Qc
  ∧ SimpleSimilarityMatcher.calculate_similarity AsciiText.methods " " " " ≠ 1%Qc.
Proof. split_and!; [done|reflexivity|by vm_compute]. Qed.

(** C3, amended. For [SimpleSimilarityMatcher.calculate_similarity],
    whatever the Unicode tables behind [lower] and [split]: the score is
    symmetric; the score of a non-empty text against itself is 1 when the
    text has a word, that is when [text.lower().split()] is not empty, and
    it is 0 when the text has no word; the score of the empty text against
    any text is 0; and every score lies between 0 and 1. *)
Theorem token_set_similarity (T : Text.methods) (a b : string) :
  SimpleSimilarityMatcher.calculate_similarity T a b
  = SimpleSimilarityMatcher.calculate_similarity T b a
  ∧ (a ≠ "" → Text.split T (Text.lower T a) ≠ [] →
     SimpleSimilarityMatcher.calculate_similarity T a a = 1%Qc)
  ∧ (Text.split T (Text.lower T a) = [] →
     SimpleSimilarityMatcher.calculate_similarity T a a = 0%Qc)
  ∧ SimpleSimilarityMatcher.calculate_similarity T "" b = 0%Qc
  ∧ (0 ≤ SimpleSimilarityMatcher.calculate_similarity T a b)%Qc
  ∧ (SimpleSimilarityMatcher.calculate_similarity T a b ≤ 1)%Qc.
Proof.
  split_and!.
  - apply similarity_comm.
  - intros Hne Hwords. apply similarity_self; [done|by apply words_nonempty].
  - intros Hwords. apply similarity_self_wordless. unfold Text.words. by rewrite Hwords.
  - apply similarity_empty_l.
  - apply similarity_bounds.
  - apply similarity_bounds.
Qed.

Lemma token_set_similarity_witness :
  "Logo design" ≠ ""
  ∧ Text.split AsciiText.methods (Text.lower AsciiText.methods "Logo design")
    = ["logo"; "design"]
  ∧ SimpleSimilarityMatcher.calculate_similarity AsciiText.methods
      "Logo design" "Logo design" = 1%Qc.
Proof.
  split; [done|]. split; [reflexivity|].
  apply (proj1 (proj2 (token_set_similarity AsciiText.methods "Logo design" "needed")));
    [done|by vm_compute].
Defined.

(** ** C2: the matcher without a model *)

(** C2, as stated, fails: without a model the consolidated matcher scores
    two equal texts 0, where the token-set score is 1. *)
Lemma unloaded_matcher_is_not_token_set :
  SimbiSimilarityMatcher.model Sample.unloaded = None
  ∧ SimpleSimilarityMatcher.calculate_similarity AsciiText.methods
      "Logo design" "Logo design" = 1%Qc
  ∧ SimbiSimilarityMatcher.calculate_similarity false Sample.unloaded
      "Logo design" "Logo design" = 0%Qc
  ∧ SimbiSimilarityMatcher.calculate_similarity false Sample.unloaded
      "Logo design" "Logo design"
    ≠ SimpleSimilarityMatcher.calculate_similarity AsciiText.methods
        "Logo design" "Logo design".
Proof.
  assert (SimpleSimilarityMatcher.calculate_similarity AsciiText.methods
            "Logo design" "Logo design" = 1%Qc) as Hone.
  { apply similarity_self; [done|]. apply words_nonempty. by vm_compute. }
  split_and!; [reflexivity|exact Hone|reflexivity|].
  rewrite Hone. by vm_compute.
Qed.

(** C2, amended. When no model is loaded, similarity matching is switched
    off, with no fallback to the token-set score: [calculate_similarity]
    answers 0 for every pair of texts, and [group_similar_requests] puts
    every request in a group of its own. *)
Theorem unloaded_matcher_is_disabled (ML_AVAILABLE : bool)
    (self : SimbiSimilarityMatcher.t) (text1 text2 : string) (requests : list dict) :
  SimbiSimilarityMatcher.model self = None →
  SimbiSimilarityMatcher.calculate_similarity ML_AVAILABLE self text1 text2 = 0%Qc
  ∧ Consolidated.group_similar_requests ML_AVAILABLE self requests
    = map (λ req, [req]) requests.
Proof.
  intros Hmodel.
  unfold SimbiSimilarityMatcher.calculate_similarity, Consolidated.group_similar_requests.
  by rewrite Hmodel.
Qed.

Lemma unloaded_matcher_is_disabled_witness :
  SimbiSimilarityMatcher.model Sample.unloaded = None
  ∧ SimbiSimilarityMatcher.calculate_similarity false Sample.unloaded
      "Logo design" "Logo design" = 0%Qc
  ∧ Consolidated.group_similar_requests false Sample.unloaded
      [Sample.request; Sample.request]
    = [[Sample.request]; [Sample.request]].
Proof.
  split; [reflexivity|].
  apply (unloaded_matcher_is_disabled false Sample.unloaded "Logo design" "Logo design"
           [Sample.request; Sample.request]).
  reflexivity.
Defined.

(** ** C4: a link already in the ledger *)

(** C4. When [is_message_sent] answers [True] for the link of the request
    at the start of [send_message], the call answers [False] and does
    nothing but write the "already sent" line: no browser call is made, the
    ledger file, the set of sent links and the request are unchanged. *)
Theorem send_message_skips_sent_link (B : Browser) (F : FileSystem) (config : Config.t)
    (request_data : dict) (s : state) :
  SimbiDataManager.is_message_sent (get "link" "" request_data) s = (Ok true, s) →
  ∃ s',
    SimbiAutomation.send_message B F config request_data s = ((false, request_data), s')
    ∧ calls s' = calls s
    ∧ ledger_of s' = ledger_of s
    ∧ output s' = output s ++ [MessageAlreadySent (get "link" "" request_data)].
Proof.
  intros Hsent.
  exists (add_line (MessageAlreadySent (get "link" "" request_data)) s).
  unfold SimbiAutomation.send_message, SimbiAutomation.send_message_body.
  unfold bind at 1. rewrite Hsent. done.
Qed.

Lemma send_message_skips_sent_link_witness :
  let s := Sample.start {[Some "https://site/x/1"]} None in
  SimbiDataManager.is_message_sent (get "link" "" Sample.request) s = (Ok true, s)
  ∧ ∃ s',
      SimbiAutomation.send_message Sample.browser (Sample.files NoFault) Sample.config
        Sample.request s = ((false, Sample.request), s')
      ∧ calls s' = calls s
      ∧ ledger_of s' = ledger_of s
      ∧ output s' = output s ++ [MessageAlreadySent (get "link" "" Sample.request)].
Proof.
  intros s. split; [reflexivity|].
  apply (send_message_skips_sent_link Sample.browser (Sample.files NoFault) Sample.config
           Sample.request s).
  reflexivity.
Defined.

(** ** C1: a failing write to the ledger *)

(** C1, as stated, fails: when [open] raises, [record_sent_message] prints
    the error and returns normally, and [send_message] logs success and
    answers [True]. *)
Lemma failed_write_is_reported_as_sent :
  let F := Sample.files OpenFault in
  let s := Sample.start ∅ None in
  let sending :=
    SimbiAutomation.send_message Sample.browser F Sample.config Sample.request s in
  append_fails F Sample.request s
  ∧ (SimbiDataManager.record_sent_message F Sample.request s).1 = Ok Sample.request
  ∧ (∀ e, (SimbiDataManager.record_sent_message F Sample.request s).1 ≠ Raise e)
  ∧ sending.1.1 = true
  ∧ output sending.2 = [ErrorRecordingSentMessage; MessageSentSuccessfully "Ann"]
  ∧ csv_file sending.2 = None.
Proof. split_and!; try reflexivity. intros e. by vm_compute. Qed.

(** C1, amended. [record_sent_message] never raises: an exception of the
    write is caught and printed inside it. When the exception comes from
    [open], [writeheader] or [writerow], the set of sent links is not
    updated. [send_message] answers [True] whenever it called
    [record_sent_message], whether the write failed or not. *)
Theorem failed_write_is_caught (B : Browser) (F : FileSystem) (config : Config.t)
    (request_data : dict) (s : state) :
  let recording := SimbiDataManager.record_sent_message F request_data s in
  let sending := SimbiAutomation.send_message B F config request_data s in
  (∃ data', recording.1 = Ok data')
  ∧ (append_fails F request_data s → fault_at F (appends s) ≠ CloseFault →
     sent_messages recording.2 = sent_messages s)
  ∧ (appends sending.2 ≠ appends s → sending.1.1 = true).
Proof.
  intros recording sending. split_and!.
  - destruct (record_sent_message_cases F request_data s) as (data' & s' & Hrec & _).
    exists data'. unfold recording. by rewrite Hrec.
  - unfold append_fails. fold recording. intros Hfails Hclose.
    destruct (record_sent_message_cases F request_data s)
      as (data' & s' & Hrec & _ & _ & Hcases).
    unfold recording in *. rewrite Hrec in *. simpl in *.
    destruct Hcases as [(Hout & _)|(_ & _ & [Hsent|[Hfault _]])]; [|done|done].
    rewrite Hout in Hfails. by apply app_singleton_neq in Hfails.
  - unfold sending.
    destruct (send_message_cases B F config request_data s)
      as (sent & request_data' & s' & -> & [(_ & _ & Hsame)|(-> & _)]); simpl; [|done].
    intros Happends. unfold ledger_of in Hsame. by simplify_eq.
Qed.

Lemma failed_write_is_caught_witness :
  let F := Sample.files RowFault in
  let s := Sample.start ∅ None in
  append_fails F Sample.request s
  ∧ fault_at F (appends s) ≠ CloseFault
  ∧ sent_messages (SimbiDataManager.record_sent_message F Sample.request s).2
    = sent_messages s.
Proof.
  intros F s. split_and!; [reflexivity|discriminate|].
  apply (proj1 (proj2 (failed_write_is_caught Sample.browser F Sample.config
                         Sample.request s))); [reflexivity|discriminate].
Defined.

(** ** C5: a recorded link is remembered *)

(** C5. The code breaks the claim at a ledger file that exists and is
    empty. [record_sent_message] writes the header only for a file that did
    not exist, so the row it appends is the first line of the file. The
    append goes through and the link is known for the rest of the run; a
    later run reads that row as the field names and loads no link, so
    [is_message_sent] answers [False] for the recorded link. The code leaves
    such a file itself: a first append whose [writeheader] raises has
    created the file and written nothing, and the next append, which goes
    through, meets the empty file. *)
Theorem recorded_link_is_lost_in_empty_file :
  let F := Sample.files NoFault in
  let s := Sample.start ∅ (Some []) in
  let s' := (SimbiDataManager.record_sent_message F Sample.request s).2 in
  let F2 := Sample.failing_header in
  let s1 := (SimbiDataManager.record_sent_message F2 Sample.request (Sample.start ∅ None)).2 in
  let s2 := (SimbiDataManager.record_sent_message F2 Sample.request s1).2 in
  Sample.request !! "link" = Some "https://site/x/1"
  ∧ append_succeeds F Sample.request s
  ∧ SimbiDataManager.is_message_sent "https://site/x/1" s' = (Ok true, s')
  ∧ csv_file s'
    = Some [["2024-05-01T10:00:00"; "Ann"; "Logo design"; "https://site/x/1"; ""; ""]]
  ∧ SimbiDataManager.is_message_sent "https://site/x/1" (reloaded (csv_file s'))
    = (Ok false, reloaded (csv_file s'))
  ∧ append_fails F2 Sample.request (Sample.start ∅ None)
  ∧ csv_file s1 = Some []
  ∧ append_succeeds F2 Sample.request s1
  ∧ SimbiDataManager.is_message_sent "https://site/x/1" s2 = (Ok true, s2)
  ∧ SimbiDataManager.is_message_sent "https://site/x/1" (reloaded (csv_file s2))
    = (Ok false, reloaded (csv_file s2)).
Proof. split_and!; reflexivity. Qed.

(** ** C10: what the two methods change in the request *)



(** ** C8: which listings become requests *)




(** ** C7: the crawl loop is bounded *)

(** C7. For a positive bound [max_pages] (given as argument or taken from
    the configuration), [scrape_requests] runs [n] turns of its loop with
    [n] at most [max_pages]: it writes the "Scraping page" lines of the
    pages 1 to [n] and no other. Either the first navigation raised and
    [n] is 0, or the [n] turns ran one after the other; the loop went on
    after a turn only when a next-page locator resolved in that turn and
    [go_to_next_page] answered [True], so the first turn in which no
    next-page locator resolves is the last; and the loop ended before
    [max_pages] turns only because [go_to_next_page] answered [False]. *)
Theorem crawl_is_bounded (T : Text.methods) (B : Browser) (config : Config.t)
    (max_pages : option Z) (s : state) :
  let bound := match max_pages with
               | Some n => n
               | None => Config.max_pages config
               end in
  (0 < bound)%Z →
  let s' := (SimbiAutomation.scrape_requests T B config max_pages s).2 in
  let s1 := add_call (DriverGet (Config.service_url config)) s in
  ∃ n,
    (Z.of_nat n ≤ bound)%Z
    ∧ scraping_lines (output s') = scraping_lines (output s) ++ seq 1 n
    ∧ ((n = 0 ∧ ∃ e, on_get B (calls s) (Config.service_url config) = Raise e)
       ∨ (∃ more s_end,
            cycles T B 1 s1 n more s_end
            ∧ (more = true → Z.of_nat n = bound)
            ∧ (more = false → NoMorePagesAvailable ∈ output s'))).
Proof.
  intros bound Hbound s' s1. unfold s', SimbiAutomation.scrape_requests.
  fold bound. unfold SimbiAutomation.driver_get. fold s1.
  destruct (on_get B (calls s) (Config.service_url config)) as [[]|e] eqn:Hget.
  - unfold SimbiAutomation.page_range.
    destruct (Z.to_nat bound) as [|m] eqn:Hm; [lia|].
    destruct (scrape_pages_cycles T B m 1 None [] s1)
      as (k & more & s_end & requests_data' & Hcycles & Hk & Hmore & ->).
    exists k. simpl. split_and!; [lia| |].
    + pose proof (cycles_lines T B 1 s1 k more s_end Hcycles) as Hlines.
      change (output s1) with (output s) in Hlines.
      destruct more; simpl; rewrite !scraping_lines_app, Hlines; simpl;
        by rewrite !app_nil_r.
    + right. exists more, s_end. split_and!; [done| |].
      * intros Hm'. apply Hmore in Hm'. lia.
      * intros ->. simpl. apply elem_of_app. left. apply elem_of_app. right. by left.
  - exists 0. simpl. split_and!; [lia| |left; eauto].
    by rewrite scraping_lines_app.
Qed.

Lemma crawl_is_bounded_witness :
  let s := Sample.start ∅ None in
  let s' :=
    (SimbiAutomation.scrape_requests AsciiText.methods Sample.last_page Sample.config
       (Some 3%Z) s).2 in
  let s1 := add_call (DriverGet (Config.service_url Sample.config)) s in
  (0 < 3)%Z
  ∧ no_next_locator Sample.last_page
      (calls (before_next_page AsciiText.methods Sample.last_page 1 s1))
  ∧ scraping_lines (output s') = [1]
  ∧ NoMorePagesAvailable ∈ output s'
  ∧ ∃ n,
      (Z.of_nat n ≤ 3)%Z
      ∧ scraping_lines (output s') = scraping_lines (output s) ++ seq 1 n
      ∧ ((n = 0 ∧ ∃ e, on_get Sample.last_page (calls s)
                         (Config.service_url Sample.config) = Raise e)
         ∨ (∃ more s_end,
              cycles AsciiText.methods Sample.last_page 1 s1 n more s_end
              ∧ (more = true → Z.of_nat n = 3%Z)
              ∧ (more = false → NoMorePagesAvailable ∈ output s'))).
Proof.
  intros s s' s1. split; [reflexivity|]. split; [by intros k selector _|].
  split; [reflexivity|]. split; [by vm_compute; repeat constructor|].
  apply (crawl_is_bounded AsciiText.methods Sample.last_page Sample.config (Some 3%Z) s).
  reflexivity.
Defined.

(** * Further properties of the code *)

(** ** The token-set score and the words of a text *)

Lemma ratio_zero u : SimpleSimilarityMatcher.ratio 0 u = 0%Qc.
Proof.
  unfold SimpleSimilarityMatcher.ratio. apply Qc_is_canon. simpl.
  rewrite Qred_correct. reflexivity.
Qed.

Lemma ratio_zero_inv i u : SimpleSimilarityMatcher.ratio i u = 0%Qc → i = 0.
Proof.
  unfold SimpleSimilarityMatcher.ratio. intros Heq.
  change 0%Qc with (Q2Qc 0) in Heq. apply Q2Qc_eq_iff in Heq.
  unfold Qeq in Heq. simpl in Heq. lia.
Qed.

Lemma ratio_one_inv i u : u ≠ 0 → SimpleSimilarityMatcher.ratio i u = 1%Qc → i = u.
Proof.
  unfold SimpleSimilarityMatcher.ratio. intros Hu Heq.
  change 1%Qc with (Q2Qc 1) in Heq. apply Q2Qc_eq_iff in Heq.
  unfold Qeq in Heq. simpl in Heq. rewrite Zpos_of_nat in Heq by done. lia.
Qed.

Lemma similarity_zero_iff (T : Text.methods) (text1 text2 : string) :
  SimpleSimilarityMatcher.calculate_similarity T text1 text2 = 0%Qc
  ↔ text1 = "" ∨ text2 = "" ∨ Text.words T text1 ∩ Text.words T text2 = ∅.
Proof.
  unfold SimpleSimilarityMatcher.calculate_similarity. cbv zeta.
  case_bool_decide as H1; simpl; [by split; [left|]|].
  case_bool_decide as H2; simpl; [by split; [right; left|]|].
  case_bool_decide as Hu.
  - split; [intros _|done]. right. right.
    apply size_empty_inv, leibniz_equiv in Hu. set_solver.
  - split.
    + intros Hi%ratio_zero_inv. right. right.
      by apply size_empty_inv, leibniz_equiv in Hi.
    + intros [?|[?|Hi]]; [done|done|]. rewrite Hi, size_empty. apply ratio_zero.
Qed.

(** X1. Whatever the Unicode tables behind [lower] and [split], the
    token-set score of two texts is 0 exactly when one of the texts is empty
    or the two have no word in common (the words of a text being the set of
    [text.lower().split()]). *)
Theorem similarity_zero_iff_no_common_word (T : Text.methods) (text1 text2 : string) :
  SimpleSimilarityMatcher.calculate_similarity T text1 text2 = 0%Qc
  ↔ text1 = "" ∨ text2 = "" ∨ Text.words T text1 ∩ Text.words T text2 = ∅.
Proof. apply similarity_zero_iff. Qed.

Lemma similarity_one_iff (T : Text.methods) (text1 text2 : string) :
  SimpleSimilarityMatcher.calculate_similarity T text1 text2 = 1%Qc
  ↔ text1 ≠ "" ∧ text2 ≠ ""
    ∧ Text.words T text1 = Text.words T text2 ∧ Text.words T text1 ≠ ∅.
Proof.
  unfold SimpleSimilarityMatcher.calculate_similarity. cbv zeta.
  case_bool_decide as H1; simpl; [split; [done|by intros [? _]]|].
  case_bool_decide as H2; simpl; [split; [done|by intros (_ & ? & _)]|].
  case_bool_decide as Hu.
  - split; [done|]. intros (_ & _ & Heq & Hne). exfalso. apply Hne.
    apply size_empty_inv, leibniz_equiv in Hu. set_solver.
  - split.
    + intros Hi%ratio_one_inv; [|done].
      assert (Text.words T text1 ∩ Text.words T text2
              = Text.words T text1 ∪ Text.words T text2) as Hsame.
      { apply set_subseteq_size_eq; [set_solver|lia]. }
      split_and!; [done|done|set_solver|].
      intros Hempty. apply Hu. rewrite <- Hsame, Hempty.
      assert ((∅ : gset string) ∩ Text.words T text2 = ∅) as -> by set_solver.
      apply size_empty.
    + intros (_ & _ & Heq & Hne). rewrite <- Heq.
      assert (Text.words T text1 ∩ Text.words T text1 = Text.words T text1) as ->
        by set_solver.
      assert (Text.words T text1 ∪ Text.words T text1 = Text.words T text1) as ->
        by set_solver.
      apply ratio_same. by intros ?%size_empty_inv%leibniz_equiv.
Qed.

(** X2. Whatever the Unicode tables behind [lower] and [split], the
    token-set score of two texts is 1 exactly when both texts are non-empty
    and they have the same words, and at least one. *)
Theorem similarity_one_iff_same_words (T : Text.methods) (text1 text2 : string) :
  SimpleSimilarityMatcher.calculate_similarity T text1 text2 = 1%Qc
  ↔ text1 ≠ "" ∧ text2 ≠ ""
    ∧ Text.words T text1 = Text.words T text2 ∧ Text.words T text1 ≠ ∅.
Proof. apply similarity_one_iff. Qed.

Lemma similarity_depends_on_words_aux (T : Text.methods) (text1 text1' text2 : string) :
  (text1 = "" ↔ text1' = "") →
  Text.words T text1 = Text.words T text1' →
  SimpleSimilarityMatcher.calculate_similarity T text1 text2
  = SimpleSimilarityMatcher.calculate_similarity T text1' text2.
Proof.
  intros Hempty Hwords.
  unfold SimpleSimilarityMatcher.calculate_similarity. cbv zeta.
  rewrite (bool_decide_ext _ _ Hempty).
  destruct (bool_decide (text1' = "") || bool_decide (text2 = "")); [done|].
  by rewrite Hwords.
Qed.

(** X3. Whatever the Unicode tables behind [lower] and [split], the
    token-set score depends on a text only through its being empty or not
    and through its set of words: two texts that are both empty or both
    non-empty and have the same words (whatever the order and the
    repetition of the words) score alike against any text. *)
Theorem similarity_depends_on_words (T : Text.methods) (text1 text1' text2 : string) :
  (text1 = "" ↔ text1' = "") →
  Text.words T text1 = Text.words T text1' →
  SimpleSimilarityMatcher.calculate_similarity T text1 text2
  = SimpleSimilarityMatcher.calculate_similarity T text1' text2.
Proof. apply similarity_depends_on_words_aux. Qed.

Lemma similarity_depends_on_words_witness :
  ("Logo  DESIGN logo" = "" ↔ "design Logo" = "")
  ∧ Text.words AsciiText.methods "Logo  DESIGN logo"
    = Text.words AsciiText.methods "design Logo"
  ∧ SimpleSimilarityMatcher.calculate_similarity AsciiText.methods
      "Logo  DESIGN logo" "need a logo"
    = SimpleSimilarityMatcher.calculate_similarity AsciiText.methods
        "design Logo" "need a logo".
Proof.
  assert ("Logo  DESIGN logo" = "" ↔ "design Logo" = "") as Hempty by done.
  split; [done|]. split; [by vm_compute|].
  apply (similarity_depends_on_words AsciiText.methods
           "Logo  DESIGN logo" "design Logo" "need a logo" Hempty).
  by vm_compute.
Defined.

(** ** Which group a request joins *)

Section FirstFit.

Context (calculate_similarity : string → string → Qc) (threshold : Qc).

(** The inner loop adds the positions not yet in a group whose request
    meets the threshold, and only those. *)
Lemma inner_positions_fit request_text (xs : list dict) j group processed :
  ∃ added,
    inner_positions calculate_similarity threshold request_text
      (enumerate j xs) group processed
    = (group ++ added, list_to_set added ∪ processed)
    ∧ StronglySorted lt added
    ∧ Forall (λ a, j ≤ a < j + length xs ∧ a ∉ processed) added
    ∧ (∀ a, a ∈ added →
         ∃ x, xs !! (a - j) = Some x
              ∧ (threshold ≤ calculate_similarity request_text (text_of x))%Qc)
    ∧ (∀ k x, xs !! k = Some x → j + k ∉ list_to_set added ∪ processed →
         ¬ (threshold ≤ calculate_similarity request_text (text_of x))%Qc).
Proof.
  revert j group processed.
  induction xs as [|x xs IH]; intros j group processed; simpl.
  - exists []. rewrite app_nil_r.
    split_and!; [f_equal; set_solver|constructor|constructor| |done].
    by intros a ?%not_elem_of_nil.
  - destruct (decide (j ∈ processed)) as [Hin|Hnotin].
    + destruct (IH (S j) group processed) as (added & -> & Hs & Hb & Hsim & Hnot).
      exists added. split_and!; [done|done| | |].
      * eapply Forall_impl; [exact Hb|]. simpl. intros a ?. split; [lia|tauto].
      * intros a Ha. destruct (Hsim a Ha) as (y & Hy & Hle).
        rewrite Forall_forall in Hb. apply Hb in Ha.
        exists y. split; [|done]. replace (a - j) with (S (a - S j)) by lia. done.
      * intros [|k] y Hk Hout; simpl in Hk.
        -- exfalso. apply Hout. rewrite Nat.add_0_r. set_solver.
        -- apply (Hnot k y Hk). by replace (S j + k) with (j + S k) by lia.
    + case_bool_decide as Hmeets.
      * destruct (IH (S j) (group ++ [j]) ({[j]} ∪ processed))
          as (added & -> & Hs & Hb & Hsim & Hnot).
        exists (j :: added). split_and!.
        -- rewrite <- app_assoc. simpl. f_equal. set_solver.
        -- constructor; [done|].
           eapply Forall_impl; [exact Hb|]. simpl. intros a ?. lia.
        -- constructor; [split; [lia|done]|].
           eapply Forall_impl; [exact Hb|]. simpl. intros a [? Ha].
           split; [lia|]. set_solver.
        -- intros a [->|Ha]%elem_of_cons.
           ++ exists x. by rewrite Nat.sub_diag.
           ++ destruct (Hsim a Ha) as (y & Hy & Hle).
              rewrite Forall_forall in Hb. apply Hb in Ha.
              exists y. split; [|done]. replace (a - j) with (S (a - S j)) by lia. done.
        -- intros [|k] y Hk Hout; simpl in Hk.
           ++ exfalso. apply Hout. rewrite Nat.add_0_r. set_solver.
           ++ apply (Hnot k y Hk). replace (S j + k) with (j + S k) by lia. set_solver.
      * destruct (IH (S j) group processed) as (added & -> & Hs & Hb & Hsim & Hnot).
        exists added. split_and!; [done|done| | |].
        -- eapply Forall_impl; [exact Hb|]. simpl. intros a ?. split; [lia|tauto].
        -- intros a Ha. destruct (Hsim a Ha) as (y & Hy & Hle).
           rewrite Forall_forall in Hb. apply Hb in Ha.
           exists y. split; [|done]. replace (a - j) with (S (a - S j)) by lia. done.
        -- intros [|k] y Hk Hout; simpl in Hk.
           ++ by simplify_eq.
           ++ apply (Hnot k y Hk). by replace (S j + k) with (j + S k) by lia.
Qed.

Lemma fit_inv_open (requests : list dict) i request groups processed added :
  requests !! i = Some request →
  i ∉ processed →
  group_inv (length requests) i groups processed →
  Forall (λ a, S i ≤ a < length requests ∧ a ∉ {[i]} ∪ processed) added →
  (∀ a, a ∈ added →
     ∃ x, drop (S i) requests !! (a - S i) = Some x
          ∧ (threshold ≤ calculate_similarity (text_of request) (text_of x))%Qc) →
  (∀ k x, drop (S i) requests !! k = Some x →
     S i + k ∉ list_to_set added ∪ ({[i]} ∪ processed) →
     ¬ (threshold ≤ calculate_similarity (text_of request) (text_of x))%Qc) →
  fit_inv calculate_similarity threshold requests groups processed →
  fit_inv calculate_similarity threshold requests (groups ++ [[i] ++ added])
    (list_to_set added ∪ ({[i]} ∪ processed)).
Proof.
  intros Hi Hnotin (_ & _ & _ & _ & _ & _ & _ & Hheads) Hadded Hsim Hnot
    [[Hmembers Hpairs] Hrest].
  rewrite Forall_forall in Hadded. rewrite Forall_forall in Hheads.
  rewrite Forall_forall in Hrest.
  assert (text_at requests i = text_of request) as Htext.
  { unfold text_at. by rewrite Hi. }
  assert (∀ k g, g ∈ groups → k ∈ [i] ++ added →
            ¬ similar_at calculate_similarity threshold requests (hd 0 g) k) as Hnew.
  { intros k g Hg Hk. apply (Hrest g Hg).
    - specialize (Hheads g Hg). simpl in Hheads.
      apply lookup_lt_Some in Hi.
      apply elem_of_cons in Hk as [->|Hk%Hadded]; lia.
    - apply elem_of_cons in Hk as [->|Hk%Hadded]; [done|]. set_solver. }
  split; [split|].
  - apply Forall_app. split; [done|]. constructor; [|done]. simpl.
    intros k [->|Hk]%elem_of_cons Hne; [done|].
    destruct (Hsim k Hk) as (x & Hx & Hle). apply Hadded in Hk.
    rewrite lookup_drop in Hx. replace (S i + (k - S i)) with k in Hx by lia.
    unfold similar_at. rewrite Htext. unfold text_at. by rewrite Hx.
  - intros a b ga gb Hab Ha Hb k Hk.
    destruct (decide (b < length groups)) as [Hlt|Hge].
    + rewrite lookup_app_l in Ha by lia. rewrite lookup_app_l in Hb by lia.
      exact (Hpairs a b ga gb Hab Ha Hb k Hk).
    + rewrite lookup_app_r in Hb by lia.
      destruct (b - length groups) as [|?] eqn:Hb'; simpl in Hb; [|done].
      simplify_eq. rewrite lookup_app_l in Ha by lia.
      apply Hnew; [|done]. by eapply list_elem_of_lookup_2.
  - apply Forall_app. split.
    + apply Forall_forall. intros g Hg k Hk Hout. apply (Hrest g Hg k Hk). set_solver.
    + constructor; [|done]. simpl. intros k Hk Hout.
      assert (is_Some (drop (S i) requests !! (k - S i))) as [x Hx].
      { apply lookup_lt_is_Some. rewrite length_drop. lia. }
      unfold similar_at. rewrite Htext. unfold text_at.
      pose proof Hx as Hx'. rewrite lookup_drop in Hx'.
      replace (S i + (k - S i)) with k in Hx' by lia. rewrite Hx'. simpl.
      apply (Hnot (k - S i) x Hx). by replace (S i + (k - S i)) with k by lia.
Qed.

Lemma outer_positions_fit (requests : list dict) xs i groups processed :
  drop i requests = xs →
  group_inv (length requests) i groups processed →
  fit_inv calculate_similarity threshold requests groups processed →
  first_fit calculate_similarity threshold requests
    (outer_positions calculate_similarity threshold requests (enumerate i xs)
       groups processed).
Proof.
  revert i groups processed.
  induction xs as [|x xs IH]; intros i groups processed Hdrop Hinv Hfit; simpl.
  - apply Hfit.
  - apply drop_cons_inv in Hdrop as [Hdrop Hi].
    destruct (decide (i ∈ processed)) as [Hin|Hnotin].
    + apply (IH (S i) groups processed Hdrop); [by apply group_inv_skip|done].
    + rewrite Nat.add_1_r, Hdrop.
      destruct (inner_positions_fit (text_of x) xs (S i) [i] ({[i]} ∪ processed))
        as (added & -> & Hsorted & Hadded & Hsim & Hnot).
      assert (S i + length xs = length requests) as Hlen.
      { rewrite <- Hdrop, length_drop. apply lookup_lt_Some in Hi. lia. }
      assert (Forall (λ a, S i ≤ a < length requests ∧ a ∉ {[i]} ∪ processed) added)
        as Hadded'.
      { eapply Forall_impl; [exact Hadded|]. simpl. intros a ?. split; [lia|tauto]. }
      apply (IH (S i) _ _ Hdrop).
      * apply group_inv_open; try done. by eapply lookup_lt_Some.
      * apply (fit_inv_open requests i x); try done; by rewrite Hdrop.
Qed.

Lemma group_positions_first_fit (requests : list dict) :
  first_fit calculate_similarity threshold requests
    (group_positions calculate_similarity threshold requests).
Proof.
  apply (outer_positions_fit requests requests 0 [] ∅).
  - apply drop_0.
  - split_and!; simpl; try done; try constructor.
    + by intros ?%not_elem_of_empty.
    + by intros ?%not_elem_of_nil.
    + intros k. lia.
  - split; [split|]; [constructor| |constructor].
    intros a b ga gb _ Ha. by rewrite lookup_nil in Ha.
Qed.

End FirstFit.

Lemma StronglySorted_lookup_lt (l : list nat) a b x y :
  StronglySorted lt l → a < b → l !! a = Some x → l !! b = Some y → x < y.
Proof.
  intros Hs. revert a b. induction Hs as [|z l _ IH Hz]; intros a b Hab Ha Hb; [done|].
  destruct a as [|a], b as [|b]; simpl in *; try lia.
  - simplify_eq. rewrite Forall_forall in Hz. apply Hz. by eapply list_elem_of_lookup_2.
  - apply (IH a b); [lia|done|done].
Qed.

(** X4. In both scripts (in the consolidated one, when a model is loaded)
    the groups are made first-fit on the first request of each group: every
    other request of a group meets the threshold against the first request
    of its group, and meets it against the first request of no earlier
    group. *)
Theorem group_similar_requests_first_fit (T : Text.methods) :
  (∀ similarity_matcher requests,
     requests_at requests
       (Windows.group_similar_requests T similarity_matcher requests)
       (Windows.positions T similarity_matcher requests)
     ∧ first_fit (SimpleSimilarityMatcher.calculate_similarity T)
         (SimpleSimilarityMatcher.threshold similarity_matcher) requests
         (Windows.positions T similarity_matcher requests))
  ∧ (∀ ML_AVAILABLE similarity_matcher requests,
       SimbiSimilarityMatcher.model similarity_matcher ≠ None →
       requests_at requests
         (Consolidated.group_similar_requests ML_AVAILABLE similarity_matcher requests)
         (Consolidated.positions ML_AVAILABLE similarity_matcher requests)
       ∧ first_fit
           (SimbiSimilarityMatcher.calculate_similarity ML_AVAILABLE similarity_matcher)
           (SimbiSimilarityMatcher.threshold similarity_matcher) requests
           (Consolidated.positions ML_AVAILABLE similarity_matcher requests)).
Proof.
  split.
  - intros matcher requests. split.
    + apply group_loop_positions.
    + apply group_positions_first_fit.
  - intros ML matcher requests Hmodel.
    unfold Consolidated.group_similar_requests, Consolidated.positions.
    destruct (SimbiSimilarityMatcher.model matcher); [|done]. split.
    + apply group_loop_positions.
    + apply group_positions_first_fit.
Qed.

Lemma group_similar_requests_first_fit_witness :
  SimbiSimilarityMatcher.model Fixture.loaded ≠ None
  ∧ Consolidated.positions true Fixture.loaded Fixture.four_requests = [[0; 2]; [1; 3]]
  ∧ first_fit (SimbiSimilarityMatcher.calculate_similarity true Fixture.loaded)
      (SimbiSimilarityMatcher.threshold Fixture.loaded) Fixture.four_requests
      (Consolidated.positions true Fixture.loaded Fixture.four_requests).
Proof.
  split; [done|]. split; [by vm_compute|].
  apply (proj2 (group_similar_requests_first_fit AsciiText.methods) true Fixture.loaded
           Fixture.four_requests).
  done.
Defined.

Lemma text_of_nonempty (request : dict) : text_of request ≠ "".
Proof. unfold text_of. by destruct (get "user_request_text" "" request). Qed.

Lemma text_of_both_nonempty (request request' : dict) :
  text_of request = "" ↔ text_of request' = "".
Proof. split; intros Hempty; by apply text_of_nonempty in Hempty. Qed.

Lemma same_words_same_positions (T : Text.methods)
    (similarity_matcher : SimpleSimilarityMatcher.t)
    (requests : list dict) (j k : nat) (request_j request_k : dict) :
  j < k →
  requests !! j = Some request_j →
  requests !! k = Some request_k →
  Text.words T (text_of request_j) = Text.words T (text_of request_k) →
  Text.words T (text_of request_j) ≠ ∅ →
  (SimpleSimilarityMatcher.threshold similarity_matcher ≤ 1)%Qc →
  ∃ a, in_group (Windows.positions T similarity_matcher requests) a j
       ∧ in_group (Windows.positions T similarity_matcher requests) a k.
Proof.
  intros Hjk Hj Hk Hwords Hne Hthreshold.
  unfold Windows.positions.
  set (threshold := SimpleSimilarityMatcher.threshold similarity_matcher) in *.
  set (P := group_positions (SimpleSimilarityMatcher.calculate_similarity T) threshold requests).
  destruct (group_loop_partition (SimpleSimilarityMatcher.calculate_similarity T)
              threshold requests) as (_ & _ & Hone & _).
  destruct (group_loop_order (SimpleSimilarityMatcher.calculate_similarity T)
              threshold requests) as (_ & [_ Hheads] & Hleast).
  destruct (group_positions_first_fit (SimpleSimilarityMatcher.calculate_similarity T)
              threshold requests) as [Hmembers Hpairs].
  fold P in Hone, Hheads, Hleast, Hmembers, Hpairs.
  rewrite Forall_forall in Hmembers. unfold opens_with_least in Hleast.
  rewrite Forall_forall in Hleast.
  destruct (Hone j) as (a & (gj & Hgj & Hjin) & _); [by eapply lookup_lt_Some|].
  destruct (Hone k) as (b & (gk & Hgk & Hkin) & _); [by eapply lookup_lt_Some|].
  assert (text_at requests j = text_of request_j) as Htj by (unfold text_at; by rewrite Hj).
  assert (text_at requests k = text_of request_k) as Htk by (unfold text_at; by rewrite Hk).
  assert (∀ h, similar_at (SimpleSimilarityMatcher.calculate_similarity T) threshold requests h j
               ↔ similar_at (SimpleSimilarityMatcher.calculate_similarity T) threshold requests h k)
    as Hsame.
  { intros h. unfold similar_at. rewrite Htj, Htk.
    rewrite (similarity_comm T _ (text_of request_j)),
      (similarity_comm T _ (text_of request_k)).
    rewrite (similarity_depends_on_words_aux T _ _ _ (text_of_both_nonempty _ _) Hwords).
    done. }
  assert (similar_at (SimpleSimilarityMatcher.calculate_similarity T) threshold requests j k)
    as Hjk_sim.
  { unfold similar_at. rewrite Htj, Htk.
    rewrite (proj2 (similarity_one_iff T _ _)); [done|].
    split_and!; [apply text_of_nonempty|apply text_of_nonempty|done|done]. }
  destruct (lt_eq_lt_dec a b) as [[Hab| ->]|Hba].
  - exfalso. apply (Hpairs a b gj gk Hab Hgj Hgk k Hkin).
    destruct (decide (j = hd 0 gj)) as [<-|Hnothead]; [done|].
    apply Hsame. apply (Hmembers gj); [by eapply list_elem_of_lookup_2|done|done].
  - exists b. simplify_eq. split; by exists gj.
  - exfalso.
    destruct (decide (k = hd 0 gk)) as [Hhead|Hnothead].
    + assert (hd 0 gk < hd 0 gj) as Hlt.
      { apply (StronglySorted_lookup_lt (map (hd 0) P) b a); [done|done| |].
        - by rewrite list_lookup_fmap, Hgk.
        - by rewrite list_lookup_fmap, Hgj. }
      assert (hd 0 gj ≤ j) as Hle.
      { specialize (Hleast gj (list_elem_of_lookup_2 _ _ _ Hgj)).
        rewrite Forall_forall in Hleast. by apply Hleast. }
      lia.
    + apply (Hpairs b a gk gj Hba Hgk Hgj j Hjin).
      apply Hsame. apply (Hmembers gk); [by eapply list_elem_of_lookup_2|done|done].
Qed.

Lemma in_group_request requests groups positions a i r :
  requests_at requests groups positions →
  in_group positions a i → requests !! i = Some r →
  ∃ group, groups !! a = Some group ∧ r ∈ group.
Proof.
  intros Hat (gp & Hgp & Hi) Hr.
  destruct (Forall2_lookup_r _ _ _ _ _ Hat Hgp) as (group & Hgroup & Hrel).
  exists group. split; [done|].
  apply list_elem_of_lookup in Hi as [n Hn].
  destruct (Forall2_lookup_r _ _ _ _ _ Hrel Hn) as (r' & Hr' & Hsame).
  rewrite Hr in Hsame. simplify_eq. by eapply list_elem_of_lookup_2.
Qed.

(** X5. In the Windows script with a threshold of at most 1, and whatever
    the Unicode tables behind [lower] and [split], two requests whose
    compared texts have the same words, and at least one word, are put in
    the same group. *)
Theorem same_words_same_group (T : Text.methods)
    (similarity_matcher : SimpleSimilarityMatcher.t)
    (requests : list dict) (j k : nat) (request_j request_k : dict) :
  j < k →
  requests !! j = Some request_j →
  requests !! k = Some request_k →
  Text.words T (text_of request_j) = Text.words T (text_of request_k) →
  Text.words T (text_of request_j) ≠ ∅ →
  (SimpleSimilarityMatcher.threshold similarity_matcher ≤ 1)%Qc →
  ∃ a group,
    Windows.group_similar_requests T similarity_matcher requests !! a = Some group
    ∧ request_j ∈ group ∧ request_k ∈ group
    ∧ in_group (Windows.positions T similarity_matcher requests) a j
    ∧ in_group (Windows.positions T similarity_matcher requests) a k.
Proof.
  intros Hjk Hj Hk Hwords Hne Hthreshold.
  destruct (same_words_same_positions T similarity_matcher requests j k request_j request_k
              Hjk Hj Hk Hwords Hne Hthreshold) as (a & Haj & Hak).
  pose proof (group_loop_positions (SimpleSimilarityMatcher.calculate_similarity T)
                (SimpleSimilarityMatcher.threshold similarity_matcher) requests) as Hat.
  destruct (in_group_request _ _ _ a j request_j Hat Haj Hj) as (group & Hgroup & Hjin).
  destruct (in_group_request _ _ _ a k request_k Hat Hak Hk) as (group' & Hgroup' & Hkin).
  unfold Windows.group_similar_requests. rewrite Hgroup in Hgroup'.
  injection Hgroup' as <-. by exists a, group.
Qed.

Lemma same_words_same_group_witness :
  ∃ a group,
    Windows.group_similar_requests AsciiText.methods (Fixture.token_set (Q2Qc (1 # 2)))
      Fixture.four_requests !! a = Some group
    ∧ Sample.titled "logo design" "need" ∈ group
    ∧ Sample.titled "Logo design" "NEED" ∈ group
    ∧ in_group (Windows.positions AsciiText.methods (Fixture.token_set (Q2Qc (1 # 2)))
        Fixture.four_requests) a 0
    ∧ in_group (Windows.positions AsciiText.methods (Fixture.token_set (Q2Qc (1 # 2)))
        Fixture.four_requests) a 2.
Proof.
  apply (same_words_same_group AsciiText.methods (Fixture.token_set (Q2Qc (1 # 2)))
           Fixture.four_requests 0 2
           (Sample.titled "logo design" "need") (Sample.titled "Logo design" "NEED")).
  - lia.
  - reflexivity.
  - reflexivity.
  - by vm_compute.
  - by vm_compute.
  - by vm_compute.
Defined.

(** ** Thresholds out of range *)

Section ThresholdEdges.

Context (calculate_similarity : string → string → Qc) (threshold : Qc).

Lemma inner_loop_none request_text others group processed :
  (∀ text1 text2, ¬ (threshold ≤ calculate_similarity text1 text2)%Qc) →
  inner_loop calculate_similarity threshold request_text others group processed
  = (group, processed).
Proof.
  intros Hnone. induction others as [|[j other] rest IH]; simpl; [done|].
  destruct (decide (j ∈ processed)); [done|].
  by rewrite bool_decide_eq_false_2.
Qed.

Lemma outer_loop_none (requests xs : list dict) i groups processed :
  (∀ text1 text2, ¬ (threshold ≤ calculate_similarity text1 text2)%Qc) →
  (∀ k, i ≤ k → k ∉ processed) →
  outer_loop calculate_similarity threshold requests (enumerate i xs) groups processed
  = groups ++ map (λ request, [request]) xs.
Proof.
  intros Hnone. revert i groups processed.
  induction xs as [|x xs IH]; intros i groups processed Hfresh; simpl.
  - by rewrite app_nil_r.
  - destruct (decide (i ∈ processed)) as [Hin|_]; [by apply Hfresh in Hin|].
    rewrite inner_loop_none by done.
    rewrite IH, <- app_assoc; [done|].
    intros k Hk [->%elem_of_singleton|Hin]%elem_of_union; [lia|].
    apply (Hfresh k); [lia|done].
Qed.

Lemma inner_loop_all request_text (xs : list dict) j group processed :
  (∀ text1 text2, (threshold ≤ calculate_similarity text1 text2)%Qc) →
  (∀ k, j ≤ k → k ∉ processed) →
  inner_loop calculate_similarity threshold request_text (enumerate j xs) group processed
  = (group ++ xs, list_to_set (seq j (length xs)) ∪ processed).
Proof.
  intros Hall. revert j group processed.
  induction xs as [|x xs IH]; intros j group processed Hfresh; simpl.
  - rewrite app_nil_r. f_equal. set_solver.
  - destruct (decide (j ∈ processed)) as [Hin|_]; [by apply Hfresh in Hin|].
    rewrite bool_decide_eq_true_2 by done.
    rewrite IH.
    + rewrite <- app_assoc. simpl. f_equal. set_solver.
    + intros k Hk [->%elem_of_singleton|Hin]%elem_of_union; [lia|].
      apply (Hfresh k); [lia|done].
Qed.

Lemma outer_loop_skip (requests : list dict) items groups processed :
  Forall (λ p : nat * dict, p.1 ∈ processed) items →
  outer_loop calculate_similarity threshold requests items groups processed = groups.
Proof.
  induction 1 as [|[i request] items Hin _ IH]; simpl; [done|].
  simpl in Hin. by destruct (decide (i ∈ processed)).
Qed.

Lemma enumerate_positions {A} (xs : list A) j :
  Forall (λ p : nat * A, j ≤ p.1 < j + length xs) (enumerate j xs).
Proof.
  revert j. induction xs as [|x xs IH]; intros j; simpl; constructor.
  - simpl. lia.
  - eapply Forall_impl; [apply IH|]. simpl. intros p ?. lia.
Qed.

Lemma group_loop_none requests :
  (∀ text1 text2, ¬ (threshold ≤ calculate_similarity text1 text2)%Qc) →
  group_loop calculate_similarity threshold requests
  = map (λ request, [request]) requests.
Proof.
  intros Hnone. unfold group_loop. rewrite outer_loop_none; [done|done|].
  intros k _. apply not_elem_of_empty.
Qed.

Lemma group_loop_all requests :
  (∀ text1 text2, (threshold ≤ calculate_similarity text1 text2)%Qc) →
  requests ≠ [] →
  group_loop calculate_similarity threshold requests = [requests].
Proof.
  intros Hall Hne. destruct requests as [|request rest]; [done|].
  unfold group_loop. simpl.
  rewrite decide_False by apply not_elem_of_empty.
  rewrite drop_0, inner_loop_all; [|done|].
  - rewrite outer_loop_skip; [done|].
    eapply Forall_impl; [apply enumerate_positions|]. simpl. intros p Hp.
    apply elem_of_union_l, elem_of_list_to_set, elem_of_seq. lia.
  - intros k Hk [->%elem_of_singleton|Hin%not_elem_of_empty]%elem_of_union; [lia|done].
Qed.

End ThresholdEdges.

(** X6. In the Windows script a threshold above 1 is never met: every
    request is put in a group of its own. *)
Theorem threshold_above_one_separates (T : Text.methods)
    (similarity_matcher : SimpleSimilarityMatcher.t) (requests : list dict) :
  (1 < SimpleSimilarityMatcher.threshold similarity_matcher)%Qc →
  Windows.group_similar_requests T similarity_matcher requests
  = map (λ request, [request]) requests.
Proof.
  intros Hthreshold. apply group_loop_none.
  intros text1 text2 Hle.
  destruct (similarity_bounds T text1 text2) as [_ Hone].
  apply (Qcle_not_lt _ _ (Qcle_trans _ _ _ Hle Hone)). done.
Qed.

Lemma threshold_above_one_separates_witness :
  (1 < Q2Qc (3 # 2))%Qc
  ∧ Windows.group_similar_requests AsciiText.methods (Fixture.token_set (Q2Qc (3 # 2)))
      Fixture.four_requests
    = map (λ request, [request]) Fixture.four_requests.
Proof.
  split; [reflexivity|].
  apply (threshold_above_one_separates AsciiText.methods (Fixture.token_set (Q2Qc (3 # 2)))
           Fixture.four_requests).
  reflexivity.
Defined.

(** X7. In the Windows script a threshold of 0 or less is always met: all
    the requests of a non-empty input are put in one group, in input
    order. *)
Theorem threshold_zero_merges (T : Text.methods) (similarity_matcher : SimpleSimilarityMatcher.t)
    (requests : list dict) :
  (SimpleSimilarityMatcher.threshold similarity_matcher ≤ 0)%Qc →
  requests ≠ [] →
  Windows.group_similar_requests T similarity_matcher requests = [requests].
Proof.
  intros Hthreshold Hne. apply group_loop_all; [|done].
  intros text1 text2.
  destruct (similarity_bounds T text1 text2) as [Hzero _].
  by eapply Qcle_trans.
Qed.

Lemma threshold_zero_merges_witness :
  (0 ≤ 0)%Qc
  ∧ Fixture.four_requests ≠ []
  ∧ Windows.group_similar_requests AsciiText.methods (Fixture.token_set 0%Qc) Fixture.four_requests
    = [Fixture.four_requests].
Proof.
  split; [by vm_compute|]. split; [done|].
  apply (threshold_zero_merges AsciiText.methods (Fixture.token_set 0%Qc) Fixture.four_requests).
  - by vm_compute.
  - done.
Defined.

(** ** More on the ledger *)

Lemma row_of_nonempty data : SimbiDataManager.row_of data ≠ [].
Proof. done. Qed.

Lemma filter_rows_of (datas : list dict) :
  filter (λ row, row ≠ []) (map SimbiDataManager.row_of datas)
  = map SimbiDataManager.row_of datas.
Proof.
  induction datas as [|data datas IH]; [done|].
  simpl. rewrite filter_cons_True by done. by rewrite IH.
Qed.

Lemma add_links_app sent rows1 rows2 :
  add_links sent (rows1 ++ rows2) = add_links (add_links sent rows1) rows2.
Proof. apply foldl_app. Qed.

Lemma add_links_mono sent rows : sent ⊆ add_links sent rows.
Proof.
  revert sent. induction rows as [|row rows IH]; intros sent; simpl; [done|].
  etrans; [|apply IH]. destruct (row !! "link"); set_solver.
Qed.

Lemma add_links_take sent rows k : add_links sent (take k rows) ⊆ add_links sent rows.
Proof.
  rewrite <- (take_drop k rows) at 2. rewrite add_links_app. apply add_links_mono.
Qed.

Lemma add_links_rows_of sent (datas : list dict) :
  add_links sent
    (map (SimbiDataManager.row_dict SimbiDataManager.fieldnames)
       (map SimbiDataManager.row_of datas))
  = list_to_set (map (λ data, Some (get "link" "" data)) datas) ∪ sent.
Proof.
  revert sent. induction datas as [|data datas IH]; intros sent; simpl.
  - set_solver.
  - rewrite row_dict_link. change (foldl _ ?a ?l) with (add_links a l).
    rewrite IH. set_solver.
Qed.

Lemma load_sent_messages_eq read_fault rows sent :
  (SimbiDataManager.load_sent_messages read_fault (Some rows) sent).1
  = add_links sent (match read_fault with
                    | None => SimbiDataManager.DictReader rows
                    | Some k => take k (SimbiDataManager.DictReader rows)
                    end).
Proof. unfold SimbiDataManager.load_sent_messages. by destruct read_fault. Qed.

Lemma elem_of_add_links sent (rows : list (gmap string (option string))) link :
  link ∈ add_links sent rows
  ↔ link ∈ sent ∨ ∃ row, row ∈ rows ∧ row !! "link" = Some link.
Proof.
  revert sent. induction rows as [|row rows IH]; intros sent; simpl.
  - split; [by left|]. intros [?|(? & Hin & _)]; [done|]. by apply not_elem_of_nil in Hin.
  - change (foldl _ ?a ?l) with (add_links a l). rewrite IH. split.
    + intros [Hin|(row' & Hin & Hlink)].
      * destruct (row !! "link") as [link'|] eqn:Hrow; [|by left].
        apply elem_of_union in Hin as [->%elem_of_singleton|Hin]; [|by left].
        right. exists row. split; [by left|done].
      * right. exists row'. split; [by right|done].
    + intros [Hin|(row' & Hin & Hlink)].
      * left. destruct (row !! "link"); set_solver.
      * apply elem_of_cons in Hin as [->|Hin].
        -- left. rewrite Hlink. set_solver.
        -- right. by exists row'.
Qed.

(** X9. [load_sent_messages] is fail-soft: it only adds to the set, and a
    read error costs the rows after it, no more. With a read error after
    [k] rows were handed out it prints the error and has loaded the links
    of those [k] rows; whatever it loads is a link the set held before or
    the link of a row handed out; so it loads a subset of what an error-free
    read loads, and nothing from an absent file. *)
Theorem load_is_fail_soft (read_fault : option nat) (file : csv)
    (sent : gset (option string)) :
  let loaded := (SimbiDataManager.load_sent_messages read_fault file sent).1 in
  let handed_out rows :=
    match read_fault with
    | None => SimbiDataManager.DictReader rows
    | Some k => take k (SimbiDataManager.DictReader rows)
    end in
  sent ⊆ loaded
  ∧ loaded ⊆ (SimbiDataManager.load_sent_messages None file sent).1
  ∧ (file = None →
     SimbiDataManager.load_sent_messages read_fault file sent = (sent, []))
  ∧ (∀ rows, file = Some rows →
     (SimbiDataManager.load_sent_messages read_fault file sent).2
     = match read_fault with
       | Some _ => [ErrorLoadingSentMessages]
       | None => []
       end
     ∧ ∀ link, link ∈ loaded
               ↔ link ∈ sent
                 ∨ ∃ row, row ∈ handed_out rows ∧ row !! "link" = Some link).
Proof.
  intros loaded handed_out. unfold loaded.
  destruct file as [rows|]; [|by split_and!].
  rewrite !load_sent_messages_eq. split_and!; [| |done|].
  - apply add_links_mono.
  - destruct read_fault; [apply add_links_take|done].
  - intros ? [= <-]. split.
    + unfold SimbiDataManager.load_sent_messages. by destruct read_fault.
    + intros link. apply elem_of_add_links.
Qed.

Lemma load_is_fail_soft_witness :
  let rows :=
    [SimbiDataManager.fieldnames;
     ["2024-05-01T10:00:00"; "Ann"; "Logo design"; "https://site/x/1"; ""; ""];
     ["2024-05-02T10:00:00"; "Bob"; "Plumber"; "https://site/x/2"; ""; ""]] in
  let loading := SimbiDataManager.load_sent_messages (Some 1) (Some rows) ∅ in
  loading.1 = {[Some "https://site/x/1"]}
  ∧ loading.2 = [ErrorLoadingSentMessages]
  ∧ ∀ link, link ∈ loading.1
            ↔ link ∈ (∅ : gset (option string))
              ∨ ∃ row, row ∈ take 1 (SimbiDataManager.DictReader rows)
                       ∧ row !! "link" = Some link.
Proof.
  intros rows loading. split; [by vm_compute|].
  exact (proj2 (proj2 (proj2 (load_is_fail_soft (Some 1) (Some rows) ∅))) rows eq_refl).
Defined.

Lemma row_dict_no_link fieldnames row :
  "link" ∉ fieldnames → SimbiDataManager.row_dict fieldnames row !! "link" = None.
Proof.
  intros Hno. unfold SimbiDataManager.row_dict.
  assert (∀ (keys : list string) (d : gmap string (option string)),
            "link" ∉ keys → d !! "link" = None →
            foldl (λ d key, <[key := None]> d) d keys !! "link" = None) as Hrest.
  { induction keys as [|key keys IH]; intros d Hkeys Hd; simpl; [done|].
    apply IH; [set_solver|]. rewrite lookup_insert_ne; [done|]. set_solver. }
  apply Hrest.
  { intros Hin. apply Hno. eapply elem_of_submseteq; [exact Hin|].
    apply sublist_submseteq, sublist_drop. }
  assert (∀ (kvs : list (string * string)) (d : gmap string (option string)),
            "link" ∉ kvs.*1 → d !! "link" = None →
            foldl (λ d kv, <[kv.1 := Some kv.2]> d) d kvs !! "link" = None) as Hzip.
  { induction kvs as [|[key v] kvs IH]; intros d Hkeys Hd; simpl; [done|].
    apply IH; [set_solver|]. rewrite lookup_insert_ne; [done|]. set_solver. }
  apply Hzip; [|done].
  intros Hin. apply Hno. clear -Hin. revert row Hin.
  induction fieldnames as [|key keys IH]; intros [|cell row] Hin; simpl in *;
    try by apply not_elem_of_nil in Hin.
  apply elem_of_cons in Hin as [->|Hin]; [by left|]. right. by eapply IH.
Qed.

Lemma add_links_no_link sent (fieldnames : list string) (rows : list (list string)) :
  "link" ∉ fieldnames →
  add_links sent (map (SimbiDataManager.row_dict fieldnames) rows) = sent.
Proof.
  intros Hno. revert sent. induction rows as [|row rows IH]; intros sent; simpl; [done|].
  rewrite row_dict_no_link by done. apply IH.
Qed.

(** X10. A ledger file whose first row has no cell [link] gives no link,
    whatever its other rows hold: [load_sent_messages] leaves the set as it
    was. *)
Theorem load_needs_link_header (read_fault : option nat) (first : list string)
    (rows : list (list string)) (sent : gset (option string)) :
  "link" ∉ first →
  (SimbiDataManager.load_sent_messages read_fault (Some (first :: rows)) sent).1 = sent.
Proof.
  intros Hno. rewrite load_sent_messages_eq. unfold SimbiDataManager.DictReader.
  destruct read_fault as [k|].
  - rewrite <- fmap_take. by apply add_links_no_link.
  - by apply add_links_no_link.
Qed.

Lemma load_needs_link_header_witness :
  ("link" ∉ ["2024-05-01T10:00:00"; "Ann"; "Logo design"; "https://site/x/1"; ""; ""])
  ∧ (SimbiDataManager.load_sent_messages None
       (Some [["2024-05-01T10:00:00"; "Ann"; "Logo design"; "https://site/x/1"; ""; ""];
              ["2024-05-02T10:00:00"; "Bob"; "Plumber"; "https://site/x/2"; ""; ""]])
       ∅).1 = ∅.
Proof.
  assert ("link" ∉ ["2024-05-01T10:00:00"; "Ann"; "Logo design"; "https://site/x/1"; "";
                    ""]) as Hno.
  { intros Hin. repeat (apply elem_of_cons in Hin as [Hin|Hin]; [done|]).
    by apply not_elem_of_nil in Hin. }
  split; [exact Hno|].
  by apply (load_needs_link_header None _ _ ∅).
Defined.

Lemma wrong_fields_timestamp now data :
  SimbiDataManager.wrong_fields (<["timestamp" := now]> data)
  = SimbiDataManager.wrong_fields data.
Proof.
  unfold SimbiDataManager.wrong_fields. f_equal. apply bool_decide_ext.
  rewrite dom_insert_L. unfold SimbiDataManager.fieldnames. set_solver.
Qed.

(** What [record_sent_message] does when the file system has no fault. *)
Lemma record_sent_message_no_fault F data s :
  fault_at F (appends s) = NoFault →
  ∃ s',
    SimbiDataManager.record_sent_message F data s
    = (Ok (<["timestamp" := now_isoformat F (appends s)]> data), s')
    ∧ calls s' = calls s
    ∧ if SimbiDataManager.wrong_fields data
      then output s' = output s ++ [ErrorRecordingSentMessage]
           ∧ sent_messages s' = sent_messages s
           ∧ csv_file s' = Some (with_header (csv_file s))
      else output s' = output s
           ∧ sent_messages s' = with_link data (sent_messages s)
           ∧ csv_file s'
             = Some (with_header (csv_file s)
                     ++ [SimbiDataManager.row_of
                           (<["timestamp" := now_isoformat F (appends s)]> data)]).
Proof.
  intros Hfault. unfold SimbiDataManager.record_sent_message, with_link.
  rewrite Hfault, wrong_fields_timestamp.
  rewrite (lookup_insert_ne data "timestamp" "link") by done.
  destruct (csv_file s) as [rows|] eqn:Hfile; simpl;
    destruct (SimbiDataManager.wrong_fields data); simpl;
    try (destruct (data !! "link"); simpl);
    eexists; (split; [reflexivity|]); simpl; rewrite ?Hfile; done.
Qed.

Lemma file_links_absent : file_links None = ∅.
Proof. done. Qed.

Lemma file_links_header : file_links (Some [SimbiDataManager.fieldnames]) = ∅.
Proof. done. Qed.

Lemma file_links_append before data :
  file_links (Some ((SimbiDataManager.fieldnames :: before) ++ [SimbiDataManager.row_of data]))
  = {[Some (get "link" "" data)]} ∪ file_links (Some (SimbiDataManager.fieldnames :: before)).
Proof.
  unfold file_links, SimbiDataManager.init.
  rewrite !load_sent_messages_eq. simpl.
  rewrite filter_app, fmap_app, add_links_app. simpl.
  by rewrite row_dict_link.
Qed.

Lemma mirrors_file_ledger s s' :
  ledger_of s' = ledger_of s → mirrors_file s → mirrors_file s'.
Proof. unfold ledger_of, mirrors_file. intros [= -> -> _]. done. Qed.

Lemma record_sent_message_mirrors F data s :
  fault_at F (appends s) = NoFault →
  is_Some (data !! "link") →
  mirrors_file s →
  mirrors_file (SimbiDataManager.record_sent_message F data s).2.
Proof.
  intros Hfault [link Hlink] [Hformat Hsent].
  destruct (record_sent_message_no_fault F data s Hfault) as (s' & -> & _ & Hcases).
  simpl. unfold mirrors_file.
  assert (∃ before, with_header (csv_file s) = SimbiDataManager.fieldnames :: before
                    ∧ file_links (csv_file s)
                      = file_links (Some (SimbiDataManager.fieldnames :: before)))
    as (before & Hbefore & Hlinks).
  { destruct Hformat as [->|[rows ->]]; simpl; eauto. }
  destruct (SimbiDataManager.wrong_fields data).
  - destruct Hcases as (_ & -> & ->). rewrite Hbefore. split.
    + right. eauto.
    + by rewrite Hsent, Hlinks.
  - destruct Hcases as (_ & -> & ->). rewrite Hbefore. split.
    + right. by exists (before ++ [SimbiDataManager.row_of
                                    (<["timestamp" := now_isoformat F (appends s)]> data)]).
    + rewrite file_links_append. unfold with_link, get.
      rewrite lookup_insert_ne by done. by rewrite Hlink, Hsent, Hlinks.
Qed.

Section MirrorFacts.

Context (B : Browser) (F : FileSystem) (config : Config.t).

Lemma send_message_mirrors request_data s :
  no_fault F →
  is_Some (request_data !! "link") →
  mirrors_file s →
  mirrors_file (SimbiAutomation.send_message B F config request_data s).2.
Proof.
  intros Hfault Hlink Hmirrors.
  destruct (send_message_cases B F config request_data s)
    as (sent & request_data' & s' & -> &
        [(_ & _ & Hsame)|(_ & text & s1 & s2 & Hs1 & Hrec & ->)]); simpl.
  - by eapply mirrors_file_ledger.
  - pose proof (record_sent_message_mirrors F (<["message_sent" := text]> request_data) s1)
      as Hrecord.
    rewrite Hrec in Hrecord. simpl in Hrecord.
    eapply (mirrors_file_ledger s2); [done|]. apply Hrecord.
    + apply Hfault.
    + destruct Hlink as [link Hlink]. exists link. by rewrite lookup_insert_ne.
    + by eapply mirrors_file_ledger.
Qed.

Lemma send_each_mirrors requests_data sent_count s :
  no_fault F →
  Forall (λ request_data : dict, is_Some (request_data !! "link")) requests_data →
  mirrors_file s →
  mirrors_file (SimbiAutomation.send_each B F config requests_data sent_count s).2.
Proof.
  intros Hfault Hlinks. revert sent_count s.
  induction Hlinks as [|request_data rest Hlink _ IH]; intros sent_count s Hmirrors; simpl.
  - done.
  - pose proof (send_message_mirrors request_data s Hfault Hlink Hmirrors) as Hfirst.
    destruct (SimbiAutomation.send_message B F config request_data s)
      as [[sent request_data'] s'].
    specialize (IH (if sent then sent_count + 1 else sent_count) s' Hfirst).
    by destruct (SimbiAutomation.send_each B F config rest _ s') as [[count rest'] s''].
Qed.

End MirrorFacts.

(** X11. The set in memory mirrors the file. When nothing is in the way of
    the appends (no exception of the file system, and the file, where it
    exists, ends with a line terminator) and every request has a [link] key, a run of sends
    that starts with the ledger file in the written format (absent, or
    headed by the header row) and with the set of sent links equal to what
    a reload of the file gives, ends in such a state: a later run that
    reads the file starts from exactly the links this run knows. *)
Theorem ledger_mirrors_file (B : Browser) (F : FileSystem) (config : Config.t)
    (requests_data : list dict) (sent_count : nat) (s : state) :
  no_fault F →
  Forall (λ request_data : dict, is_Some (request_data !! "link")) requests_data →
  mirrors_file s →
  let s' := (SimbiAutomation.send_each B F config requests_data sent_count s).2 in
  mirrors_file s' ∧ sent_messages (reloaded (csv_file s')) = sent_messages s'.
Proof.
  intros Hfault Hlinks Hmirrors s'.
  pose proof (send_each_mirrors B F config requests_data sent_count s Hfault Hlinks Hmirrors)
    as Hend.
  split; [done|]. destruct Hend as [_ Hsent]. symmetry. exact Hsent.
Qed.

Lemma ledger_mirrors_file_witness :
  let s := Sample.start ∅ None in
  let s' :=
    (SimbiAutomation.send_each Sample.browser (Sample.files NoFault) Sample.config
       [Sample.request; Sample.request] 0 s).2 in
  no_fault (Sample.files NoFault)
  ∧ Forall (λ request_data : dict, is_Some (request_data !! "link"))
      [Sample.request; Sample.request]
  ∧ mirrors_file s
  ∧ mirrors_file s' ∧ sent_messages (reloaded (csv_file s')) = sent_messages s'.
Proof.
  intros s s'.
  assert (no_fault (Sample.files NoFault)) as Hfault by done.
  assert (Forall (λ request_data : dict, is_Some (request_data !! "link"))
            [Sample.request; Sample.request]) as Hlinks.
  { repeat constructor; by eexists. }
  assert (mirrors_file s) as Hmirrors by (split; [by left|done]).
  split_and!; [done|done|done|..];
    apply (ledger_mirrors_file Sample.browser (Sample.files NoFault) Sample.config
             [Sample.request; Sample.request] 0 s Hfault Hlinks Hmirrors).
Defined.

(** X12. A request with a key that is none of the six column names (a
    [similarity_score], say) is never recorded: whatever the file system
    does, [record_sent_message] prints the error, leaves the set of sent
    links as it was and appends no row for it (a new file gets at most its
    header). *)
Theorem foreign_key_is_not_recorded (F : FileSystem) (data : dict) (s : state) :
  SimbiDataManager.wrong_fields data = true →
  let s' := (SimbiDataManager.record_sent_message F data s).2 in
  append_fails F data s
  ∧ sent_messages s' = sent_messages s
  ∧ (csv_file s' = csv_file s
     ∨ (csv_file s = None
        ∧ (csv_file s' = Some [] ∨ csv_file s' = Some [SimbiDataManager.fieldnames]))).
Proof.
  intros Hwrong s'. unfold s', append_fails, SimbiDataManager.record_sent_message.
  rewrite wrong_fields_timestamp, Hwrong.
  destruct (fault_at F (appends s)) as [| | | | |glued], (csv_file s) as [rows|] eqn:Hfile;
    simpl; rewrite ?Hfile; simpl; split_and!; try done; eauto.
Qed.

Lemma foreign_key_is_not_recorded_witness :
  let data := <["similarity_score" := "0.9"]> Sample.request in
  let s := Sample.start ∅ None in
  SimbiDataManager.wrong_fields data = true
  ∧ sent_messages (SimbiDataManager.record_sent_message (Sample.files NoFault) data s).2
    = sent_messages s.
Proof.
  intros data s. split; [reflexivity|].
  apply (foreign_key_is_not_recorded (Sample.files NoFault) data s). reflexivity.
Defined.

(** ** What the extraction and the crawl do to the browser *)

Section CallFrames.

Context {A B : Type} (P : call → Prop).

Lemma calls_only_ret (a : A) : calls_only P (ret a).
Proof. intros s. exists []. by rewrite app_nil_r. Qed.

Lemma calls_only_bind (c : M A) (k : A → M B) :
  calls_only P c → (∀ a, calls_only P (k a)) → calls_only P (bind c k).
Proof.
  intros Hc Hk s. unfold bind. destruct (Hc s) as (more & Hmore & HP).
  destruct (c s) as [[a|e] s1]; simpl in *; [|by exists more].
  destruct (Hk a s1) as (more' & Hmore' & HP').
  exists (more ++ more'). rewrite Hmore', Hmore, app_assoc. split; [done|].
  by apply Forall_app.
Qed.

Lemma calls_only_first_match (attempt : string → M A) selectors :
  (∀ selector, calls_only P (attempt selector)) →
  calls_only P (first_match attempt selectors).
Proof.
  intros Hattempt. induction selectors as [|selector rest IH]; intros s; simpl.
  { exists []. by rewrite app_nil_r. }
  destruct (Hattempt selector s) as (more & Hmore & HP).
  destruct (attempt selector s) as [[a|[]] s1]; simpl in *; try by exists more.
  destruct (IH s1) as (more' & Hmore' & HP').
  exists (more ++ more'). rewrite Hmore', Hmore, app_assoc. split; [done|].
  by apply Forall_app.
Qed.

End CallFrames.

(** A browser primitive makes its one call. *)
Ltac one_call := intros s; eexists [_]; split; [done|]; by constructor.

Section ExtractionCalls.

Context (T : Text.methods) (B : Browser).

Lemma text_of_first_reads element selectors :
  calls_only read_only (SimbiAutomation.text_of_first T B element selectors).
Proof.
  apply calls_only_first_match. intros selector.
  apply calls_only_bind; [one_call|]. intros found.
  apply calls_only_bind; [one_call|]. intros t.
  apply calls_only_ret.
Qed.

Lemma href_of_first_reads element selectors :
  calls_only read_only (SimbiAutomation.href_of_first B element selectors).
Proof.
  apply calls_only_first_match. intros selector.
  apply calls_only_bind; [one_call|]. intros found.
  one_call.
Qed.

Lemma build_reads element : calls_only read_only (SimbiAutomation.build T B element).
Proof.
  unfold SimbiAutomation.build.
  apply calls_only_bind; [apply text_of_first_reads|]. intros title.
  apply calls_only_bind; [apply text_of_first_reads|]. intros user.
  apply calls_only_bind; [apply text_of_first_reads|]. intros desc.
  apply calls_only_bind; [apply href_of_first_reads|]. intros link.
  apply calls_only_ret.
Qed.

Lemma build_keeps_ledger element : keeps_ledger (SimbiAutomation.build T B element).
Proof.
  assert (∀ selectors, keeps_ledger (SimbiAutomation.text_of_first T B element selectors))
    as Htext.
  { intros selectors. apply keeps_ledger_first_match. intros selector.
    apply keeps_ledger_bind; [apply find_element_frame|]. intros found.
    apply keeps_ledger_bind; [apply text_frame|]. intros t. apply keeps_ledger_ret. }
  unfold SimbiAutomation.build.
  apply keeps_ledger_bind; [apply Htext|]. intros title.
  apply keeps_ledger_bind; [apply Htext|]. intros user.
  apply keeps_ledger_bind; [apply Htext|]. intros desc.
  apply keeps_ledger_bind; [|intros link; apply keeps_ledger_ret].
  apply keeps_ledger_first_match. intros selector.
  apply keeps_ledger_bind; [apply find_element_frame|]. intros found.
  apply get_attribute_frame.
Qed.

Lemma request_of_extracted title user desc link :
  title ≠ "" → link ≠ "" → extracted (request_of title user desc link).
Proof.
  intros Htitle Hlink. unfold request_of. split_and!.
  - exists title. split; [|done].
    destruct user, desc; by rewrite ?lookup_insert_ne, lookup_insert_eq by done.
  - exists link. split; [|done]. by rewrite lookup_insert_eq.
  - destruct user, desc; rewrite !dom_insert_L, dom_empty_L; set_solver.
Qed.

(** Every way the body of the loop over the listing elements can go. *)
Lemma extract_element_adds requests element s :
  ∃ requests' s',
    SimbiAutomation.extract_element T B requests element s = (requests', s')
    ∧ (requests' = requests
       ∨ ∃ request, extracted request ∧ requests' = requests ++ [request])
    ∧ ledger_of s' = ledger_of s
    ∧ ∃ more, calls s' = calls s ++ more ∧ Forall read_only more.
Proof.
  unfold SimbiAutomation.extract_element.
  pose proof (build_keeps_ledger element s) as Hledger.
  destruct (build_reads element s) as (more & Hmore & Hread).
  destruct (SimbiAutomation.build T B element s) as [[request_data|e] s'] eqn:Hbuild;
    simpl in *; cycle 1.
  { eexists _, _. split; [done|]. split_and!; [by left|done|by exists more]. }
  destruct (SimbiAutomation.essential request_data) eqn:Hessential; cycle 1.
  { eexists _, _. split; [done|]. split_and!; [by left|done|by exists more]. }
  eexists _, _. split; [done|]. split_and!; [|done|by exists more].
  right. exists (SimbiAutomation.as_request request_data). split; [|done].
  rewrite build_cases in Hbuild.
  destruct (SimbiAutomation.text_of_first T B element SimbiAutomation.title_selectors s)
    as [[title|?] s1]; [|done].
  destruct (SimbiAutomation.text_of_first T B element SimbiAutomation.user_selectors s1)
    as [[user|?] s2]; [|done].
  destruct (SimbiAutomation.text_of_first T B element SimbiAutomation.desc_selectors s2)
    as [[desc|?] s3]; [|done].
  destruct (SimbiAutomation.href_of_first B element SimbiAutomation.link_selectors s3)
    as [[link|?] s4]; [|done].
  injection Hbuild as <- <-.
  rewrite essential_built in Hessential.
  apply andb_true_iff in Hessential as [Htitle Hlink].
  destruct title as [title|]; [|done]. destruct link as [[link|]|]; try done.
  simpl in Htitle, Hlink. rewrite as_request_built.
  apply request_of_extracted.
  - by apply negb_true_iff, bool_decide_eq_false in Htitle.
  - by apply negb_true_iff, bool_decide_eq_false in Hlink.
Qed.

Lemma extract_elements_adds requests request_elements s :
  Forall extracted requests →
  ∃ requests' s',
    SimbiAutomation.extract_elements T B requests request_elements s = (requests', s')
    ∧ Forall extracted requests'
    ∧ length requests' ≤ length requests + length request_elements
    ∧ ledger_of s' = ledger_of s
    ∧ ∃ more, calls s' = calls s ++ more ∧ Forall read_only more.
Proof.
  revert requests s. induction request_elements as [|element rest IH];
    intros requests s Hreq; simpl.
  - eexists _, _. split; [done|]. split_and!; [done|lia|done|].
    exists []. by rewrite app_nil_r.
  - destruct (extract_element_adds requests element s)
      as (requests1 & s1 & -> & Hadd & Hledger & more & Hmore & Hread).
    assert (Forall extracted requests1 ∧ length requests1 ≤ S (length requests))
      as [Hreq1 Hlen1].
    { destruct Hadd as [->|(request & Hrequest & ->)]; [split; [done|lia]|].
      split; [apply Forall_app; split; [done|by constructor]|].
      rewrite length_app. simpl. lia. }
    destruct (IH requests1 s1 Hreq1)
      as (requests' & s' & -> & Hreq' & Hlen & Hledger' & more' & Hmore' & Hread').
    eexists _, _. split; [done|]. split_and!; [done|lia|congruence|].
    exists (more ++ more'). rewrite Hmore', Hmore, app_assoc. split; [done|].
    by apply Forall_app.
Qed.

End ExtractionCalls.

Lemma extraction_reads_and_filters_aux (T : Text.methods) (B : Browser) (s : state) :
  let requests := (SimbiAutomation.extract_requests_from_page T B s).1 in
  let s' := (SimbiAutomation.extract_requests_from_page T B s).2 in
  Forall extracted requests
  ∧ (∃ more, calls s' = calls s ++ more ∧ Forall read_only more)
  ∧ ledger_of s' = ledger_of s
  ∧ match on_wait_all_present B (calls s) ".request-item, .card, .listing" with
    | Ok request_elements => length requests ≤ length request_elements
    | Raise _ => requests = []
    end.
Proof.
  unfold SimbiAutomation.extract_requests_from_page, SimbiAutomation.wait_all_present.
  destruct (on_wait_all_present B (calls s) _) as [request_elements|e]; simpl.
  - destruct (extract_elements_adds T B [] request_elements
                (add_call (WaitAllPresent ".request-item, .card, .listing") s))
      as (requests' & s' & -> & Hreq & Hlen & Hledger & more & Hmore & Hread);
      [constructor|].
    simpl in *. split_and!; [done| |done|lia].
    exists (WaitAllPresent ".request-item, .card, .listing" :: more).
    rewrite Hmore, <- app_assoc. split; [done|]. by constructor.
  - split_and!; [constructor| |done|done].
    exists [WaitAllPresent ".request-item, .card, .listing"]. split; [done|].
    by constructor.
Qed.

(** X13. [extract_requests_from_page] only reads the page: the calls it
    makes are look-ups and reads of text and attributes, never a
    navigation, a click or typing, and it leaves the ledger alone. Every
    request it returns has a non-empty title and a non-empty link and no
    key besides [request_title], [user_name], [user_request_text] and
    [link]; there is at most one request per listing element found, and
    none when waiting for the elements raises. *)
Theorem extraction_reads_and_filters (T : Text.methods) (B : Browser) (s : state) :
  let requests := (SimbiAutomation.extract_requests_from_page T B s).1 in
  let s' := (SimbiAutomation.extract_requests_from_page T B s).2 in
  Forall extracted requests
  ∧ (∃ more, calls s' = calls s ++ more ∧ Forall read_only more)
  ∧ ledger_of s' = ledger_of s
  ∧ match on_wait_all_present B (calls s) ".request-item, .card, .listing" with
    | Ok request_elements => length requests ≤ length request_elements
    | Raise _ => requests = []
    end.
Proof. apply extraction_reads_and_filters_aux. Qed.

(** ** [go_to_next_page] and the crawl *)

Section NextPageFacts.

Context (B : Browser).

Lemma clicks_enabled_only_app base more1 more2 :
  clicks_enabled_only B base more1 →
  clicks_enabled_only B (base ++ more1) more2 →
  clicks_enabled_only B base (more1 ++ more2).
Proof.
  intros H1 H2 pre element post Heq.
  apply app_eq_inv in Heq as [(k & -> & Hk)|(k & -> & ->)].
  - destruct k as [|c k]; simpl in *.
    + destruct (H2 [] element post) as (pre' & Hpre & _); [done|].
      by destruct pre'.
    + simplify_eq. by apply (H1 pre element k).
  - destruct (H2 k element post) as (pre' & -> & Hen); [done|].
    exists (more1 ++ pre'). by rewrite !app_assoc.
Qed.

Lemma clicks_enabled_only_none base more :
  Forall (λ c, ∀ element, c ≠ Click element) more → clicks_enabled_only B base more.
Proof.
  intros Hnone pre element post ->. apply Forall_app in Hnone as [_ Hnone].
  apply Forall_cons in Hnone as [Hnone _]. by destruct (Hnone element).
Qed.

(** One selector of [go_to_next_page]. *)
Lemma try_next_spec selector s :
  ∃ more,
    calls (SimbiAutomation.try_next B selector s).2 = calls s ++ more
    ∧ Forall stays_and_types_nothing more
    ∧ clicks_enabled_only B (calls s) more
    ∧ ledger_of (SimbiAutomation.try_next B selector s).2 = ledger_of s
    ∧ ((SimbiAutomation.try_next B selector s).1 = Ok true →
       ∃ pre element, more = pre ++ [Click element]
                      ∧ on_click B (calls s ++ pre) element = Ok tt).
Proof.
  unfold SimbiAutomation.try_next, bind, SimbiAutomation.driver_find_element,
    SimbiAutomation.is_enabled, SimbiAutomation.click, ret.
  destruct (on_driver_find_element B (calls s) XPATH selector) as [next_button|e]; simpl.
  2:{ eexists [_]. split_and!; [done|by repeat constructor| |done|done].
      apply clicks_enabled_only_none. by repeat constructor. }
  destruct (on_is_enabled B (calls s ++ [DriverFindElement XPATH selector]) next_button)
    as [[]|e] eqn:Henabled; simpl.
  - destruct (on_click B ((calls s ++ [DriverFindElement XPATH selector])
                          ++ [IsEnabled next_button]) next_button) as [[]|e] eqn:Hclick;
      simpl.
    + exists [DriverFindElement XPATH selector; IsEnabled next_button; Click next_button].
      split_and!; [by rewrite <- !app_assoc|by repeat constructor| |done|].
      * intros [|c1 [|c2 [|c3 pre]]] element post Heq; simpl in Heq; simplify_eq.
        -- by exists [DriverFindElement XPATH selector].
        -- by destruct pre.
      * intros _. exists [DriverFindElement XPATH selector; IsEnabled next_button], next_button.
        split; [done|]. by rewrite <- Hclick, <- !app_assoc.
    + exists [DriverFindElement XPATH selector; IsEnabled next_button; Click next_button].
      split_and!; [by rewrite <- !app_assoc|by repeat constructor| |done|done].
      intros [|c1 [|c2 [|c3 pre]]] element post Heq; simpl in Heq; simplify_eq.
      * by exists [DriverFindElement XPATH selector].
      * by destruct pre.
  - exists [DriverFindElement XPATH selector; IsEnabled next_button].
    split_and!; [by rewrite <- !app_assoc|by repeat constructor| |done|done].
    apply clicks_enabled_only_none. by repeat constructor.
  - exists [DriverFindElement XPATH selector; IsEnabled next_button].
    split_and!; [by rewrite <- !app_assoc|by repeat constructor| |done|done].
    apply clicks_enabled_only_none. by repeat constructor.
Qed.

Lemma next_page_loop_spec selectors s :
  ∃ more,
    calls (SimbiAutomation.next_page_loop B selectors s).2 = calls s ++ more
    ∧ Forall stays_and_types_nothing more
    ∧ clicks_enabled_only B (calls s) more
    ∧ ledger_of (SimbiAutomation.next_page_loop B selectors s).2 = ledger_of s
    ∧ ((SimbiAutomation.next_page_loop B selectors s).1 = Ok true →
       ∃ pre element, more = pre ++ [Click element]
                      ∧ on_click B (calls s ++ pre) element = Ok tt).
Proof.
  revert s. induction selectors as [|selector rest IH]; intros s; simpl.
  { exists []. rewrite app_nil_r. split_and!; [done|done| |done|done].
    by apply clicks_enabled_only_none. }
  destruct (try_next_spec selector s) as (more & Hmore & Hstay & Hen & Hledger & Htrue).
  destruct (SimbiAutomation.try_next B selector s) as [[[]|[]] s1]; simpl in *;
    try (exists more; split_and!; done).
  - destruct (IH s1) as (more' & Hmore' & Hstay' & Hen' & Hledger' & Htrue').
    exists (more ++ more'). rewrite Hmore', Hmore, app_assoc.
    split_and!; [done|by apply Forall_app| |congruence|].
    + apply clicks_enabled_only_app; [done|]. by rewrite <- Hmore.
    + intros Hok. destruct (Htrue' Hok) as (pre & element & -> & Hclick).
      exists (more ++ pre), element. rewrite !app_assoc. split; [done|].
      by rewrite <- Hmore.
  - destruct (IH s1) as (more' & Hmore' & Hstay' & Hen' & Hledger' & Htrue').
    exists (more ++ more'). rewrite Hmore', Hmore, app_assoc.
    split_and!; [done|by apply Forall_app| |congruence|].
    + apply clicks_enabled_only_app; [done|]. by rewrite <- Hmore.
    + intros Hok. destruct (Htrue' Hok) as (pre & element & -> & Hclick).
      exists (more ++ pre), element. rewrite !app_assoc. split; [done|].
      by rewrite <- Hmore.
Qed.

Lemma go_to_next_page_spec s :
  ∃ more,
    calls (SimbiAutomation.go_to_next_page B s).2 = calls s ++ more
    ∧ Forall stays_and_types_nothing more
    ∧ clicks_enabled_only B (calls s) more
    ∧ ledger_of (SimbiAutomation.go_to_next_page B s).2 = ledger_of s
    ∧ ((SimbiAutomation.go_to_next_page B s).1 = true →
       ∃ pre element, more = pre ++ [Click element]
                      ∧ on_click B (calls s ++ pre) element = Ok tt).
Proof.
  unfold SimbiAutomation.go_to_next_page.
  destruct (next_page_loop_spec SimbiAutomation.next_selectors s)
    as (more & Hmore & Hstay & Hen & Hledger & Htrue).
  destruct (SimbiAutomation.next_page_loop B SimbiAutomation.next_selectors s)
    as [[b|e] s1]; simpl in *.
  - exists more. split_and!; try done. intros ->. by apply Htrue.
  - exists more. split_and!; done.
Qed.

End NextPageFacts.

(** X14. [go_to_next_page] never navigates by URL and never types; it
    leaves the ledger alone; it clicks an element only right after the
    browser answered that the element is enabled; and it answers [True]
    only when its last call is a click that went through. *)
Theorem next_page_clicks_enabled_button (B : Browser) (s : state) :
  ∃ more,
    calls (SimbiAutomation.go_to_next_page B s).2 = calls s ++ more
    ∧ Forall stays_and_types_nothing more
    ∧ clicks_enabled_only B (calls s) more
    ∧ ledger_of (SimbiAutomation.go_to_next_page B s).2 = ledger_of s
    ∧ ((SimbiAutomation.go_to_next_page B s).1 = true →
       ∃ pre element, more = pre ++ [Click element]
                      ∧ on_click B (calls s ++ pre) element = Ok tt).
Proof. apply go_to_next_page_spec. Qed.

Lemma next_page_clicks_enabled_button_witness :
  let s := Sample.start ∅ None in
  (SimbiAutomation.go_to_next_page Sample.browser s).1 = true
  ∧ calls (SimbiAutomation.go_to_next_page Sample.browser s).2
    = [DriverFindElement XPATH "//a[contains(text(), 'Next')]"; IsEnabled 7; Click 7]
  ∧ ∃ more,
      calls (SimbiAutomation.go_to_next_page Sample.browser s).2 = calls s ++ more
      ∧ Forall stays_and_types_nothing more
      ∧ clicks_enabled_only Sample.browser (calls s) more
      ∧ ledger_of (SimbiAutomation.go_to_next_page Sample.browser s).2 = ledger_of s
      ∧ ((SimbiAutomation.go_to_next_page Sample.browser s).1 = true →
         ∃ pre element, more = pre ++ [Click element]
                        ∧ on_click Sample.browser (calls s ++ pre) element = Ok tt).
Proof.
  intros s. split; [reflexivity|]. split; [reflexivity|].
  exact (next_page_clicks_enabled_button Sample.browser s).
Defined.

Section ScrapeFacts.

Context (T : Text.methods) (B : Browser).

Lemma read_only_stays c : read_only c → stays_and_types_nothing c.
Proof. by destruct c. Qed.

Lemma read_only_no_click c : read_only c → ∀ element, c ≠ Click element.
Proof. by destruct c. Qed.

Lemma scrape_page_spec page s :
  ∃ more,
    calls (SimbiAutomation.scrape_page T B page s).2 = calls s ++ more
    ∧ Forall stays_and_types_nothing more
    ∧ clicks_enabled_only B (calls s) more
    ∧ ledger_of (SimbiAutomation.scrape_page T B page s).2 = ledger_of s
    ∧ Forall extracted (SimbiAutomation.scrape_page T B page s).1.1.
Proof.
  unfold SimbiAutomation.scrape_page.
  pose proof (extraction_reads_and_filters_aux T B (add_line (ScrapingPage page) s))
    as (Hreq & (more & Hmore & Hread) & Hledger & _).
  destruct (SimbiAutomation.extract_requests_from_page T B (add_line (ScrapingPage page) s))
    as [page_requests s1]; simpl in *.
  destruct (go_to_next_page_spec B s1) as (more' & Hmore' & Hstay' & Hen' & Hledger' & _).
  destruct (SimbiAutomation.go_to_next_page B s1) as [answer s2]; simpl in *.
  exists (more ++ more'). rewrite Hmore', Hmore, app_assoc.
  split_and!; [done| | |by rewrite Hledger', Hledger|done].
  - apply Forall_app. split; [|done].
    eapply Forall_impl; [exact Hread|]. apply read_only_stays.
  - apply clicks_enabled_only_app; [|by rewrite <- Hmore].
    apply clicks_enabled_only_none.
    eapply Forall_impl; [exact Hread|]. apply read_only_no_click.
Qed.

Lemma scrape_pages_spec pages page requests_data s :
  Forall extracted requests_data →
  ∃ more,
    calls (SimbiAutomation.scrape_pages T B pages page requests_data s).2 = calls s ++ more
    ∧ Forall stays_and_types_nothing more
    ∧ clicks_enabled_only B (calls s) more
    ∧ ledger_of (SimbiAutomation.scrape_pages T B pages page requests_data s).2 = ledger_of s
    ∧ Forall extracted (SimbiAutomation.scrape_pages T B pages page requests_data s).1.1.
Proof.
  revert page requests_data s. induction pages as [|p rest IH];
    intros page requests_data s Hreq; simpl.
  { exists []. rewrite app_nil_r. split_and!; [done|done| |done|done].
    by apply clicks_enabled_only_none. }
  destruct (scrape_page_spec p s) as (more & Hmore & Hstay & Hen & Hledger & Hpage).
  destruct (SimbiAutomation.scrape_page T B p s) as [[page_requests answer] s1]; simpl in *.
  assert (Forall extracted (requests_data ++ page_requests)) as Hreq'
    by (by apply Forall_app).
  destruct answer; simpl; [|by exists more].
  destruct (IH (Some p) _ s1 Hreq') as (more' & Hmore' & Hstay' & Hen' & Hledger' & Hall).
  exists (more ++ more'). rewrite Hmore', Hmore, app_assoc.
  split_and!; [done|by apply Forall_app| |congruence|done].
  apply clicks_enabled_only_app; [done|]. by rewrite <- Hmore.
Qed.

Lemma scrape_requests_spec config max_pages s :
  let url := Config.service_url config in
  Forall extracted (SimbiAutomation.scrape_requests T B config max_pages s).1
  ∧ ledger_of (SimbiAutomation.scrape_requests T B config max_pages s).2 = ledger_of s
  ∧ ∃ more,
      calls (SimbiAutomation.scrape_requests T B config max_pages s).2
      = calls s ++ DriverGet url :: more
      ∧ Forall stays_and_types_nothing more
      ∧ clicks_enabled_only B (calls s ++ [DriverGet url]) more.
Proof.
  intros url. unfold SimbiAutomation.scrape_requests, SimbiAutomation.driver_get.
  fold url.
  destruct (on_get B (calls s) url) as [[]|e]; simpl.
  - set (pages := SimbiAutomation.page_range _).
    destruct (scrape_pages_spec pages None [] (add_call (DriverGet url) s))
      as (more & Hmore & Hstay & Hen & Hledger & Hall); [constructor|].
    destruct (SimbiAutomation.scrape_pages T B pages None [] (add_call (DriverGet url) s))
      as [[requests_data page] s1]; simpl in *.
    destruct page; simpl; split_and!; try done;
      exists more; rewrite Hmore, <- app_assoc; done.
  - split_and!; [constructor|done|]. exists []. split_and!; [done|done|].
    by apply clicks_enabled_only_none.
Qed.

End ScrapeFacts.

(** X15. [scrape_requests] navigates once, to the configured service URL,
    and after that never navigates by URL and never types; it clicks only
    elements the browser just reported enabled; it leaves the ledger alone;
    and every request it returns has a non-empty title, a non-empty link
    and no key besides the four of the extraction. *)
Theorem crawl_reads_and_pages (T : Text.methods) (B : Browser) (config : Config.t)
    (max_pages : option Z) (s : state) :
  let url := Config.service_url config in
  Forall extracted (SimbiAutomation.scrape_requests T B config max_pages s).1
  ∧ ledger_of (SimbiAutomation.scrape_requests T B config max_pages s).2 = ledger_of s
  ∧ ∃ more,
      calls (SimbiAutomation.scrape_requests T B config max_pages s).2
      = calls s ++ DriverGet url :: more
      ∧ Forall stays_and_types_nothing more
      ∧ clicks_enabled_only B (calls s ++ [DriverGet url]) more.
Proof. apply scrape_requests_spec. Qed.

(** ** What a successful [send_message] did *)

Section SendDetails.

Context (B : Browser) (F : FileSystem) (config : Config.t).

Lemma first_match_find_frame how selectors s r s' :
  first_match (SimbiAutomation.driver_find_element B how) selectors s = (r, s') →
  ledger_of s' = ledger_of s ∧ ∃ more, calls s' = calls s ++ more.
Proof.
  intros Heq. split.
  - pose proof (keeps_ledger_first_match (SimbiAutomation.driver_find_element B how)
                  selectors (λ selector, proj1 (driver_find_element_frame B how selector)) s)
      as Hledger.
    by rewrite Heq in Hledger.
  - destruct (calls_only_first_match (λ _, True)
                (SimbiAutomation.driver_find_element B how) selectors) with (s := s)
      as (more & Hmore & _).
    + intros selector t. eexists [_]. split; [done|]. by constructor.
    + exists more. by rewrite Heq in Hmore.
Qed.

(** The steps behind an answer [True] of [send_message]. *)
Lemma send_message_true request_data s request_data' s' :
  SimbiAutomation.send_message B F config request_data s = ((true, request_data'), s') →
  SimbiDataManager.is_message_sent (get "link" "" request_data) s = (Ok false, s)
  ∧ ∃ message_text text_area send_button pre mid s1 s2,
      Config.message_template config (get "user_name" "there" request_data)
        (get "request_title" "your request" request_data) = Ok message_text
      ∧ calls s' = calls s ++ pre ++ [SendKeys text_area message_text] ++ mid
                   ++ [Click send_button]
      ∧ on_click B (calls s ++ pre ++ [SendKeys text_area message_text] ++ mid)
          send_button = Ok tt
      ∧ ledger_of s1 = ledger_of s
      ∧ SimbiDataManager.record_sent_message F
          (<["message_sent" := message_text]> request_data) s1
        = (Ok request_data', s2)
      ∧ s' = add_line (MessageSentSuccessfully (get "user_name" "user" request_data')) s2.
Proof.
  unfold SimbiAutomation.send_message.
  destruct (SimbiAutomation.send_message_body B F config request_data s)
    as [[r|e] s0] eqn:Hbody; [|done].
  intros [= -> ->]. unfold SimbiAutomation.send_message_body in Hbody.
  apply bind_inv in Hbody as [(sent & t0 & Hsent & Hbody)|(? & _ & ?)]; [|done].
  unfold SimbiDataManager.is_message_sent in Hsent.
  injection Hsent as <- <-.
  case_bool_decide as Hknown; [done|].
  split; [unfold SimbiDataManager.is_message_sent; by rewrite bool_decide_eq_false_2|].
  apply bind_inv in Hbody as [([] & t1 & Hget & Hbody)|(? & _ & ?)]; [|done].
  assert (ledger_of t1 = ledger_of s ∧ ∃ pre0, calls t1 = calls s ++ pre0)
    as [Hl1 [pre0 Hc1]].
  { destruct (request_data !! "link").
    - unfold SimbiAutomation.driver_get in Hget. injection Hget as _ <-.
      split; [done|]. by eexists [_].
    - injection Hget as <-. split; [done|]. exists []. by rewrite app_nil_r. }
  apply bind_inv in Hbody as [(message_button & t2 & Hmb & Hbody)|(? & _ & ?)]; [|done].
  apply first_match_find_frame in Hmb as [Hl2 [more2 Hc2]].
  destruct message_button as [message_button|]; [|done].
  apply bind_inv in Hbody as [([] & t3 & Hclick & Hbody)|(? & _ & ?)]; [|done].
  unfold SimbiAutomation.click in Hclick. injection Hclick as _ <-.
  apply bind_inv in Hbody as [(text_area & t4 & Hta & Hbody)|(? & _ & ?)]; [|done].
  apply first_match_find_frame in Hta as [Hl4 [more4 Hc4]].
  destruct text_area as [text_area|]; [|done].
  apply bind_inv in Hbody as [(message_text & t5 & Htemplate & Hbody)|(? & _ & ?)]; [|done].
  injection Htemplate as Htemplate <-.
  apply bind_inv in Hbody as [([] & t6 & Hkeys & Hbody)|(? & _ & ?)]; [|done].
  unfold SimbiAutomation.send_keys in Hkeys. injection Hkeys as _ <-.
  apply bind_inv in Hbody as [(send_button & t7 & Hsb & Hbody)|(? & _ & ?)]; [|done].
  apply first_match_find_frame in Hsb as [Hl7 [more7 Hc7]].
  destruct send_button as [send_button|]; [|done].
  apply bind_inv in Hbody as [([] & t8 & Hclick & Hbody)|(? & _ & ?)]; [|done].
  unfold SimbiAutomation.click in Hclick. injection Hclick as Hclicked <-.
  apply bind_inv in Hbody as [(recorded & t9 & Hrec & Hbody)|(? & _ & ?)]; [|done].
  injection Hbody as <- <-.
  destruct (record_sent_message_cases F (<["message_sent" := message_text]> request_data)
              (add_call (Click send_button) t7))
    as (recorded' & t9' & Hrec' & Hcalls & _).
  rewrite Hrec in Hrec'. injection Hrec' as <- <-.
  exists message_text, text_area, send_button,
    (pre0 ++ more2 ++ [Click message_button] ++ more4), more7,
    (add_call (Click send_button) t7), t9.
  simpl in Hc1, Hc2, Hc4, Hc7, Hcalls.
  split_and!; [done| | | |done|done].
  - simpl. rewrite Hcalls, Hc7, Hc4, Hc2, Hc1. by rewrite <- !app_assoc.
  - rewrite <- Hclicked, Hc7, Hc4, Hc2, Hc1. by rewrite <- !app_assoc.
  - unfold ledger_of in *. simpl in *. congruence.
Qed.

End SendDetails.

(** X16. When [send_message] answers [True], the link was not in the
    ledger at the start; the message typed into the text area is the
    template filled with the [user_name] of the request (or [there]) and its
    [request_title] (or [your request]); the last browser call is the click
    on the send button, and it went through; and the text typed is the
    [message_sent] of the request afterwards. *)
Theorem sent_message_is_the_template (B : Browser) (F : FileSystem) (config : Config.t)
    (request_data request_data' : dict) (s s' : state) :
  SimbiAutomation.send_message B F config request_data s = ((true, request_data'), s') →
  SimbiDataManager.is_message_sent (get "link" "" request_data) s = (Ok false, s)
  ∧ ∃ message_text text_area send_button pre mid,
      Config.message_template config (get "user_name" "there" request_data)
        (get "request_title" "your request" request_data) = Ok message_text
      ∧ calls s' = calls s ++ pre ++ [SendKeys text_area message_text] ++ mid
                   ++ [Click send_button]
      ∧ on_click B (calls s ++ pre ++ [SendKeys text_area message_text] ++ mid)
          send_button = Ok tt
      ∧ request_data' !! "message_sent" = Some message_text.
Proof.
  intros Hsend.
  destruct (send_message_true B F config _ _ _ _ Hsend)
    as (Hunknown & text & text_area & send_button & pre & mid & s1 & s2
        & Htemplate & Hcalls & Hclick & _ & Hrec & _).
  split; [done|]. exists text, text_area, send_button, pre, mid.
  split_and!; [done|done|done|].
  destruct (record_sent_message_cases F (<["message_sent" := text]> request_data) s1)
    as (data' & t & Hrec' & _ & _ & Hcases).
  rewrite Hrec in Hrec'. injection Hrec' as <- <-.
  destruct Hcases as [(_ & -> & _)|(_ & [->| ->] & _)];
    by rewrite ?lookup_insert_ne, lookup_insert_eq by done.
Qed.

Lemma sent_message_is_the_template_witness :
  let s := Sample.start ∅ None in
  let sending :=
    SimbiAutomation.send_message Sample.browser (Sample.files NoFault) Sample.config
      Sample.request s in
  sending.1.1 = true
  ∧ sending.1.2 !! "message_sent" = Some "Hi Ann, I saw your request for Logo design"
  ∧ SimbiDataManager.is_message_sent (get "link" "" Sample.request) s = (Ok false, s).
Proof.
  intros s sending. split; [reflexivity|]. split; [reflexivity|].
  apply (sent_message_is_the_template Sample.browser (Sample.files NoFault) Sample.config
           Sample.request sending.1.2 s sending.2).
  reflexivity.
Defined.

(** ** From the extraction to the ledger *)

Lemma extracted_fields request message_text :
  extracted request →
  SimbiDataManager.wrong_fields (<["message_sent" := message_text]> request) = false.
Proof.
  intros (_ & _ & Hdom). unfold SimbiDataManager.wrong_fields.
  apply negb_false_iff, bool_decide_eq_true.
  rewrite dom_insert_L. unfold SimbiDataManager.fieldnames. set_solver.
Qed.

Lemma extracted_unsent request : extracted request → request !! "message_sent" = None.
Proof.
  intros (_ & _ & Hdom). apply not_elem_of_dom. intros Hin. apply Hdom in Hin.
  set_solver.
Qed.

Section SentIsRecorded.

Context (B : Browser) (F : FileSystem) (config : Config.t).

Lemma sent_is_recorded_aux request_data request_data' s s' :
  extracted request_data →
  fault_at F (appends s) = NoFault →
  SimbiAutomation.send_message B F config request_data s = ((true, request_data'), s') →
  ∃ message_text,
    request_data' = <["timestamp" := now_isoformat F (appends s)]>
                      (<["message_sent" := message_text]> request_data)
    ∧ (Some (get "link" "" request_data) ∉ sent_messages s)
    ∧ sent_messages s' = {[Some (get "link" "" request_data)]} ∪ sent_messages s
    ∧ csv_file s' = Some (with_header (csv_file s)
                          ++ [SimbiDataManager.row_of request_data']).
Proof.
  intros Hextracted Hfault Hsend.
  destruct (send_message_true B F config _ _ _ _ Hsend)
    as (Hunknown & text & text_area & send_button & pre & mid & s1 & s2
        & _ & _ & _ & Hledger & Hrec & ->).
  pose proof Hledger as Hledger'. unfold ledger_of in Hledger'.
  injection Hledger' as Hsent Hfile Happends.
  destruct (record_sent_message_no_fault F (<["message_sent" := text]> request_data) s1)
    as (t & Hrec' & _ & Hcases); [by rewrite Happends|].
  rewrite Hrec in Hrec'. injection Hrec' as -> <-.
  rewrite (extracted_fields _ _ Hextracted) in Hcases.
  destruct Hcases as (Hout & Hsent' & Hfile').
  destruct Hextracted as (_ & (link & Hlink & _) & _).
  exists text. rewrite Happends. split_and!; [done| | |].
  - unfold SimbiDataManager.is_message_sent in Hunknown.
    injection Hunknown as Hunknown. by apply bool_decide_eq_false in Hunknown.
  - simpl. rewrite Hsent'. unfold with_link, get.
    rewrite lookup_insert_ne by done. by rewrite Hlink, Hsent.
  - simpl. by rewrite Hfile', Hfile, Happends.
Qed.

Lemma send_each_once requests_data sent_count s :
  no_fault F →
  Forall extracted requests_data →
  ∃ count requests_data' s',
    SimbiAutomation.send_each B F config requests_data sent_count s
    = ((count, requests_data'), s')
    ∧ length requests_data' = length requests_data
    ∧ count = sent_count + length (sent_links requests_data')
    ∧ NoDup (sent_links requests_data')
    ∧ sent_messages s'
      = list_to_set (Some <$> sent_links requests_data') ∪ sent_messages s
    ∧ Forall (λ link, Some link ∉ sent_messages s) (sent_links requests_data').
Proof.
  intros Hfault. revert sent_count s.
  induction requests_data as [|request_data rest IH]; intros sent_count s Hextracted; simpl.
  - eexists _, _, _. split; [done|]. unfold sent_links. simpl.
    split_and!; [done|lia|constructor|set_solver|constructor].
  - apply Forall_cons in Hextracted as [Hfirst Hrest].
    destruct (send_message_cases B F config request_data s)
      as (sent & request_data' & s1 & Hsend & Hcases).
    rewrite Hsend.
    destruct (IH (if sent then sent_count + 1 else sent_count) s1 Hrest)
      as (count & rest' & s2 & Heach & Hlen & Hcount & Hnodup & Hsent & Hnew).
    rewrite Heach. eexists _, _, _. split; [done|]. simpl.
    split; [by rewrite Hlen|].
    destruct sent.
    + destruct (sent_is_recorded_aux _ _ _ _ Hfirst (Hfault _) Hsend)
        as (text & -> & Hunknown & Hsent1 & _).
      assert (sent_links
                (<["timestamp" := now_isoformat F (appends s)]>
                   (<["message_sent" := text]> request_data) :: rest')
              = get "link" "" request_data :: sent_links rest') as ->.
      { unfold sent_links. rewrite filter_cons_True.
        - simpl. f_equal. unfold get. by rewrite !lookup_insert_ne by done.
        - rewrite lookup_insert_ne by done. rewrite lookup_insert_eq. by eexists. }
      rewrite Forall_forall in Hnew.
      split_and!.
      * simpl. lia.
      * constructor; [|done]. intros Hin. apply (Hnew _ Hin).
        rewrite Hsent1. set_solver.
      * rewrite Hsent, Hsent1. simpl. set_solver.
      * constructor; [done|]. rewrite Forall_forall. intros link Hin Hknown.
        apply (Hnew _ Hin). rewrite Hsent1. set_solver.
    + destruct Hcases as [(_ & -> & Hledger)|(? & _)]; [|done].
      assert (sent_messages s1 = sent_messages s) as Hsame.
      { unfold ledger_of in Hledger. by injection Hledger. }
      assert (sent_links (request_data :: rest') = sent_links rest') as ->.
      { unfold sent_links. rewrite filter_cons_False; [done|].
        rewrite (extracted_unsent _ Hfirst). by intros [? ?]. }
      rewrite <- Hsame. by split_and!.
Qed.

End SentIsRecorded.

(** X17. A message that went out is in the ledger. For a request as the
    extraction hands it out, and when nothing is in the way of the append
    (no exception of the file system, and the file, if it exists, ends with
    a line terminator): if [send_message] answers [True], the link was not in the set of
    sent links before and is in it afterwards, the request got its
    [message_sent] and the [timestamp] of the clock, and its row is the last
    row of the ledger file (after the header, when the file is new). *)
Theorem sent_is_recorded (B : Browser) (F : FileSystem) (config : Config.t)
    (request_data request_data' : dict) (s s' : state) :
  extracted request_data →
  fault_at F (appends s) = NoFault →
  SimbiAutomation.send_message B F config request_data s = ((true, request_data'), s') →
  ∃ message_text,
    request_data' = <["timestamp" := now_isoformat F (appends s)]>
                      (<["message_sent" := message_text]> request_data)
    ∧ (Some (get "link" "" request_data) ∉ sent_messages s)
    ∧ sent_messages s' = {[Some (get "link" "" request_data)]} ∪ sent_messages s
    ∧ csv_file s' = Some (with_header (csv_file s)
                          ++ [SimbiDataManager.row_of request_data']).
Proof. apply sent_is_recorded_aux. Qed.

Lemma sent_is_recorded_witness :
  let s := Sample.start ∅ None in
  let sending :=
    SimbiAutomation.send_message Sample.browser (Sample.files NoFault) Sample.config
      Sample.request s in
  extracted Sample.request
  ∧ sending.1.1 = true
  ∧ ∃ message_text,
      sending.1.2 = <["timestamp" := now_isoformat (Sample.files NoFault) (appends s)]>
                      (<["message_sent" := message_text]> Sample.request)
      ∧ (Some (get "link" "" Sample.request) ∉ sent_messages s)
      ∧ sent_messages sending.2 = {[Some (get "link" "" Sample.request)]} ∪ sent_messages s
      ∧ csv_file sending.2 = Some (with_header (csv_file s)
                                   ++ [SimbiDataManager.row_of sending.1.2]).
Proof.
  intros s sending.
  assert (extracted Sample.request) as Hextracted.
  { split_and!; [by eexists|by eexists|].
    apply (bool_decide_unpack _). by vm_compute. }
  split; [done|]. split; [reflexivity|].
  apply (sent_is_recorded Sample.browser (Sample.files NoFault) Sample.config
           Sample.request sending.1.2 s sending.2 Hextracted); reflexivity.
Defined.

(** ** [find_matching_services] *)

Lemma insert_match_perm x sorted : insert_match x sorted ≡ₚ x :: sorted.
Proof.
  induction sorted as [|y rest IH]; simpl; [done|].
  case_bool_decide; [done|]. rewrite IH. apply Permutation_swap.
Qed.

Lemma sort_matches_perm matches : sort_matches matches ≡ₚ matches.
Proof.
  induction matches as [|x rest IH]; simpl; [done|].
  by rewrite insert_match_perm, IH.
Qed.

Lemma insert_match_by_score x sorted : by_score sorted → by_score (insert_match x sorted).
Proof.
  unfold by_score. induction sorted as [|y rest IH]; intros Hsorted; simpl.
  - by repeat constructor.
  - apply StronglySorted_inv in Hsorted as [Hrest Hy].
    case_bool_decide as Hle.
    + constructor; [by constructor|]. constructor; [done|].
      eapply Forall_impl; [exact Hy|]. intros z Hz. simpl in Hz.
      by eapply Qcle_trans.
    + constructor; [by apply IH|].
      rewrite insert_match_perm. constructor; [|done].
      apply Qclt_le_weak. by apply Qcnot_le_lt.
Qed.

Lemma sort_matches_by_score matches : by_score (sort_matches matches).
Proof.
  induction matches as [|x rest IH]; simpl; [constructor|].
  by apply insert_match_by_score.
Qed.

Lemma insert_match_filter q x sorted :
  filter (λ x, similarity_score x = q) (insert_match x sorted)
  = filter (λ x, similarity_score x = q) (x :: sorted).
Proof.
  induction sorted as [|y rest IH]; simpl; [done|].
  case_bool_decide as Hle; [done|].
  rewrite (filter_cons _ y), IH, !(filter_cons _ x), (filter_cons _ y).
  destruct (decide (similarity_score y = q)) as [Hy|Hy]; [|done].
  destruct (decide (similarity_score x = q)) as [Hx|Hx]; [|done].
  destruct Hle. rewrite Hx, Hy. apply Qcle_refl.
Qed.

Lemma sort_matches_stable matches : stable_on matches (sort_matches matches).
Proof.
  split; [apply sort_matches_perm|]. intros q.
  induction matches as [|x rest IH]; simpl; [done|].
  by rewrite insert_match_filter, !(filter_cons _ x), IH.
Qed.

Lemma has_text_iff service : has_text service ↔ ∃ text, service_text service = Ok text.
Proof.
  unfold has_text, service_text, is_float.
  destruct (service !! "description") as [[]|], (service !! "title") as [[]|]; simpl;
    split; try (intros [? ?]; done); try (intros _; by eexists); by intros _.
Qed.

Section MatchLoopFacts.

Context (calculate_similarity : string → string → Qc) (threshold : Qc).

Lemma match_loop_spec request_text services matches :
  Forall has_text services →
  match_loop calculate_similarity threshold request_text services matches
  = Ok (matches ++ omap (scored calculate_similarity threshold request_text) services).
Proof.
  revert matches. induction services as [|service rest IH]; intros matches Htext; simpl.
  - by rewrite app_nil_r.
  - apply Forall_cons in Htext as [[text Hfirst]%has_text_iff Hrest].
    unfold scored at 1. rewrite Hfirst. cbv zeta.
    case_bool_decide.
    + rewrite IH by done. by rewrite <- app_assoc.
    + by apply IH.
Qed.

Lemma match_loop_raises request_text services matches :
  ¬ Forall has_text services →
  match_loop calculate_similarity threshold request_text services matches
  = Raise OtherException.
Proof.
  revert matches. induction services as [|service rest IH]; intros matches Htext; simpl.
  - destruct Htext. constructor.
  - destruct (service_text service) as [text|e] eqn:Hfirst.
    + assert (¬ Forall has_text rest) as Hrest.
      { intros Hrest. apply Htext. constructor; [apply has_text_iff; by exists text|done]. }
      cbv zeta. case_bool_decide; by apply IH.
    + unfold service_text in Hfirst. repeat case_match; by simplify_eq.
Qed.

Lemma match_and_sort_spec request_text services :
  Forall has_text services →
  ∃ matches,
    match_and_sort calculate_similarity threshold request_text services = Ok matches
    ∧ stable_on (omap (scored calculate_similarity threshold request_text) services) matches
    ∧ by_score matches.
Proof.
  intros Htext. unfold match_and_sort. rewrite match_loop_spec by done. simpl.
  eexists. split; [done|]. split; [apply sort_matches_stable|apply sort_matches_by_score].
Qed.

Lemma scored_inv request_text service x :
  scored calculate_similarity threshold request_text service = Some x →
  ∃ text,
    service_text service = Ok text
    ∧ (threshold ≤ calculate_similarity request_text text)%Qc
    ∧ x = <["similarity_score" := Float (calculate_similarity request_text text)]> service.
Proof.
  unfold scored. destruct (service_text service) as [text|]; [|done].
  case_bool_decide; [|done]. intros [= <-]. by exists text.
Qed.

End MatchLoopFacts.

Lemma similarity_score_scored q (service : service_dict) :
  similarity_score (<["similarity_score" := Float q]> service) = q.
Proof. unfold similarity_score. by rewrite lookup_insert_eq. Qed.

Lemma windows_matches_spec (T : Text.methods) (self : SimpleSimilarityMatcher.t) request_text
    services :
  Forall has_text services →
  ∃ matches,
    WindowsMatcher.find_matching_services T self request_text services = Ok matches
    ∧ stable_on
        (omap (scored (SimpleSimilarityMatcher.calculate_similarity T)
                 (SimpleSimilarityMatcher.threshold self) request_text) services)
        matches
    ∧ by_score matches.
Proof.
  intros Htext. destruct services as [|service rest].
  - exists []. split; [done|]. split; [by split|constructor].
  - by apply match_and_sort_spec.
Qed.

(** X18. [find_matching_services] of the Windows script, on services whose
    description and title are strings: it returns the services whose
    token-set score with the request reaches the threshold, each with that
    score stored under [similarity_score]; they are listed greatest score
    first, and services of the same score stand in their input order. *)
Theorem matches_are_scored_and_sorted (T : Text.methods) (self : SimpleSimilarityMatcher.t)
    (request_text : string) (services : list service_dict) :
  Forall has_text services →
  ∃ matches,
    WindowsMatcher.find_matching_services T self request_text services = Ok matches
    ∧ stable_on
        (omap (scored (SimpleSimilarityMatcher.calculate_similarity T)
                 (SimpleSimilarityMatcher.threshold self) request_text) services)
        matches
    ∧ by_score matches.
Proof. apply windows_matches_spec. Qed.

Lemma matches_are_scored_and_sorted_witness :
  Forall has_text [Services.garden; Services.logo]
  ∧ ∃ matches,
      WindowsMatcher.find_matching_services AsciiText.methods (Fixture.token_set (Q2Qc (1 # 5)))
        "need a logo" [Services.garden; Services.logo] = Ok matches
      ∧ stable_on
          (omap (scored (SimpleSimilarityMatcher.calculate_similarity AsciiText.methods)
                   (SimpleSimilarityMatcher.threshold (Fixture.token_set (Q2Qc (1 # 5))))
                   "need a logo") [Services.garden; Services.logo])
          matches
      ∧ by_score matches.
Proof.
  assert (Forall has_text [Services.garden; Services.logo]) as Htext.
  { apply Forall_cons_2; [done|]. apply Forall_cons_2; [done|]. apply Forall_nil_2. }
  split; [done|].
  apply (matches_are_scored_and_sorted AsciiText.methods (Fixture.token_set (Q2Qc (1 # 5)))
      "need a logo"
           [Services.garden; Services.logo] Htext).
Defined.

Lemma windows_match_shares_word (T : Text.methods) (self : SimpleSimilarityMatcher.t) request_text
    services matches x :
  (0 < SimpleSimilarityMatcher.threshold self)%Qc →
  WindowsMatcher.find_matching_services T self request_text services = Ok matches →
  x ∈ matches →
  ∃ service text,
    service ∈ services
    ∧ service_text service = Ok text
    ∧ x = <["similarity_score" :=
              Float (SimpleSimilarityMatcher.calculate_similarity T request_text text)]> service
    ∧ (SimpleSimilarityMatcher.threshold self ≤ similarity_score x)%Qc
    ∧ (similarity_score x ≤ 1)%Qc
    ∧ Text.words T request_text ∩ Text.words T text ≠ ∅.
Proof.
  intros Hpos Hfind Hx.
  destruct (decide (Forall has_text services)) as [Htext|Htext].
  - destruct (windows_matches_spec T self request_text services Htext)
      as (matches' & Hfind' & [Hperm _] & _).
    rewrite Hfind in Hfind'. injection Hfind' as <-.
    rewrite Hperm in Hx. apply list_elem_of_omap in Hx as (service & Hin & Hscored).
    apply scored_inv in Hscored as (text & Htext' & Hle & ->).
    exists service, text. rewrite similarity_score_scored.
    split_and!; [done|done|done|done|apply similarity_bounds|].
    intros Hnone.
    assert (SimpleSimilarityMatcher.calculate_similarity T request_text text = 0%Qc)
      as Hzero by (apply similarity_zero_iff; by right; right).
    rewrite Hzero in Hle. by apply Qcle_not_lt in Hle.
  - destruct services as [|service rest]; [destruct Htext; constructor|].
    unfold WindowsMatcher.find_matching_services, match_and_sort in Hfind.
    by rewrite match_loop_raises in Hfind.
Qed.

(** X19. A match of the Windows script shares a word with the request,
    whatever the Unicode tables behind [lower] and [split]. With a
    threshold above zero, every service [find_matching_services]
    returns is one of the given services with its score stored, the score
    lies between the threshold and one, and the request and the text of the
    service (description, a space, title) have a word in common. *)
Theorem match_shares_a_word (T : Text.methods) (self : SimpleSimilarityMatcher.t)
    (request_text : string) (services matches : list service_dict) (x : service_dict) :
  (0 < SimpleSimilarityMatcher.threshold self)%Qc →
  WindowsMatcher.find_matching_services T self request_text services = Ok matches →
  x ∈ matches →
  ∃ service text,
    service ∈ services
    ∧ service_text service = Ok text
    ∧ x = <["similarity_score" :=
              Float (SimpleSimilarityMatcher.calculate_similarity T request_text text)]> service
    ∧ (SimpleSimilarityMatcher.threshold self ≤ similarity_score x)%Qc
    ∧ (similarity_score x ≤ 1)%Qc
    ∧ Text.words T request_text ∩ Text.words T text ≠ ∅.
Proof. apply windows_match_shares_word. Qed.

Lemma match_shares_a_word_witness :
  let self := Fixture.token_set (Q2Qc (1 # 10)) in
  let x := <["similarity_score" := Float (Q2Qc (1 # 6))]> Services.logo in
  (0 < SimpleSimilarityMatcher.threshold self)%Qc
  ∧ WindowsMatcher.find_matching_services AsciiText.methods self "need logo"
      [Services.garden; Services.logo]
    = Ok [x]
  ∧ ∃ service text,
      service ∈ [Services.garden; Services.logo]
      ∧ service_text service = Ok text
      ∧ x = <["similarity_score" :=
                Float (SimpleSimilarityMatcher.calculate_similarity AsciiText.methods
                    "need logo" text)]> service
      ∧ (SimpleSimilarityMatcher.threshold self ≤ similarity_score x)%Qc
      ∧ (similarity_score x ≤ 1)%Qc
      ∧ Text.words AsciiText.methods "need logo" ∩ Text.words AsciiText.methods text ≠ ∅.
Proof.
  intros self x.
  assert (0 < SimpleSimilarityMatcher.threshold self)%Qc as Hpos by reflexivity.
  assert (WindowsMatcher.find_matching_services AsciiText.methods self "need logo"
            [Services.garden; Services.logo] = Ok [x]) as Hfind
    by (vm_compute; reflexivity).
  split; [done|]. split; [done|].
  apply (match_shares_a_word AsciiText.methods self "need logo"
           [Services.garden; Services.logo] [x] x Hpos Hfind).
  apply list_elem_of_here.
Defined.

Lemma omap_length_le {A B} (f : A → option B) (l : list A) :
  length (omap f l) ≤ length l.
Proof.
  induction l as [|a l IH]; simpl; [done|].
  change (list_omap A B f l) with (omap f l). destruct (f a); simpl; lia.
Qed.

Lemma windows_matches_or_raises (T : Text.methods) (self : SimpleSimilarityMatcher.t)
    request_text services :
  match WindowsMatcher.find_matching_services T self request_text services with
  | Ok matches => Forall has_text services ∧ length matches ≤ length services
  | Raise e => e = OtherException ∧ Exists (λ service, ¬ has_text service) services
  end.
Proof.
  destruct (decide (Forall has_text services)) as [Htext|Htext].
  - destruct (windows_matches_spec T self request_text services Htext)
      as (matches & -> & [Hperm _] & _).
    split; [done|]. rewrite Hperm. apply omap_length_le.
  - destruct services as [|service rest]; [destruct Htext; constructor|].
    unfold WindowsMatcher.find_matching_services, match_and_sort.
    rewrite match_loop_raises by done. split; [done|].
    by apply not_Forall_Exists in Htext; [|apply _].
Qed.

(** X20. [find_matching_services] of the Windows script has no handler: it
    returns exactly when the description and the title of every service are
    strings (or missing), and then it returns at most as many services as it
    got; when one of them is a float, the [TypeError] of building the text
    of that service ends the call, whether or not other services matched. *)
Theorem matching_returns_iff_texts (T : Text.methods) (self : SimpleSimilarityMatcher.t)
    (request_text : string) (services : list service_dict) :
  match WindowsMatcher.find_matching_services T self request_text services with
  | Ok matches => Forall has_text services ∧ length matches ≤ length services
  | Raise e => e = OtherException ∧ Exists (λ service, ¬ has_text service) services
  end.
Proof. apply windows_matches_or_raises. Qed.

Lemma consolidated_matches_spec (ML_AVAILABLE : bool) (self : SimbiSimilarityMatcher.t)
    request_text services :
  (SimbiSimilarityMatcher.model self = None →
   ConsolidatedMatcher.find_matching_services ML_AVAILABLE self request_text services
   = Ok [])
  ∧ (is_Some (SimbiSimilarityMatcher.model self) →
     Forall has_text services →
     ∃ matches,
       ConsolidatedMatcher.find_matching_services ML_AVAILABLE self request_text services
       = Ok matches
       ∧ stable_on
           (omap (scored (SimbiSimilarityMatcher.calculate_similarity ML_AVAILABLE self)
                    (SimbiSimilarityMatcher.threshold self) request_text) services)
           matches
       ∧ by_score matches
       ∧ Forall (λ x, (SimbiSimilarityMatcher.threshold self ≤ similarity_score x)%Qc)
           matches).
Proof.
  unfold ConsolidatedMatcher.find_matching_services. split.
  - by intros ->.
  - intros [m Hm] Htext. rewrite Hm.
    assert (∃ matches,
              match services with
              | [] => Ok []
              | _ :: _ =>
                  match_and_sort
                    (SimbiSimilarityMatcher.calculate_similarity ML_AVAILABLE self)
                    (SimbiSimilarityMatcher.threshold self) request_text services
              end = Ok matches
              ∧ stable_on
                  (omap (scored
                           (SimbiSimilarityMatcher.calculate_similarity ML_AVAILABLE self)
                           (SimbiSimilarityMatcher.threshold self) request_text) services)
                  matches
              ∧ by_score matches) as (matches & Hfind & Hstable & Hsorted).
    { destruct services as [|service rest].
      - exists []. split; [done|]. split; [by split|constructor].
      - by apply match_and_sort_spec. }
    exists matches. split_and!; [done|done|done|].
    apply Forall_forall. intros x Hx. destruct Hstable as [Hperm _].
    rewrite Hperm in Hx. apply list_elem_of_omap in Hx as (service & _ & Hscored).
    apply scored_inv in Hscored as (text & _ & Hle & ->).
    by rewrite similarity_score_scored.
Qed.

(** X21. [find_matching_services] of the consolidated script. Without a
    loaded model it returns the empty list for any services. With a loaded
    model and services whose description and title are strings, it returns
    the services whose score (the model's, or zero where the model raises
    or the library is not available) reaches the threshold, each with the
    score stored; greatest score first, equal scores in input order. *)
Theorem model_matches_are_scored_and_sorted (ML_AVAILABLE : bool)
    (self : SimbiSimilarityMatcher.t) (request_text : string)
    (services : list service_dict) :
  (SimbiSimilarityMatcher.model self = None →
   ConsolidatedMatcher.find_matching_services ML_AVAILABLE self request_text services
   = Ok [])
  ∧ (is_Some (SimbiSimilarityMatcher.model self) →
     Forall has_text services →
     ∃ matches,
       ConsolidatedMatcher.find_matching_services ML_AVAILABLE self request_text services
       = Ok matches
       ∧ stable_on
           (omap (scored (SimbiSimilarityMatcher.calculate_similarity ML_AVAILABLE self)
                    (SimbiSimilarityMatcher.threshold self) request_text) services)
           matches
       ∧ by_score matches
       ∧ Forall (λ x, (SimbiSimilarityMatcher.threshold self ≤ similarity_score x)%Qc)
           matches).
Proof. apply consolidated_matches_spec. Qed.

Lemma model_matches_are_scored_and_sorted_witness :
  let services := [Services.garden; Services.logo] in
  SimbiSimilarityMatcher.model Sample.unloaded = None
  ∧ is_Some (SimbiSimilarityMatcher.model Fixture.loaded)
  ∧ Forall has_text services
  ∧ ConsolidatedMatcher.find_matching_services false Sample.unloaded "need logo" services
    = Ok []
  ∧ ∃ matches,
      ConsolidatedMatcher.find_matching_services true Fixture.loaded "need logo" services
      = Ok matches
      ∧ stable_on
          (omap (scored (SimbiSimilarityMatcher.calculate_similarity true Fixture.loaded)
                   (SimbiSimilarityMatcher.threshold Fixture.loaded) "need logo") services)
          matches
      ∧ by_score matches
      ∧ Forall (λ x, (SimbiSimilarityMatcher.threshold Fixture.loaded
                      ≤ similarity_score x)%Qc) matches.
Proof.
  intros services.
  assert (SimbiSimilarityMatcher.model Sample.unloaded = None) as Hnone by reflexivity.
  assert (is_Some (SimbiSimilarityMatcher.model Fixture.loaded)) as Hsome by (by eexists).
  assert (Forall has_text services) as Htext.
  { apply Forall_cons_2; [done|]. apply Forall_cons_2; [done|]. apply Forall_nil_2. }
  split_and!; [done|done|done|..].
  - apply (model_matches_are_scored_and_sorted false Sample.unloaded "need logo" services).
    exact Hnone.
  - apply (model_matches_are_scored_and_sorted true Fixture.loaded "need logo" services).
    + exact Hsome.
    + exact Htext.
Defined.

(** ** The report of the analysis mode *)

Lemma requests_at_concat requests groups positions :
  requests_at requests groups positions →
  Forall2 (λ r i, requests !! i = Some r) (concat groups) (concat positions).
Proof.
  unfold requests_at. induction 1 as [|g p groups positions Hg _ IH]; simpl; [constructor|].
  by apply Forall2_app.
Qed.

Lemma lookup_seq_all {A} (l : list A) : (l !!.) <$> seq 0 (length l) = Some <$> l.
Proof.
  apply list_eq. intros i. rewrite !list_lookup_fmap.
  destruct (decide (i < length l)) as [Hi|Hi].
  - rewrite lookup_seq_lt by done. simpl.
    destruct (lookup_lt_is_Some_2 l i Hi) as [x Hx]. by rewrite Hx.
  - rewrite lookup_seq_ge by lia. simpl. by rewrite lookup_ge_None_2 by lia.
Qed.

Lemma found_at_positions (requests rs : list dict) (ps : list nat) :
  Forall2 (λ r i, requests !! i = Some r) rs ps →
  Some <$> rs = (requests !!.) <$> ps.
Proof. induction 1 as [|r i rs ps Hr _ IH]; csimpl; [done|]. by rewrite Hr, IH. Qed.

Lemma partition_of_concat requests groups positions :
  partition_of requests groups positions → concat groups ≡ₚ requests.
Proof.
  intros (Hat & Hpart & _). apply requests_at_concat in Hat.
  apply found_at_positions in Hat as Heq.
  unfold partitions in Hpart.
  assert (Some <$> concat groups ≡ₚ Some <$> requests) as Hperm.
  { rewrite Heq, Hpart. by rewrite lookup_seq_all. }
  apply Permutation_map_inv in Hperm as (l & Hl & Hperm).
  apply (inj (fmap Some)) in Hl. by subst.
Qed.

Lemma group_entries_spec (groups : list (list dict)) j :
  Analysis.group_id <$> Analysis.group_entries (enumerate j groups)
  = seq (j + 1) (length groups)
  ∧ Analysis.requests <$> Analysis.group_entries (enumerate j groups) = groups
  ∧ Analysis.size <$> Analysis.group_entries (enumerate j groups) = length <$> groups
  ∧ Forall (λ g, Analysis.size g = length (Analysis.requests g))
      (Analysis.group_entries (enumerate j groups)).
Proof.
  revert j. induction groups as [|group rest IH]; intros j; csimpl.
  - split_and!; [done|done|done|constructor].
  - destruct (IH (S j)) as (Hids & Hrequests & Hsizes & Hall).
    split_and!.
    + by rewrite Hids.
    + by rewrite Hrequests.
    + by rewrite Hsizes.
    + by constructor.
Qed.

Lemma sum_list_length_concat {A} (groups : list (list A)) :
  sum_list (length <$> groups) = length (concat groups).
Proof.
  induction groups as [|g rest IH]; csimpl; [done|]. by rewrite length_app, IH.
Qed.

Lemma save_analysis_results_spec now fault requests groups positions :
  partition_of requests groups positions →
  saved_or_reported requests fault (Analysis.save_analysis_results now fault groups).
Proof.
  intros Hpart. pose proof (partition_of_concat _ _ _ Hpart) as Hperm.
  destruct Hpart as (_ & _ & _ & Hnonempty & Hcount).
  destruct (group_entries_spec groups 0) as (Hids & Hrequests & Hsizes & Hall).
  unfold Analysis.save_analysis_results, saved_or_reported.
  destruct fault; [|done|done].
  split; [done|]. split; [done|]. unfold reports. simpl.
  assert (length (Analysis.group_entries (enumerate 0 groups)) = length groups) as Hlen.
  { by rewrite <- (length_fmap Analysis.requests), Hrequests. }
  split_and!.
  - by rewrite sum_list_length_concat, Hperm.
  - done.
  - done.
  - done.
  - rewrite Forall_forall in Hall. apply Forall_forall. intros g Hg.
    split; [by apply Hall|]. rewrite (Hall g Hg).
    assert (Analysis.requests g ∈ groups) as Hin.
    { rewrite <- Hrequests. by apply list_elem_of_fmap_2. }
    rewrite Forall_forall in Hnonempty. specialize (Hnonempty _ Hin).
    destruct (Analysis.requests g); [done|simpl; lia].
  - by rewrite Hsizes, sum_list_length_concat, Hperm.
  - by rewrite Hrequests.
Qed.

(** X22. The report of the analysis mode, in both scripts. What
    [save_analysis_results] leaves behind for the groups
    [group_similar_requests] makes of the requests is: when the write goes
    through, the dump of a report that counts the requests (the total is
    their number, the groups are numbered from one, every size is the
    number of requests of the group and at least one, the sizes add up to
    the total, and the requests of the groups together are the given
    requests) with the line that names the number of groups; when opening
    or dumping raises, the error line and no dump. *)
Theorem analysis_report_counts_requests (T : Text.methods) (now : string)
    (fault : Analysis.write_fault) (requests : list dict) :
  (∀ similarity_matcher,
     saved_or_reported requests fault
       (Analysis.save_analysis_results now fault
          (Windows.group_similar_requests T similarity_matcher requests)))
  ∧ (∀ ML_AVAILABLE similarity_matcher,
       saved_or_reported requests fault
         (Analysis.save_analysis_results now fault
            (Consolidated.group_similar_requests ML_AVAILABLE similarity_matcher
               requests))).
Proof.
  split.
  - intros matcher. eapply save_analysis_results_spec. apply group_loop_partition.
  - intros ML matcher. unfold Consolidated.group_similar_requests.
    destruct (SimbiSimilarityMatcher.model matcher).
    + eapply save_analysis_results_spec. apply group_loop_partition.
    + eapply save_analysis_results_spec. apply singletons_partition.
Qed.

(** ** The messaging mode, from the crawl to the ledger *)

Lemma scrape_and_send_spec (T : Text.methods) (B : Browser) (F : FileSystem) (config : Config.t)
    (s : state) :
  no_fault F →
  ∃ sent_count requests_data s',
    scrape_and_send T B F config s = ((sent_count, requests_data), s')
    ∧ sent_count = length (sent_links requests_data)
    ∧ NoDup (sent_links requests_data)
    ∧ Forall (λ link, Some link ∉ sent_messages s) (sent_links requests_data)
    ∧ sent_messages s' = list_to_set (Some <$> sent_links requests_data) ∪ sent_messages s
    ∧ (mirrors_file s → mirrors_file s').
Proof.
  intros Hfault. unfold scrape_and_send.
  destruct (scrape_requests_spec T B config None s) as (Hextracted & Hledger & _).
  destruct (SimbiAutomation.scrape_requests T B config None s) as [scraped s1].
  simpl in Hextracted, Hledger.
  assert (sent_messages s1 = sent_messages s) as Hsame.
  { unfold ledger_of in Hledger. by injection Hledger. }
  destruct (send_each_once B F config scraped 0 s1 Hfault Hextracted)
    as (count & requests' & s2 & Heach & _ & Hcount & Hnodup & Hsent & Hnew).
  exists count, requests', s2. rewrite <- Hsame.
  split_and!; [done|done|done|done|done|].
  intros Hmirrors.
  pose proof (send_each_mirrors B F config scraped 0 s1 Hfault) as Hend.
  rewrite Heach in Hend. apply Hend.
  - eapply Forall_impl; [exact Hextracted|].
    intros request (_ & (link & Hlink & _) & _). by exists link.
  - by apply (mirrors_file_ledger s).
Qed.

(** X23. A messaging run writes to no link twice. When nothing is in the
    way of the appends (no exception of the file system, and the file,
    where it exists, ends with a line terminator), then whatever the
    browser and the [str] methods answer, scraping
    the requests and sending to each of them ends with: the count of sent
    messages equal to the number of requests that carry a [message_sent];
    the links of those requests pairwise different and none of them in the
    set of sent links at the start; the set at the end equal to the set at
    the start with exactly those links added; and, when the set mirrored
    the ledger file at the start, it mirrors the file at the end. *)
Theorem messaging_run_sends_once (T : Text.methods) (B : Browser) (F : FileSystem)
    (config : Config.t) (s : state) :
  no_fault F →
  ∃ sent_count requests_data s',
    scrape_and_send T B F config s = ((sent_count, requests_data), s')
    ∧ sent_count = length (sent_links requests_data)
    ∧ NoDup (sent_links requests_data)
    ∧ Forall (λ link, Some link ∉ sent_messages s) (sent_links requests_data)
    ∧ sent_messages s' = list_to_set (Some <$> sent_links requests_data) ∪ sent_messages s
    ∧ (mirrors_file s → mirrors_file s').
Proof. apply scrape_and_send_spec. Qed.

Lemma messaging_run_sends_once_witness :
  let s := Sample.start ∅ None in
  no_fault (Sample.files NoFault)
  ∧ ∃ sent_count requests_data s',
      scrape_and_send AsciiText.methods Sample.browser (Sample.files NoFault) Sample.config s
      = ((sent_count, requests_data), s')
      ∧ sent_count = length (sent_links requests_data)
      ∧ NoDup (sent_links requests_data)
      ∧ Forall (λ link, Some link ∉ sent_messages s) (sent_links requests_data)
      ∧ sent_messages s'
        = list_to_set (Some <$> sent_links requests_data) ∪ sent_messages s
      ∧ (mirrors_file s → mirrors_file s').
Proof.
  intros s.
  assert (no_fault (Sample.files NoFault)) as Hfault by done.
  split; [done|].
  apply (messaging_run_sends_once AsciiText.methods Sample.browser (Sample.files NoFault)
      Sample.config s
           Hfault).
Defined.

(** * Examples *)

Example split_lowered :
  Text.split AsciiText.methods (Text.lower AsciiText.methods "  Need a  LOGO designed ")
  = ["need"; "a"; "logo"; "designed"].
Proof. reflexivity. Qed.

Example strip_text : Text.strip AsciiText.methods "  Logo design  " = "Logo design".
Proof. reflexivity. Qed.

Example similarity_one_word_in_six :
  SimpleSimilarityMatcher.calculate_similarity AsciiText.methods "Need a logo designed"
      "Logo design needed"
  = Q2Qc (1 # 6).
Proof. vm_compute. reflexivity. Qed.

Example groups_of_four :
  Windows.positions AsciiText.methods {| SimpleSimilarityMatcher.threshold := Q2Qc (1 # 2) |}
    [Sample.titled "logo design" "need"; Sample.titled "plumber" "wanted";
     Sample.titled "Logo design" "NEED"; Sample.titled "plumber" "wanted now"]
  = [[0; 2]; [1; 3]].
Proof. vm_compute. reflexivity. Qed.

(** Within one run, a link is sent once when its write to the ledger goes
    through ... *)
Example send_then_skip :
  let F := Sample.files NoFault in
  let s := Sample.start ∅ None in
  let run :=
    SimbiAutomation.send_each Sample.browser F Sample.config
      [Sample.request; Sample.request] 0 s in
  run.1.1 = 1
  ∧ output run.2
    = [MessageSentSuccessfully "Ann"; MessageAlreadySent "https://site/x/1"]
  ∧ csv_file run.2
    = Some [SimbiDataManager.fieldnames;
            ["2024-05-01T10:00:00"; "Ann"; "Logo design"; "https://site/x/1"; "";
             "Hi Ann, I saw your request for Logo design"]].
Proof. split_and!; reflexivity. Qed.

(** ... and again when that write failed: the second request finds the link
    unknown. (C4 speaks of links that [is_message_sent] knows.) *)
Example send_twice_after_failed_write :
  let F := Sample.files OpenFault in
  let s := Sample.start ∅ None in
  let run :=
    SimbiAutomation.send_each Sample.browser F Sample.config
      [Sample.request; Sample.request] 0 s in
  run.1.1 = 2
  ∧ output run.2
    = [ErrorRecordingSentMessage; MessageSentSuccessfully "Ann";
       ErrorRecordingSentMessage; MessageSentSuccessfully "Ann"]
  ∧ csv_file run.2 = None.
Proof. split_and!; reflexivity. Qed.

(** One float among the descriptions ends the call, though the first
    service matched. *)
Example float_description_raises :
  WindowsMatcher.find_matching_services AsciiText.methods (Fixture.token_set (Q2Qc (1 # 10)))
      "need logo"
    [Services.logo; Services.rated]
  = Raise OtherException.
Proof. reflexivity. Qed.

(** Without a model the consolidated script does not look at the services. *)
Example unloaded_matcher_ignores_services :
  ConsolidatedMatcher.find_matching_services false Sample.unloaded "need logo"
    [Services.logo; Services.rated]
  = Ok [].
Proof. reflexivity. Qed.

(** Two groups of two out of four requests, as the report counts them. *)
Example report_of_four :
  match Analysis.save_analysis_results "2024-01-01T00:00:00" Analysis.NoWriteFault
          (Windows.group_similar_requests AsciiText.methods (Fixture.token_set (Q2Qc (1 # 2)))
             Fixture.four_requests) with
  | (Analysis.Dumped r, l) =>
      Analysis.total_requests r = 4
      ∧ Analysis.group_id <$> Analysis.groups r = [1; 2]
      ∧ Analysis.size <$> Analysis.groups r = [2; 2]
      ∧ l = Analysis.AnalysisResultsSaved 2
  | _ => False
  end.
Proof. vm_compute. by split_and!. Qed.

(** On a page whose next button is always found and enabled, the crawl runs
    to its bound. *)
Example crawl_reaches_bound :
  scraping_lines
    (output (SimbiAutomation.scrape_requests AsciiText.methods Sample.browser Sample.config
               (Some 2%Z) (Sample.start ∅ None)).2)
  = [1; 2].
Proof. reflexivity. Qed.

(** An append onto a header line without terminator: the bytes of the row
    continue the header line, so the file reads as one long row; the link is
    in the set for the rest of the run and unknown after a reload. *)
Example append_to_unterminated_line :
  let glued :=
    ["timestamp"; "user_name"; "request_title"; "link"; "user_request_text";
     "message_sent2024-05-01T10:00:00"; "Ann"; "Logo design"; "https://site/x/1"; ""; ""] in
  let F := Sample.files (Unterminated [glued]) in
  let s := Sample.start ∅ (Some [SimbiDataManager.fieldnames]) in
  let s' := (SimbiDataManager.record_sent_message F Sample.request s).2 in
  append_succeeds F Sample.request s
  ∧ sent_messages s' = {[Some "https://site/x/1"]}
  ∧ csv_file s' = Some [glued]
  ∧ SimbiDataManager.is_message_sent "https://site/x/1" (reloaded (csv_file s'))
    = (Ok false, reloaded (csv_file s')).
Proof. split_and!; reflexivity. Qed.
